(** * precios-ganado-panama: price bulletins, table normalisation, seasonal analysis

    A shallow embedding of [pdf_extractor.py] (date resolver, price cleaner,
    table classifier, table normalisers), of the monthly aggregation and
    the report figures of [analisis_estacional.py], of the filters and
    the outlier search of [utils.py] and of the crawl and the downloads
    of [scraper.py], with the properties of the specification and further
    properties of the code stated over it.

    Conventions of the embedding.
    - A Python [str] is a [string] holding its UTF-8 bytes.  Substring tests
      ([kw in s]) on UTF-8 bytes agree with substring tests on code points.
      The character classes [\d] and [\s], [str.strip] and [str.lower] are
      modelled on ASCII and on the Latin-1 letters (the Spanish alphabet);
      other scripts are left as they are.
    - A Python [float] is a [spec_float] of [Floats.SpecFloat] at binary64
      (precision 53, emax 1024); [float(text)] rounds to nearest even.
    - A missing cell ([None]) is [None : option string].
    - An exception that escapes a function is the result [None] of an
      [option]-valued model; a function that catches everything is total.
    - The selection of the best months, the figures of the report and the
      queries compare prices and are stated over exact rationals ([Qc]); a
      missing value ([NaN], [NaT]) is [None].  The monthly table is also
      given in binary64 (module [Agregacion]), with missing months and
      prices, the running sum of the mean and the rounding of numpy:
      what depends on the order of the lines is stated there.
    - The network, the HTML parser and the file system of the scraper are
      parameters of its model: the answer to each request, the links that
      a page gives, the paths that exist. *)

From Stdlib Require Import ZArith NArith Lia Bool List Ascii String DecimalString.
From Stdlib Require Import Floats.SpecFloat.
From Stdlib Require Import QArith Qcanon Qround Lqa.
From Stdlib Require Import Permutation Sorted.
From stdpp Require Import base list sorting numbers strings.

Import ListNotations.
Local Open Scope string_scope.
Local Open Scope bool_scope.

(* ===================================================================== *)
(** * Python strings *)
(* ===================================================================== *)

Module PyStr.

Definition code (c : ascii) : N := N_of_ascii c.

(** [\d] on ASCII. *)
Definition is_digit (c : ascii) : bool :=
  (48 <=? code c)%N && (code c <=? 57)%N.

(** [\s] and [str.isspace] on ASCII: TAB, LF, VT, FF, CR, FS, GS, RS, US
    and the blank. *)
Definition is_space (c : ascii) : bool :=
  ((9 <=? code c)%N && (code c <=? 13)%N)
  || ((28 <=? code c)%N && (code c <=? 32)%N).

Definition is_upper (c : ascii) : bool :=
  (65 <=? code c)%N && (code c <=? 90)%N.

Definition lower_ascii (c : ascii) : ascii :=
  if is_upper c then ascii_of_N (code c + 32) else c.

(** Second byte of a two-byte sequence that starts with 0xC3: the
    capital letters U+00C0..U+00DE, the multiplication sign U+00D7
    apart. *)
Definition is_upper_latin1 (c : ascii) : bool :=
  (128 <=? code c)%N && (code c <=? 158)%N && negb (code c =? 151)%N.

(** [str.lower()]. *)
Fixpoint lower (s : string) : string :=
  match s with
  | EmptyString => EmptyString
  | String c s' =>
      if (code c =? 195)%N then
        match s' with
        | String d s'' =>
            String c (String (if is_upper_latin1 d
                              then ascii_of_N (code d + 32) else d)
                             (lower s''))
        | EmptyString => String c EmptyString
        end
      else String (lower_ascii c) (lower s')
  end.

Fixpoint strip_left (s : string) : string :=
  match s with
  | String c s' => if is_space c then strip_left s' else s
  | EmptyString => EmptyString
  end.

(** Drops the trailing white space: a character is kept when something
    that is kept follows it, or when it is no white space itself. *)
Fixpoint strip_right (s : string) : string :=
  match s with
  | EmptyString => EmptyString
  | String c s' =>
      match strip_right s' with
      | EmptyString => if is_space c then EmptyString else String c EmptyString
      | r => String c r
      end
  end.

(** [str.strip()]. *)
Definition strip (s : string) : string := strip_right (strip_left s).

(** [s.startswith(p)], returning the rest. *)
Fixpoint strip_prefix (p s : string) : option string :=
  match p, s with
  | EmptyString, _ => Some s
  | String a p', String b s' =>
      if Ascii.eqb a b then strip_prefix p' s' else None
  | String _ _, EmptyString => None
  end.

Definition starts_with (p s : string) : bool :=
  match strip_prefix p s with Some _ => true | None => false end.

(** [kw in s]. *)
Fixpoint contains (kw s : string) : bool :=
  starts_with kw s
  || match s with
     | String _ s' => contains kw s'
     | EmptyString => false
     end.

(** [sep.join(l)]. *)
Fixpoint join (sep : string) (l : list string) : string :=
  match l with
  | [] => ""
  | [x] => x
  | x :: l' => x ++ sep ++ join sep l'
  end.

(** [any(kw in s for kw in kws)]. *)
Definition any_in (kws : list string) (s : string) : bool :=
  existsb (fun kw => contains kw s) kws.

(** [str(x)] of a cell: the text itself, or ["None"]. *)
Definition str (x : option string) : string :=
  match x with Some s => s | None => "None" end.

End PyStr.

(* ===================================================================== *)
(** * Regular expressions, as [re] matches them *)
(* ===================================================================== *)

Module Re.
Import PyStr.

(** One item of a character class. *)
Inductive citem : Type :=
| CDigit                       (* \d *)
| CSpace                       (* \s *)
| CChar (c : ascii).           (* a literal character *)

Definition in_item (k : citem) (c : ascii) : bool :=
  match k with
  | CDigit => is_digit c
  | CSpace => is_space c
  | CChar a => Ascii.eqb a c
  end.

(** A character class [[...]]: any of its items. *)
Definition cclass : Type := list citem.

Definition in_class (k : cclass) (c : ascii) : bool :=
  existsb (fun i => in_item i c) k.

(** The fragment of the syntax that the patterns of the program use.
    Repetition is over a character class, greedy, with a lower bound and
    an optional upper bound; alternation is ordered; [Opt] is the greedy
    [?]; [Group i] is the capturing group number [i]. *)
Inductive regex : Type :=
| Lit (t : string)
| Rep (k : cclass) (lo : nat) (hi : option nat)
| Seq (r1 r2 : regex)
| Alt (r1 r2 : regex)
| Opt (r : regex)
| Group (i : nat) (r : regex).

Definition caps : Type := list (nat * string).

(** The text consumed between [s] and its suffix [s']. *)
Definition taken (s s' : string) : string :=
  substring 0 (String.length s - String.length s') s.

Definition hi_open (hi : option nat) : bool :=
  match hi with Some 0 => false | _ => true end.

Definition hi_pred (hi : option nat) : option nat :=
  match hi with Some n => Some (pred n) | None => None end.

Section Matcher.
Context {R : Type}.

(** Greedy [k{lo,hi}]: the longest run first, then shorter ones. *)
Fixpoint rep_greedy (k : cclass) (lo : nat) (hi : option nat)
    (s : string) (cont : string -> option R) : option R :=
  let stop := if Nat.eqb lo 0 then cont s else None in
  match s with
  | String c s' =>
      if in_class k c && hi_open hi then
        match rep_greedy k (pred lo) (hi_pred hi) s' cont with
        | Some x => Some x
        | None => stop
        end
      else stop
  | EmptyString => stop
  end.

(** Backtracking matcher in continuation-passing style. *)
Fixpoint rmatch (r : regex) (s : string) (cs : caps)
    (cont : string -> caps -> option R) : option R :=
  match r with
  | Lit t =>
      match strip_prefix t s with
      | Some s' => cont s' cs
      | None => None
      end
  | Rep k lo hi => rep_greedy k lo hi s (fun s' => cont s' cs)
  | Seq r1 r2 => rmatch r1 s cs (fun s' cs' => rmatch r2 s' cs' cont)
  | Alt r1 r2 =>
      match rmatch r1 s cs cont with
      | Some x => Some x
      | None => rmatch r2 s cs cont
      end
  | Opt r1 =>
      match rmatch r1 s cs cont with
      | Some x => Some x
      | None => cont s cs
      end
  | Group i r1 =>
      rmatch r1 s cs (fun s' cs' => cont s' ((i, taken s s') :: cs'))
  end.
End Matcher.

(** [re.match], giving the groups of the first successful path. *)
Definition match_at (r : regex) (s : string) : option caps :=
  rmatch r s [] (fun _ cs => Some cs).

(** [re.search]: the leftmost start position that matches. *)
Fixpoint search (r : regex) (s : string) : option caps :=
  match match_at r s with
  | Some cs => Some cs
  | None =>
      match s with
      | String _ s' => search r s'
      | EmptyString => None
      end
  end.

(** [m.group(i)]. *)
Fixpoint group (i : nat) (cs : caps) : option string :=
  match cs with
  | [] => None
  | (j, t) :: cs' => if Nat.eqb i j then Some t else group i cs'
  end.

(** [re.sub(k, '', s)] for a one-character pattern [k]. *)
Fixpoint sub_class (k : cclass) (s : string) : string :=
  match s with
  | EmptyString => EmptyString
  | String c s' =>
      if in_class k c then sub_class k s' else String c (sub_class k s')
  end.

End Re.

(* ===================================================================== *)
(** * Python floats *)
(* ===================================================================== *)

Module PyFloat.
Import PyStr.

Definition prec : Z := 53.
Definition emax : Z := 1024.

Definition float : Type := spec_float.

(** The binary64 nearest to the natural number [n]. *)
Definition of_N (n : N) : float :=
  binary_normalize prec emax (Z.of_N n) 0 false.

(** The binary64 nearest to [m / 10^k]: the quotient is computed with
    its location between two floats, then rounded once. *)
Definition of_decimal (m : N) (k : nat) : float :=
  match m with
  | N0 => S754_zero false
  | Npos p =>
      let '(q, e, l) :=
        SFdiv_core_binary prec emax (Zpos p) 0 (10 ^ Z.of_nat k) 0 in
      binary_round_aux prec emax false q e l
  end.

Definition digit_val (c : ascii) : N := (code c - 48)%N.

(** [int(s)] of a run of digits, most significant first. *)
Definition int_of_digits (s : string) : N :=
  fold_left (fun acc c => (10 * acc + digit_val c)%N)
            (list_ascii_of_string s) 0%N.

Definition all_digits (s : string) : bool :=
  forallb is_digit (list_ascii_of_string s).

(** Splits at the first dot. *)
Fixpoint split_dot (s : string) : string * option string :=
  match s with
  | EmptyString => (EmptyString, None)
  | String c s' =>
      if Ascii.eqb c "." then (EmptyString, Some s')
      else let '(a, b) := split_dot s' in (String c a, b)
  end.

(** [float(text)] on the texts [digits] and [digits.digits]; any other
    text raises [ValueError], here [None]. *)
Definition of_text (s : string) : option float :=
  match split_dot s with
  | (i, None) =>
      if all_digits i && negb (String.length i =? 0)%nat
      then Some (of_N (int_of_digits i)) else None
  | (i, Some f) =>
      if all_digits i && negb (String.length i =? 0)%nat
         && all_digits f && negb (String.length f =? 0)%nat
      then Some (of_decimal (int_of_digits (i ++ f)) (String.length f))
      else None
  end.

(** Truth value of a float: anything but a zero. *)
Definition truthy (x : float) : bool :=
  match x with S754_zero _ => false | _ => true end.

Definition is_finite (x : float) : bool :=
  match x with S754_zero _ | S754_finite _ _ _ => true | _ => false end.

(** Strictly positive: a positive finite float or plus infinity. *)
Definition is_positive (x : float) : bool :=
  match x with
  | S754_finite false _ _ | S754_infinity false => true
  | _ => false
  end.

(** Not below zero: a zero, a positive finite float or plus infinity. *)
Definition is_nonneg (x : float) : bool :=
  match x with
  | S754_zero _ | S754_finite false _ _ | S754_infinity false => true
  | _ => false
  end.

(** The exact value of a finite float. *)
Definition to_Q (x : float) : option Q :=
  match x with
  | S754_zero _ => Some 0%Q
  | S754_finite s m e =>
      let v := match e with
               | Zneg p => (Zpos m # 2 ^ p)%Q
               | _ => inject_Z (Zpos m * 2 ^ e)
               end in
      Some (Qred (if s then Qopp v else v))
  | _ => None
  end.

End PyFloat.

(* ===================================================================== *)
(** * pdf_extractor.py *)
(* ===================================================================== *)

Module PdfExtractor.
Import PyStr Re PyFloat.

(** ** Dates *)

(** A [datetime] at midnight. *)
Record datetime : Type := mk_datetime { year : N; month : N; day : N }.

Definition is_leap (y : N) : bool :=
  ((y mod 4 =? 0) && (negb (y mod 100 =? 0) || (y mod 400 =? 0)))%N.

Definition days_in_month (y m : N) : N :=
  match m with
  | 2 => if is_leap y then 29 else 28
  | 4 | 6 | 9 | 11 => 30
  | _ => 31
  end%N.

(** The constructor [datetime(y, m, d)]: [ValueError] outside the
    calendar. *)
Definition make_datetime (y m d : N) : option datetime :=
  if ((1 <=? y) && (y <=? 9999) && (1 <=? m) && (m <=? 12)
      && (1 <=? d) && (d <=? days_in_month y m))%N
  then Some (mk_datetime y m d) else None.

(** [s.split(c)]. *)
Fixpoint split_on (c : ascii) (s : string) : list string :=
  match s with
  | EmptyString => [EmptyString]
  | String a s' =>
      if Ascii.eqb a c then EmptyString :: split_on c s'
      else match split_on c s' with
           | f :: fs => String a f :: fs
           | [] => [String a EmptyString]
           end
  end.

(** A field of one or two digits. *)
Definition field_1_2 (f : string) : option N :=
  if all_digits f && (1 <=? String.length f)%nat && (String.length f <=? 2)%nat
  then Some (int_of_digits f) else None.

(** A field of exactly four digits. *)
Definition field_4 (f : string) : option N :=
  if all_digits f && (String.length f =? 4)%nat
  then Some (int_of_digits f) else None.

(** [datetime.strptime(s, "%d-%m-%Y")] on texts made of digits and
    dashes: [%d] and [%m] take one or two digits, [%Y] takes four, the
    whole text must be consumed, and the date must exist; [None] is the
    [ValueError]. *)
Definition strptime_dmY (s : string) : option datetime :=
  match split_on "-" s with
  | [d; m; y] =>
      match field_1_2 d, field_1_2 m, field_4 y with
      | Some d, Some m, Some y => make_datetime y m d
      | _, _, _ => None
      end
  | _ => None
  end.

(** ** extract_date_from_filename *)

Definition digits (lo hi : nat) : regex := Rep [CDigit] lo (Some hi).
Definition spaces : regex := Rep [CSpace] 0 None.

(** [(\d{1,2})-(\d{1,2})-(\d{2,4})], the groups numbered from [i]. *)
Definition date_groups (i : nat) : regex :=
  Seq (Group i (digits 1 2))
    (Seq (Lit "-")
       (Seq (Group (i + 1) (digits 1 2))
          (Seq (Lit "-") (Group (i + 2) (digits 2 4))))).

(** [r'(?:Del|del)?\s*(\d{1,2})-(\d{1,2})-(\d{2,4})\s*(?:al|a|-)?\s*(\d{1,2})-(\d{1,2})-(\d{2,4})'] *)
Definition filename_re : regex :=
  Seq (Opt (Alt (Lit "Del") (Lit "del")))
    (Seq spaces
       (Seq (date_groups 1)
          (Seq spaces
             (Seq (Opt (Alt (Lit "al") (Alt (Lit "a") (Lit "-"))))
                (Seq spaces (date_groups 4)))))).

(** [if len(year) == 2: year = '20' + year] *)
Definition expand_year (y : string) : string :=
  if (String.length y =? 2)%nat then "20" ++ y else y.

Definition dmy_text (d m y : string) : string := d ++ "-" ++ m ++ "-" ++ y.

(** [match.groups()] of a pattern with six groups. *)
Definition groups6 (m : caps) : option (string * string * string * string * string * string) :=
  match group 1 m, group 2 m, group 3 m, group 4 m, group 5 m, group 6 m with
  | Some a, Some b, Some c, Some d, Some e, Some f => Some (a, b, c, d, e, f)
  | _, _, _, _, _, _ => None
  end.

(** Both dates or none: the [try] block returns only when the two
    [strptime] calls succeed; every other path reaches
    [return None, None]. *)
Definition extract_date_from_filename (filename : string)
    : option datetime * option datetime :=
  match search filename_re filename with
  | Some m =>
      match groups6 m with
      | Some (day1, month1, year1, day2, month2, year2) =>
          let year1 := expand_year year1 in
          let year2 := expand_year year2 in
          match strptime_dmY (dmy_text day1 month1 year1) with
          | Some date_from =>
              match strptime_dmY (dmy_text day2 month2 year2) with
              | Some date_to => (Some date_from, Some date_to)
              | None => (None, None)
              end
          | None => (None, None)
          end
      | None => (None, None)
      end
  | None => (None, None)
  end.

(** ** clean_price *)

(** [r'[B/.\s,]'] *)
Definition currency_class : cclass :=
  [CChar "B"; CChar "/"; CChar "."; CSpace; CChar ","].

(** [r'(\d+(?:\.\d+)?)'] *)
Definition number_re : regex :=
  Group 1 (Seq (Rep [CDigit] 1 None)
               (Opt (Seq (Lit ".") (Rep [CDigit] 1 None)))).

(** A cell is a text or missing; [pd.isna] holds of the missing one. *)
Definition cell : Type := option string.

Definition clean_price (price_str : cell) : option float :=
  match price_str with
  | None => None
  | Some "" => None
  | Some s =>
      let price_str := sub_class currency_class s in
      match search number_re price_str with
      | Some m =>
          match group 1 m with
          | Some t => of_text t
          | None => None
          end
      | None => None
      end
  end.

(** ** Tables *)

(** The four labels that [identify_table_type] returns:
    ["unknown"], ["por_lugar"], ["por_categoria"], ["general"]. *)
Inductive table_type : Type := Unknown | PorLugar | PorCategoria | General.

(** A [DataFrame] of cells: the column labels and the rows, each row with
    one cell per column.  The labels are taken to be distinct, as the
    label look-up [row[col]] needs to give one cell. *)
Record DataFrame : Type := mk_df {
  columns : list string;
  rows : list (list cell)
}.

(** [df.empty]: no column or no row. *)
Definition df_empty (df : DataFrame) : bool :=
  (length (columns df) =? 0)%nat || (length (rows df) =? 0)%nat.

(** [df.iloc[0, 0]] of a frame that is not empty. *)
Definition iloc_0_0 (df : DataFrame) : cell :=
  match rows df with
  | (c :: _) :: _ => c
  | _ => None
  end.

Definition keywords_lugar : list string :=
  ["lugar"; "feria"; "mercado"; "ubicación"; "sitio"].
Definition keywords_categoria : list string :=
  ["categoría"; "categoria"; "tipo"; "clase"].
Definition keywords_precio : list string :=
  ["precio"; "valor"; "monto"; "b/"; "$"].

Definition identify_table_type (df : DataFrame) : table_type :=
  if df_empty df then Unknown
  else
    let cols_lower := map lower (columns df) in
    let first_col := lower (str (iloc_0_0 df)) in
    let has_lugar := any_in keywords_lugar (join " " (cols_lower ++ [first_col])%list) in
    let has_categoria := any_in keywords_categoria (join " " (cols_lower ++ [first_col])%list) in
    let has_precio := any_in keywords_precio (join " " cols_lower) in
    if has_lugar && has_precio then PorLugar
    else if has_categoria && has_precio then PorCategoria
    else General.

(** ** From a raw table to a frame (the loop body of
    [extract_tables_from_pdf]) *)

Definition string_of_nat (n : nat) : string :=
  DecimalString.NilZero.string_of_uint (Nat.to_uint n).

(** [str(col).strip() if col else f"col_{i}"] *)
Definition column_label (i : nat) (col : cell) : string :=
  match col with
  | None | Some "" => "col_" ++ string_of_nat i
  | Some c => strip c
  end.

Definition is_na (c : cell) : bool :=
  match c with None => true | Some _ => false end.

(** The width that [pd.DataFrame] gives to a list of rows: that of the
    longest row. *)
Definition width (body : list (list cell)) : nat :=
  list_max (map (@length cell) body).

(** A row shorter than the frame is filled up with missing cells. *)
Definition pad (k : nat) (r : list cell) : list cell :=
  (r ++ repeat None (k - length r))%list.

(** [None] when the table is skipped ([not table or len(table) < 2]) or
    when [pd.DataFrame] raises: the longest row has not the width of the
    header. *)
Definition make_df (table : list (list cell)) : option DataFrame :=
  match table with
  | header :: (_ :: _) as body =>
      if (width body =? length header)%nat then
        Some (mk_df (imap column_label header)
                    (List.filter (fun r => negb (forallb is_na r))
                                 (map (pad (length header)) body)))
      else None
  | _ => None
  end.

(** ** Normalisation *)

Record PriceRecord : Type := mk_record {
  fecha_desde : option datetime;
  fecha_hasta : option datetime;
  lugar : string;
  categoria : string;
  precio : float;
  fuente_pdf : string;
  tipo_tabla : table_type
}.

(** One entry of [tables_data]. *)
Record Item : Type := mk_item {
  pdf_filename : string;
  page : nat;
  table_num : nat;
  table_type_of : table_type;
  date_from : option datetime;
  date_to : option datetime;
  data : DataFrame
}.

Definition emit (item : Item) (lug cat : string) (p : float) : PriceRecord :=
  mk_record (date_from item) (date_to item) lug cat p
            (pdf_filename item) (table_type_of item).

(** [if precio: records.append(...)]: [None] and the zeros are falsy. *)
Definition emit_if (item : Item) (lug cat : string) (p : option float)
    : list PriceRecord :=
  match p with
  | Some x => if truthy x then [emit item lug cat x] else []
  | None => []
  end.

(** The cells of a row with their labels, in column order: what
    [row[col] for col in df.columns] visits. *)
Definition labelled (df : DataFrame) (row : list cell) : list (string * cell) :=
  combine (columns df) row.

(** [str(row.iloc[0])]; [None] is the [IndexError] of a row without
    cells. *)
Definition first_text (row : list cell) : option string :=
  match row with
  | c :: _ => Some (str c)
  | [] => None
  end.

(** The first loop of the two label-driven strategies: the text of the
    first column whose label holds a keyword, else [None]. *)
Definition find_by_keyword (kws : list string) (df : DataFrame)
    (row : list cell) : option string :=
  match find (fun cv => any_in kws (lower (fst cv))) (labelled df row) with
  | Some (_, v) => Some (str v)
  | None => None
  end.

(** [if not x: x = str(row.iloc[0])]: the missing and the empty text are
    both replaced. *)
Definition or_first (x : option string) (row : list cell) : option string :=
  match x with
  | Some (String _ _ as t) => Some t
  | _ => first_text row
  end.

Definition price_column (col : string) : bool :=
  any_in ["precio"; "valor"; "b/"; "$"] (lower col).

Definition por_lugar_row (item : Item) (df : DataFrame) (row : list cell)
    : option (list PriceRecord) :=
  match or_first (find_by_keyword ["lugar"; "feria"; "mercado"] df row) row with
  | Some lug =>
      Some (flat_map
              (fun cv =>
                 if price_column (fst cv)
                 then emit_if item (strip lug) (fst cv) (clean_price (snd cv))
                 else [])
              (labelled df row))
  | None => None
  end.

(** Runs the body of a [for ... in df.iterrows()] loop over the rows and
    gathers the records, unless some row raises. *)
Fixpoint for_rows (body : list cell -> option (list PriceRecord))
    (rs : list (list cell)) : option (list PriceRecord) :=
  match rs with
  | [] => Some []
  | r :: rs' =>
      match body r with
      | Some recs =>
          match for_rows body rs' with
          | Some recs' => Some (recs ++ recs')%list
          | None => None
          end
      | None => None
      end
  end.

Definition _normalize_por_lugar (item : Item) (df : DataFrame)
    : option (list PriceRecord) :=
  for_rows (por_lugar_row item df) (rows df).

(** [col != df.columns[0]] *)
Definition not_first_label (df : DataFrame) (col : string) : bool :=
  match columns df with
  | c0 :: _ => negb (String.eqb col c0)
  | [] => true
  end.

Definition por_categoria_row (item : Item) (df : DataFrame) (row : list cell)
    : option (list PriceRecord) :=
  match or_first (find_by_keyword ["categoría"; "categoria"; "tipo"] df row) row with
  | Some cat =>
      Some (flat_map
              (fun cv =>
                 if not_first_label df (fst cv)
                 then emit_if item
                        (if contains "precio" (lower (fst cv))
                         then "General" else fst cv)
                        (strip cat) (clean_price (snd cv))
                 else [])
              (labelled df row))
  | None => None
  end.

Definition _normalize_por_categoria (item : Item) (df : DataFrame)
    : option (list PriceRecord) :=
  for_rows (por_categoria_row item df) (rows df).

(** [str(df.columns[0]).lower()], read only when a record is built. *)
Definition first_label_lower (df : DataFrame) : string :=
  match columns df with
  | c0 :: _ => lower c0
  | [] => ""
  end.

Definition general_row (item : Item) (df : DataFrame) (row : list cell)
    : option (list PriceRecord) :=
  match first_text row with
  | Some t =>
      let identifier := strip t in
      Some (flat_map
              (fun cv =>
                 emit_if item
                   (if contains "lugar" (first_label_lower df)
                    then identifier else fst cv)
                   (if contains "categ" (first_label_lower df)
                    then identifier else fst cv)
                   (clean_price (snd cv)))
              (combine (tl (columns df)) (tl row)))
  | None => None
  end.

Definition _normalize_general (item : Item) (df : DataFrame)
    : option (list PriceRecord) :=
  for_rows (general_row item df) (rows df).

(** The dispatch of [normalize_data] for one entry. *)
Definition normalize_item (item : Item) : option (list PriceRecord) :=
  match table_type_of item with
  | PorLugar => _normalize_por_lugar item (data item)
  | PorCategoria => _normalize_por_categoria item (data item)
  | _ => _normalize_general item (data item)
  end.

Fixpoint normalize_data (tables_data : list Item) : option (list PriceRecord) :=
  match tables_data with
  | [] => Some []
  | item :: rest =>
      match normalize_item item with
      | Some recs =>
          match normalize_data rest with
          | Some recs' => Some (recs ++ recs')%list
          | None => None
          end
      | None => None
      end
  end.

(** One table of one page, from the raw grid to the entry of
    [tables_data]. *)
Definition table_item (filename : string) (page_num table_num : nat)
    (dates : option datetime * option datetime)
    (table : list (list cell)) : option Item :=
  match make_df table with
  | Some df =>
      Some (mk_item filename page_num table_num (identify_table_type df)
                    (fst dates) (snd dates) df)
  | None => None
  end.

(** ** File names of the form [Del DD-MM-YY al DD-MM-YY] *)

(** Two characters as a text, and the number that two digits write. *)
Definition two (a b : ascii) : string := String a (String b EmptyString).
Definition num2 (a b : ascii) : N := (10 * digit_val a + digit_val b)%N.

(** [DD-MM-YY] *)
Definition dd_mm_yy (d1 d2 m1 m2 y1 y2 : ascii) : string :=
  two d1 d2 ++ "-" ++ two m1 m2 ++ "-" ++ two y1 y2.

Definition leading_digit (s : string) : bool :=
  match s with
  | String c _ => is_digit c
  | EmptyString => false
  end.

(** After an optional [Del] or [del] and the blanks, a digit comes. *)
Definition can_start (s : string) : bool :=
  leading_digit (strip_left s)
  || match strip_prefix "Del" s with
     | Some r => leading_digit (strip_left r)
     | None => false
     end
  || match strip_prefix "del" s with
     | Some r => leading_digit (strip_left r)
     | None => false
     end.

(** Both dates when both exist, else none. *)
Definition both_or_none (a b : option datetime)
    : option datetime * option datetime :=
  match a, b with
  | Some x, Some y => (Some x, Some y)
  | _, _ => (None, None)
  end.

(** ** Vocabulary of the statements *)

(** [kw] occurs in [s]. *)
Definition substring_of (kw s : string) : Prop :=
  exists pre post, s = pre ++ kw ++ post.

(** Some keyword of [kws] occurs in some text of [texts]. *)
Definition mentions (kws texts : list string) : Prop :=
  exists kw t, In kw kws /\ In t texts /\ substring_of kw t.

(** The lower-case column headers. *)
Definition header_texts (df : DataFrame) : list string :=
  map lower (columns df).

(** The lower-case column headers and the lower-case first cell of the
    first data row. *)
Definition classifier_texts (df : DataFrame) : list string :=
  (header_texts df ++ [lower (str (iloc_0_0 df))])%list.

(** No character of [s] is in the class [k]. *)
Definition free_of (k : cclass) (s : string) : bool :=
  forallb (fun c => negb (in_class k c)) (list_ascii_of_string s).

(** The three normalisation strategies. *)
Definition strategies : list (Item -> DataFrame -> option (list PriceRecord)) :=
  [_normalize_por_lugar; _normalize_por_categoria; _normalize_general].

Definition cells_of (df : DataFrame) : list cell := List.concat (rows df).

(** The record [r] carries the cleaned value of the cell [c], which is
    truthy. *)
Definition price_from (c : cell) (r : PriceRecord) : Prop :=
  clean_price c = Some (precio r) /\ truthy (precio r) = true.

(** No cell of the frame has more than 307 characters. *)
Definition short_cells (df : DataFrame) : Prop :=
  forall s, In (Some s) (cells_of df) -> String.length s <= 307.

(** A one followed by 309 zeros. *)
Definition celda_enorme : string :=
  String "1" (string_of_list_ascii (repeat "0"%char 309)).

(** A frame with a name column, and rows as wide as the header. *)
Definition has_first_column (df : DataFrame) : Prop :=
  columns df <> [] /\ Forall (fun r => length r = length (columns df)) (rows df).

(** A keyword with at least one character and without a blank. *)
Fixpoint no_space (s : string) : bool :=
  match s with
  | EmptyString => true
  | String c s' => negb (Ascii.eqb c " ") && no_space s'
  end.

Definition plain_keyword (kw : string) : bool :=
  negb (String.eqb kw "") && no_space kw.

Definition tabla_lugar : list (list cell) :=
  [[Some "Lugar"; Some "Precio Novillo"]; [Some "Divisa"; Some "150.00"]].

Definition tabla_general : list (list cell) :=
  [[Some "Categoría"; Some "Mercado A"; Some "Mercado B"];
   [Some "Ternera"; Some "100"; Some "110"]].

(** Classification and normalisation of one raw table. *)
Definition run_table (filename : string)
    (dates : option datetime * option datetime)
    (table : list (list cell)) : option (list PriceRecord) :=
  match table_item filename 1 1 dates table with
  | Some item => normalize_item item
  | None => None
  end.

(** ** The first number of a text *)

(** Drops the characters before the first digit. *)
Fixpoint skip_to_digit (s : string) : string :=
  match s with
  | EmptyString => EmptyString
  | String c s' => if is_digit c then s else skip_to_digit s'
  end.

(** The digits that a text starts with, and what follows them. *)
Fixpoint leading_digits (s : string) : string :=
  match s with
  | String c s' => if is_digit c then String c (leading_digits s') else EmptyString
  | EmptyString => EmptyString
  end.

Fixpoint after_digits (s : string) : string :=
  match s with
  | String c s' => if is_digit c then after_digits s' else s
  | EmptyString => EmptyString
  end.

(** The number that the first run of digits of a text writes. *)
Definition first_number (s : string) : option N :=
  match leading_digits (skip_to_digit s) with
  | EmptyString => None
  | run => Some (int_of_digits run)
  end.

(** The record carries the dates, the source and the label of the entry. *)
Definition carries (item : Item) (r : PriceRecord) : Prop :=
  fecha_desde r = date_from item /\ fecha_hasta r = date_to item
  /\ fuente_pdf r = pdf_filename item /\ tipo_tabla r = table_type_of item.

(** The cell cleans to a price that is not zero. *)
Definition priced (c : cell) : bool :=
  match clean_price c with
  | Some x => truthy x
  | None => false
  end.

(** The cells of the frame outside its first column, row after row. *)
Definition value_cells (df : DataFrame) : list cell :=
  flat_map (fun row => tl row) (rows df).

(** What a cell gives to the records: its cleaned value, unless the
    cleaning fails or the value is falsy. *)
Definition precio_de (c : cell) : option float :=
  match clean_price c with
  | Some x => if truthy x then Some x else None
  | None => None
  end.

(** The cells that a label-driven strategy cleans: row after row and, in
    a row, in the order of the columns, those under a label that [sel]
    accepts. *)
Definition cleaned_cells (sel : string -> bool) (df : DataFrame) : list cell :=
  flat_map (fun row => map snd (List.filter (fun cv => sel (fst cv))
                                            (labelled df row)))
           (rows df).

(** The cells that the generic strategy cleans: in each row those after
    the first, as far as there are columns. *)
Definition cleaned_cells_general (df : DataFrame) : list cell :=
  flat_map (fun row => map snd (combine (tl (columns df)) (tl row))) (rows df).

(** No row of the frame is blank: each has a cell that is not missing. *)
Definition no_blank_row (df : DataFrame) : Prop :=
  Forall (fun r => exists s, In (Some s) r) (rows df).

Definition item_general : Item :=
  mk_item "boletin.pdf" 1 1 General None None
          (mk_df ["Categoría"; "Mercado A"; "Mercado B"]
                 [[Some "Ternera"; Some "100"; Some "N/D"]]).

Definition item_monto : Item :=
  mk_item "boletin.pdf" 1 1 PorLugar None None
          (mk_df ["Lugar"; "Monto"] [[Some "Divisa"; Some "150"]]).

Definition item_sin_nombre : Item :=
  mk_item "boletin.pdf" 1 1 General None None
          (mk_df ["Raza"; "Mercado A"] [[Some "Cebu"; Some "100"]]).

(** The date exists in the calendar of [datetime]. *)
Definition fecha_valida (d : datetime) : Prop :=
  (1 <= year d <= 9999 /\ 1 <= month d <= 12
   /\ 1 <= day d <= days_in_month (year d) (month d))%N.

(** ** The texts on which the classes are modelled *)

(** The text is made of ASCII characters.  On such a text [\d], [\s],
    [str.strip] and [float] are what the model has; the digits and the
    white space of other scripts are outside it. *)
Definition is_ascii (s : string) : bool :=
  forallb (fun c => (code c <? 128)%N) (list_ascii_of_string s).

Definition ascii_cell (c : cell) : bool :=
  match c with
  | Some s => is_ascii s
  | None => true
  end.

(** The text is empty or starts with an ASCII character that is no
    digit. *)
Definition plain_start (s : string) : bool :=
  match s with
  | String c _ => (code c <? 128)%N && negb (is_digit c)
  | EmptyString => true
  end.

(** ** The calendar, as the statements read it *)

(** Thirty days have April, June, September and November, the others
    thirty-one, but February twenty-eight, and twenty-nine in a year
    that four divides and a hundred does not, or four hundred does. *)
Definition dias_del_mes (y m : N) : N :=
  match m with
  | 1 | 3 | 5 | 7 | 8 | 10 | 12 => 31
  | 4 | 6 | 9 | 11 => 30
  | 2 =>
      if ((y mod 4 =? 0) && negb (y mod 100 =? 0)) || (y mod 400 =? 0)
      then 29 else 28
  | _ => 0
  end%N.

(** The day [d] of the month [m] of the year [y] exists. *)
Definition existe (y m d : N) : bool :=
  ((1 <=? d) && (d <=? dias_del_mes y m))%N.

End PdfExtractor.

(* ===================================================================== *)
(** * analisis_estacional.py *)
(* ===================================================================== *)

(** The figures of the analysis are exact rationals in canonical form:
    sums, quotients and comparisons are those of the rational numbers.  The
    rounding that pandas' binary64 accumulation adds to a sum is not part
    of this model; it is part of the module [Agregacion] below. *)

Module AnalisisEstacional.
Local Open Scope Qc_scope.

(** A line of the price file with the columns that [cargar_datos] adds. *)
Record Registro : Type := mk_registro {
  mes : nat;
  anio : nat;
  lugar : string;
  categoria : string;
  precio : Qc
}.

Definition Qc_of_nat (n : nat) : Qc := Qc_of_Z (Z.of_nat n).

Definition suma (l : list Qc) : Qc := foldr Qcplus 0 l.

(** ['mean'] *)
Definition mean (l : list Qc) : Qc := suma l / Qc_of_nat (length l).

Definition ordenados (l : list Qc) : list Qc := merge_sort Qcle l.

(** ['median']: the middle value, or the mean of the two middle ones. *)
Definition median (l : list Qc) : Qc :=
  let s := ordenados l in
  let n := length s in
  if Nat.even n
  then (nth (n / 2 - 1) s 0 + nth (n / 2) s 0) / Qc_of_nat 2
  else nth (n / 2) s 0.

(** ['min'] and ['max'] *)
Definition minimum (l : list Qc) : Qc := hd 0 (ordenados l).
Definition maximum (l : list Qc) : Qc := List.last (ordenados l) 0.

(** The integer nearest to [x], a tie going to the even one. *)
Definition round_half_even (x : Q) : Z :=
  let n := Qfloor x in
  match Qcompare (x - inject_Z n) (1 # 2) with
  | Lt => n
  | Gt => (n + 1)%Z
  | Eq => if Z.even n then n else (n + 1)%Z
  end.

(** [.round(2)] *)
Definition round2 (x : Qc) : Qc :=
  Q2Qc (round_half_even (this x * inject_Z 100) # 100).

Definition meses_nombres (m : nat) : option string :=
  match m with
  | 1 => Some "Enero" | 2 => Some "Febrero" | 3 => Some "Marzo"
  | 4 => Some "Abril" | 5 => Some "Mayo" | 6 => Some "Junio"
  | 7 => Some "Julio" | 8 => Some "Agosto" | 9 => Some "Septiembre"
  | 10 => Some "Octubre" | 11 => Some "Noviembre" | 12 => Some "Diciembre"
  | _ => None
  end%nat.

(** A row of [precios_por_mes]; [indice] is the index of the frame, the
    month number.  The column ['Desv.Est'] needs a square root and is
    left out. *)
Record FilaMes : Type := mk_fila {
  indice : nat;
  Mes : option string;
  Promedio : Qc;
  Mediana : Qc;
  Minimo : Qc;
  Maximo : Qc;
  Registros : nat
}.

(** The keys of [df.groupby('mes')]: the months that occur, ascending. *)
Definition claves (df : list Registro) : list nat :=
  List.filter (fun m => existsb (Nat.eqb m) (map mes df))
              (seq 0 (S (list_max (map mes df)))).

(** The prices of the group of month [m], in the order of the frame. *)
Definition grupo (df : list Registro) (m : nat) : list Qc :=
  map precio (List.filter (fun r => Nat.eqb (mes r) m) df).

Definition fila (m : nat) (g : list Qc) : FilaMes :=
  mk_fila m (meses_nombres m)
          (round2 (mean g)) (round2 (median g))
          (round2 (minimum g)) (round2 (maximum g))
          (length g).

Definition analizar_por_mes (df : list Registro) : list FilaMes :=
  map (fun m => fila m (grupo df m)) (claves df).

(** ** nsmallest and nlargest *)

Section Seleccion.
(** [antes x y]: a row of key [x] may stand before a row of key [y]. *)
Variable antes : Qc -> Qc -> bool.

(** A row goes in front of the first row that it may stand before:
    rows of equal key keep the order of the frame. *)
Fixpoint insertar (x : FilaMes) (l : list FilaMes) : list FilaMes :=
  match l with
  | [] => [x]
  | y :: l' =>
      if antes (Promedio x) (Promedio y) then x :: l
      else y :: insertar x l'
  end.

Definition ordenar (t : list FilaMes) : list FilaMes :=
  foldr insertar [] t.

(** The first [n] rows in the order of the key, [keep='first']. *)
Definition primeros (n : nat) (t : list FilaMes) : list FilaMes :=
  firstn n (ordenar t).
End Seleccion.

Definition nsmallest (n : nat) (t : list FilaMes) : list FilaMes :=
  primeros (fun x y => bool_decide (x ≤ y)) n t.

Definition nlargest (n : nat) (t : list FilaMes) : list FilaMes :=
  primeros (fun x y => bool_decide (y ≤ x)) n t.

Definition identificar_mejores_meses (precios_por_mes : list FilaMes)
    : list FilaMes * list FilaMes :=
  let mejores_compra := nsmallest 3 precios_por_mes in
  let mejores_venta := nlargest 3 precios_por_mes in
  (mejores_compra, mejores_venta).

(** The index of the frame grows strictly from row to row. *)
Definition meses_crecientes (t : list FilaMes) : Prop :=
  StronglySorted (fun a b => (indice a < indice b)%nat) t.

(** [r] is a better month to buy than [u]: a lower mean, or the same mean
    and a smaller month index. *)
Definition mejor_compra (r u : FilaMes) : Prop :=
  Promedio r < Promedio u
  \/ (Promedio r = Promedio u /\ (indice r < indice u)%nat).

(** [r] is a better month to sell than [u]: a higher mean, or the same
    mean and a smaller month index. *)
Definition mejor_venta (r u : FilaMes) : Prop :=
  Promedio u < Promedio r
  \/ (Promedio r = Promedio u /\ (indice r < indice u)%nat).

(** What the selection of [n] rows of [t] in the order [mejor] is. *)
Definition seleccion (mejor : FilaMes -> FilaMes -> Prop) (n : nat)
    (t sel : list FilaMes) : Prop :=
  length sel = Nat.min n (length t)
  /\ (forall r, In r sel -> In r t)
  /\ (forall r u, In r sel -> In u t -> ~ In u sel -> mejor r u)
  /\ StronglySorted mejor sel.

(** [r] stands before [u] in the stable order of the key [antes]: its
    key may stand before, and if the keys tie it has the smaller index. *)
Definition delante (antes : Qc -> Qc -> bool) (r u : FilaMes) : Prop :=
  antes (Promedio r) (Promedio u) = true
  /\ (antes (Promedio u) (Promedio r) = true -> (indice r < indice u)%nat).

(** ** Sample data *)

Definition q (a : Z) (b : positive) : Qc := Q2Qc (a # b).

Definition fila_simple (m : nat) (p : Qc) : FilaMes :=
  mk_fila m (meses_nombres m) p p p p 1.

Definition tabla_cuatro_meses : list FilaMes :=
  [fila_simple 1 (q 3 1); fila_simple 3 (q 189 50);
   fila_simple 5 (q 2 1); fila_simple 12 (q 2 1)].

Definition tabla_dos_meses : list FilaMes :=
  [fila_simple 1 (q 3 1); fila_simple 2 (q 4 1)].

(** ** The figures of generar_reporte *)

(** [Series.min()] and [Series.max()]: [nan], here [None], on an empty
    column. *)
Definition serie_min (l : list Qc) : option Qc :=
  match l with
  | [] => None
  | _ :: _ => Some (minimum l)
  end.

Definition serie_max (l : list Qc) : option Qc :=
  match l with
  | [] => None
  | _ :: _ => Some (maximum l)
  end.

(** [a - b], where [None] is [nan]. *)
Definition resta (a b : option Qc) : option Qc :=
  match a, b with
  | Some x, Some y => Some (x - y)
  | _, _ => None
  end.

(** The numbers that [generar_reporte] computes for the sections
    "RESUMEN EJECUTIVO" and "ESTRATEGIA RECOMENDADA".  The two
    percentages are left out; they are divisions of numpy floats, which
    do not raise. *)
Record Cifras : Type := mk_cifras {
  precio_min_global : option Qc;
  precio_max_global : option Qc;
  diferencia : option Qc;
  mes_compra : option string;
  mes_venta : option string;
  precio_compra : Qc;
  precio_venta : Qc;
  ganancia : Qc
}.

(** [None] is the [IndexError] of [iloc[0]] on a selection without
    rows. *)
Definition cifras_reporte (precios_por_mes mejores_compra mejores_venta : list FilaMes)
    : option Cifras :=
  let precio_min_global := serie_min (map Promedio precios_por_mes) in
  let precio_max_global := serie_max (map Promedio precios_por_mes) in
  let diferencia := resta precio_max_global precio_min_global in
  match mejores_compra, mejores_venta with
  | c :: _, v :: _ =>
      let mes_compra := Mes c in
      let mes_venta := Mes v in
      let precio_compra := Promedio c in
      let precio_venta := Promedio v in
      let ganancia := precio_venta - precio_compra in
      Some (mk_cifras precio_min_global precio_max_global diferencia
                      mes_compra mes_venta precio_compra precio_venta ganancia)
  | _, _ => None
  end.

(** The steps of [main] from the monthly table to the figures. *)
Definition cifras_de_tabla (precios_por_mes : list FilaMes) : option Cifras :=
  let '(mejores_compra, mejores_venta) := identificar_mejores_meses precios_por_mes in
  cifras_reporte precios_por_mes mejores_compra mejores_venta.

(** The rows stand in the order of the key [antes]. *)
Definition por_clave (antes : Qc -> Qc -> bool) (a b : FilaMes) : Prop :=
  antes (Promedio a) (Promedio b) = true.

End AnalisisEstacional.

(* ===================================================================== *)
(** * analisis_estacional.py: the monthly table in binary64 *)
(* ===================================================================== *)

(** The frame that [analizar_por_mes] receives holds binary64 prices, and
    pandas computes the table in binary64: this module follows it step by
    step.  The column ['Desv.Est'] is left out. *)
Module Agregacion.
Import PyFloat.

Definition is_nan (x : float) : bool :=
  match x with S754_nan => true | _ => false end.

(** A line of the frame with the two columns that the table reads: the
    month, [None] when the date is missing, and the price, a NaN when it
    is missing. *)
Record Linea : Type := mk_linea {
  mes : option nat;
  precio : float
}.

(** The values that the aggregations see: pandas skips the NaN. *)
Definition presentes (g : list float) : list float :=
  List.filter (fun x => negb (is_nan x)) g.

(** One turn of the loop of [group_mean]: a compensated sum. *)
Definition kahan (st : float * float) (val : float) : float * float :=
  let '(sumx, compensation) := st in
  let y := SFsub prec emax val compensation in
  let t := SFadd prec emax sumx y in
  let c := SFsub prec emax (SFsub prec emax t sumx) y in
  (t, if is_nan c then S754_zero false else c).

Definition suma (p : list float) : float :=
  fst (fold_left kahan p (S754_zero false, S754_zero false)).

(** The sum without compensation, as earlier versions of pandas computed
    it. *)
Definition suma_llana (p : list float) : float :=
  fold_left (SFadd prec emax) p (S754_zero false).

(** ['mean'] *)
Definition mean (g : list float) : float :=
  match presentes g with
  | [] => S754_nan
  | p => SFdiv prec emax (suma p) (of_N (N.of_nat (length p)))
  end.

Definition mean_llana (g : list float) : float :=
  match presentes g with
  | [] => S754_nan
  | p => SFdiv prec emax (suma_llana p) (of_N (N.of_nat (length p)))
  end.

(** Insertion in front of the first value that is not smaller. *)
Fixpoint insertar (x : float) (l : list float) : list float :=
  match l with
  | [] => [x]
  | y :: l' => if SFleb x y then x :: l else y :: insertar x l'
  end.

Definition ordenados (p : list float) : list float := foldr insertar [] p.

(** ['median']: the middle value, or the mean of the two middle ones. *)
Definition median (g : list float) : float :=
  let s := ordenados (presentes g) in
  let n := length s in
  match n with
  | O => S754_nan
  | _ =>
      if Nat.even n
      then SFdiv prec emax
             (SFadd prec emax (nth (n / 2) s S754_nan) (nth (n / 2 - 1) s S754_nan))
             (of_N 2)
      else nth (n / 2) s S754_nan
  end.

(** ['min'] and ['max'] *)
Definition minimum (g : list float) : float :=
  hd S754_nan (ordenados (presentes g)).
Definition maximum (g : list float) : float :=
  List.last (ordenados (presentes g)) S754_nan.

(** ['count'] *)
Definition count (g : list float) : nat := length (presentes g).

(** [numpy.rint]: the nearest whole number, a tie going to the even one;
    a float of exponent zero or more is whole already. *)
Definition rint (x : float) : float :=
  match x with
  | S754_finite s m (Zneg k) =>
      let r := fst (shr (shr_record_of_loc (Zpos m) loc_Exact) (Zneg k) (Zpos k)) in
      binary_normalize prec emax
        (cond_Zopp s (round_nearest_even (shr_m r) (loc_of_shr_record r))) 0 s
  | _ => x
  end.

(** [.round(2)] of numpy: multiply by 100, [rint], divide by 100. *)
Definition round2 (x : float) : float :=
  SFdiv prec emax (rint (SFmul prec emax x (of_N 100))) (of_N 100).

Definition meses_nombres := AnalisisEstacional.meses_nombres.

(** A row of [precios_por_mes]; [indice] is the index of the frame. *)
Record FilaMes : Type := mk_fila {
  indice : nat;
  Mes : option string;
  Promedio : float;
  Mediana : float;
  Minimo : float;
  Maximo : float;
  Registros : nat
}.

(** The months of the lines that have one. *)
Definition meses (df : list Linea) : list nat := omap mes df.

(** The keys of [df.groupby('mes')]: the months that occur, ascending;
    a line without month belongs to no group. *)
Definition claves (df : list Linea) : list nat :=
  List.filter (fun m => existsb (Nat.eqb m) (meses df))
              (seq 0 (S (list_max (meses df)))).

(** The line is of the month [m]. *)
Definition del_mes (m : nat) (r : Linea) : bool :=
  match mes r with
  | Some k => Nat.eqb k m
  | None => false
  end.

(** The prices of the group of month [m], in the order of the frame. *)
Definition grupo (df : list Linea) (m : nat) : list float :=
  map precio (List.filter (del_mes m) df).

Definition fila (m : nat) (g : list float) : FilaMes :=
  mk_fila m (meses_nombres m)
          (round2 (mean g)) (round2 (median g))
          (round2 (minimum g)) (round2 (maximum g))
          (count g).

Definition analizar_por_mes (df : list Linea) : list FilaMes :=
  map (fun m => fila m (grupo df m)) (claves df).

(** The table computed with the plain sum. *)
Definition analizar_por_mes_llana (df : list Linea) : list FilaMes :=
  map (fun m => let g := grupo df m in
                mk_fila m (meses_nombres m)
                  (round2 (mean_llana g)) (round2 (median g))
                  (round2 (minimum g)) (round2 (maximum g)) (count g))
      (claves df).

(** Two rows agree but for the mean. *)
Definition igual_salvo_promedio (f f' : FilaMes) : Prop :=
  indice f = indice f' /\ Mes f = Mes f' /\ Mediana f = Mediana f'
  /\ Minimo f = Minimo f' /\ Maximo f = Maximo f'
  /\ Registros f = Registros f'.

(** The line has a price, a month, a month before [n]. *)
Definition con_precio (r : Linea) : bool := negb (is_nan (precio r)).

Definition con_mes (r : Linea) : bool :=
  match mes r with Some _ => true | None => false end.

Definition antes_de (n : nat) (r : Linea) : bool :=
  match mes r with
  | Some k => (k <? n)%nat
  | None => false
  end.

(** The number of lines of month [m] that have a price. *)
Definition cuenta (df : list Linea) (m : nat) : nat :=
  length (List.filter (fun r => con_precio r && del_mes m r) df).

(** The sum of whole numbers. *)
Definition total (ns : list N) : N := fold_right N.add 0%N ns.

(** The order of the floats; a NaN is in no order with anything. *)
Definition fle (x y : float) : Prop := SFleb x y = true.

Definition no_nan (x : float) : Prop := is_nan x = false.

(** The price is missing or a whole number of at most [B]. *)
Definition entero (B : N) (x : float) : Prop :=
  x = S754_nan \/ exists n, (n <= B)%N /\ x = of_N n.

(** No price is the negative zero. *)
Definition sin_cero_negativo (df : list Linea) : Prop :=
  Forall (fun r => precio r <> S754_zero true) df.

(** Every price is missing or a whole number of at most [B]. *)
Definition precios_enteros (B : N) (df : list Linea) : Prop :=
  Forall (fun r => entero B (precio r)) df.

(** Four prices of one month: 2.10, 2.21, 1.44 and 1.55. *)
Definition cuatro_precios : list Linea :=
  map (fun c => mk_linea (Some 3) (of_decimal c 2)) [210; 221; 144; 155]%N.

(** Whole-number prices, two lines of March in both orders. *)
Definition lineas : list Linea :=
  [mk_linea (Some 3) (of_N 150); mk_linea (Some 1) (of_N 90);
   mk_linea (Some 3) (of_N 175); mk_linea None (of_N 80);
   mk_linea (Some 3) S754_nan; mk_linea (Some 1) (of_N 95)].

Definition lineas_barajadas : list Linea :=
  [mk_linea (Some 3) (of_N 175); mk_linea (Some 1) (of_N 90);
   mk_linea (Some 3) S754_nan; mk_linea None (of_N 80);
   mk_linea (Some 3) (of_N 150); mk_linea (Some 1) (of_N 95)].

End Agregacion.

(* ===================================================================== *)
(** * utils.py *)
(* ===================================================================== *)

Module Utils.
Local Open Scope Qc_scope.

(** A row of the frame of [load_data].  [fecha] is a time stamp, the mean
    of the two dates; a missing value ([NaT], [NaN]) is [None], and every
    comparison with it is false. *)
Record Fila : Type := mk_fila {
  fecha : option Z;
  lugar : option string;
  categoria : option string;
  precio : option Qc
}.

(** The value of ['lugares'] or ['categorias']: a list, or one value that
    the filter wraps in a list. *)
Inductive valores : Type :=
| Uno (v : string)
| Varios (l : list string).

(** [query_dict]: a key that is absent is [None].  The dates are the time
    stamps that [pd.to_datetime] gives; a date that is falsy ([None], the
    empty text) filters nothing, as an absent one. *)
Record Consulta : Type := mk_consulta {
  fecha_inicio : option Z;
  fecha_fin : option Z;
  lugares : option valores;
  categorias : option valores;
  precio_min : option Qc;
  precio_max : option Qc
}.

(** [df[column >= v]] and [df[column <= v]] *)
Definition desde {A} (le : A -> A -> bool) (v : A) (x : option A) : bool :=
  match x with Some a => le v a | None => false end.

Definition hasta {A} (le : A -> A -> bool) (v : A) (x : option A) : bool :=
  match x with Some a => le a v | None => false end.

Definition filter_by_date (df : list Fila) (start_date end_date : option Z)
    : list Fila :=
  let df := match start_date with
            | Some d => List.filter (fun r => desde Z.leb d (fecha r)) df
            | None => df
            end in
  let df := match end_date with
            | Some d => List.filter (fun r => hasta Z.leb d (fecha r)) df
            | None => df
            end in
  df.

(** [if not isinstance(v, list): v = [v]] *)
Definition lista (v : valores) : list string :=
  match v with
  | Uno x => [x]
  | Varios l => l
  end.

(** [Series.isin] with a list of texts. *)
Definition isin (x : option string) (l : list string) : bool :=
  match x with
  | Some s => existsb (String.eqb s) l
  | None => false
  end.

Definition filter_by_lugar (df : list Fila) (lugares : valores) : list Fila :=
  let lugares := lista lugares in
  List.filter (fun r => isin (lugar r) lugares) df.

Definition filter_by_categoria (df : list Fila) (categorias : valores) : list Fila :=
  let categorias := lista categorias in
  List.filter (fun r => isin (categoria r) categorias) df.

Definition Qc_leb (x y : Qc) : bool := bool_decide (x <= y).

Definition query_data (df : list Fila) (query_dict : Consulta) : list Fila :=
  let result := df in
  let result := match fecha_inicio query_dict with
                | Some d => filter_by_date result (Some d) None
                | None => result
                end in
  let result := match fecha_fin query_dict with
                | Some d => filter_by_date result None (Some d)
                | None => result
                end in
  let result := match lugares query_dict with
                | Some v => filter_by_lugar result v
                | None => result
                end in
  let result := match categorias query_dict with
                | Some v => filter_by_categoria result v
                | None => result
                end in
  let result := match precio_min query_dict with
                | Some v => List.filter (fun r => desde Qc_leb v (precio r)) result
                | None => result
                end in
  let result := match precio_max query_dict with
                | Some v => List.filter (fun r => hasta Qc_leb v (precio r)) result
                | None => result
                end in
  result.

(** ** Vocabulary of the statements *)

(** The row meets every filter of the query. *)
Definition cumple (q : Consulta) (r : Fila) : Prop :=
  (forall d, fecha_inicio q = Some d -> exists f, fecha r = Some f /\ (d <= f)%Z)
  /\ (forall d, fecha_fin q = Some d -> exists f, fecha r = Some f /\ (f <= d)%Z)
  /\ (forall v, lugares q = Some v -> exists s, lugar r = Some s /\ In s (lista v))
  /\ (forall v, categorias q = Some v ->
                exists s, categoria r = Some s /\ In s (lista v))
  /\ (forall v, precio_min q = Some v -> exists p, precio r = Some p /\ v <= p)
  /\ (forall v, precio_max q = Some v -> exists p, precio r = Some p /\ p <= v).

(** The same as a test. *)
Definition acepta (q : Consulta) (r : Fila) : bool :=
  match fecha_inicio q with Some d => desde Z.leb d (fecha r) | None => true end
  && match fecha_fin q with Some d => hasta Z.leb d (fecha r) | None => true end
  && match lugares q with Some v => isin (lugar r) (lista v) | None => true end
  && match categorias q with Some v => isin (categoria r) (lista v) | None => true end
  && match precio_min q with Some v => desde Qc_leb v (precio r) | None => true end
  && match precio_max q with Some v => hasta Qc_leb v (precio r) | None => true end.

(** ** find_outliers *)

(** The value at the place [q] of the sorted values [s], between the two
    values next to it. *)
Definition interpolar (s : list Qc) (q : Qc) : Qc :=
  let pos := AnalisisEstacional.Qc_of_nat (length s - 1) * q in
  let lo := Z.to_nat (Qfloor pos) in
  let hi := Nat.min (S lo) (length s - 1) in
  let frac := pos - Qc_of_Z (Qfloor pos) in
  nth lo s 0 + (nth hi s 0 - nth lo s 0) * frac.

(** [Series.quantile(q)] with the linear interpolation, over the values
    that are not missing: [nan], here [None], when there is none. *)
Definition quantile (q : Qc) (l : list Qc) : option Qc :=
  match l with
  | [] => None
  | _ :: _ => Some (interpolar (AnalisisEstacional.ordenados l) q)
  end.

Definition Qc_ltb (x y : Qc) : bool := bool_decide (x < y).

(** [find_outliers(df, method='iqr', threshold)]; a comparison with a
    bound that is [nan] is false. *)
Definition find_outliers (df : list Fila) (threshold : Qc) : list Fila :=
  let precios := omap precio df in
  match quantile (Q2Qc (1 # 4)) precios, quantile (Q2Qc (3 # 4)) precios with
  | Some Q1, Some Q3 =>
      let IQR := Q3 - Q1 in
      let lower_bound := Q1 - threshold * IQR in
      let upper_bound := Q3 + threshold * IQR in
      List.filter
        (fun r => match precio r with
                  | Some p => Qc_ltb p lower_bound || Qc_ltb upper_bound p
                  | None => false
                  end)
        df
  | _, _ => []
  end.

End Utils.

(* ===================================================================== *)
(** * scraper.py *)
(* ===================================================================== *)

Module Scraper.
Import PyStr.

(** [x in l] on a list or a set of strings. *)
Definition mem (x : string) (l : list string) : bool :=
  existsb (String.eqb x) l.

(** ** get_page_content *)

Section GetPageContent.
(** The request of each attempt: the text of the page, or [None] when
    [session.get] or [raise_for_status] raises. *)
Variable session_get : nat -> option string.

(** The loop [for attempt in range(retries)] from [attempt] on, with
    [restantes] attempts left: the result, and the seconds slept in
    order. *)
Fixpoint intentos (retries attempt restantes : nat) : option string * list nat :=
  match restantes with
  | 0 => (None, [])
  | S k =>
      match session_get attempt with
      | Some text => (Some text, [])
      | None =>
          let '(r, esperas) := intentos retries (S attempt) k in
          (r, if attempt <? retries - 1 then 2 ^ attempt :: esperas else esperas)
      end
  end%nat.

Definition get_page_content (retries : nat) : option string * list nat :=
  intentos retries 0 retries.
End GetPageContent.

(** A site that answers at the third request. *)
Definition tercera_vez (attempt : nat) : option string :=
  if (attempt =? 2)%nat then Some "<html>" else None.

(** ** crawl_site *)

(** The site as the crawl sees it: the start page, [urlparse(u).netloc],
    the result of [self.get_page_content(url)] for the page asked for
    after [n] others, and the two extractors of links. *)
Record Sitio : Type := mk_sitio {
  base_url : string;
  netloc : string -> string;
  page_content : nat -> string -> option string;
  extract_pdf_links : string -> string -> list string;
  get_pagination_links : string -> string -> list string
}.

Section CrawlSite.
Variable self : Sitio.

(** The variables of the loop; [self.metadata] is left out. *)
Record Estado : Type := mk_estado {
  visited : list string;
  to_visit : list string;
  page_count : nat;
  pdf_links : list string
}.

(** [for page_link in pagination: ...] *)
Fixpoint seguir (visited to_visit pagination : list string) : list string :=
  match pagination with
  | [] => to_visit
  | page_link :: pagination' =>
      if negb (mem page_link visited) && negb (mem page_link to_visit)
      then if String.eqb (netloc self page_link) (netloc self (base_url self))
           then seguir visited (to_visit ++ [page_link])%list pagination'
           else seguir visited to_visit pagination'
      else seguir visited to_visit pagination'
  end.

(** The body of the loop for a [url] that was not visited, [st] being
    the state after [to_visit.pop(0)]. *)
Definition pagina (url : string) (st : Estado) : Estado :=
  let vistos := url :: visited st in
  let cuenta := S (page_count st) in
  match page_content self (page_count st) url with
  | Some html =>
      if String.eqb html ""
      then mk_estado vistos (to_visit st) cuenta (pdf_links st)
      else
        mk_estado vistos
                  (seguir vistos (to_visit st) (get_pagination_links self html url))
                  cuenta
                  (pdf_links st ++ extract_pdf_links self html url)%list
  | None => mk_estado vistos (to_visit st) cuenta (pdf_links st)
  end.

(** [to_visit.pop(0)] repeated over the URLs already visited
    ([continue]): the first URL to analyse and the rest of the queue. *)
Fixpoint sacar (visited to_visit : list string) : option (string * list string) :=
  match to_visit with
  | [] => None
  | url :: to_visit' =>
      if mem url visited then sacar visited to_visit'
      else Some (url, to_visit')
  end.

(** [while to_visit and page_count < max_pages], [restantes] being
    [max_pages - page_count]. *)
Fixpoint bucle (restantes : nat) (st : Estado) : Estado :=
  match restantes with
  | 0 => st
  | S k =>
      match sacar (visited st) (to_visit st) with
      | Some (url, to_visit') =>
          bucle k (pagina url (mk_estado (visited st) to_visit'
                                         (page_count st) (pdf_links st)))
      | None => mk_estado (visited st) [] (page_count st) (pdf_links st)
      end
  end.

(** [list(set(self.pdf_links))] keeps one copy of each link, in an order
    that Python does not fix; the first occurrences are kept here. *)
Definition crawl_site (max_pages : nat) (pdf_links0 : list string) : Estado :=
  let st := bucle max_pages (mk_estado [] [base_url self] 0 pdf_links0) in
  mk_estado (visited st) (to_visit st) (page_count st)
            (remove_dups (pdf_links st)).

(** The links that the page at place [post] of the crawl gave. *)
Definition enlaces_de (visited : list string) (p : string) : Prop :=
  exists pre url post html,
    visited = (pre ++ url :: post)%list
    /\ page_content self (length post) url = Some html
    /\ html <> ""
    /\ In p (extract_pdf_links self html url).

(** What the loop keeps true of its variables. *)
Definition invariante (pdf_links0 : list string) (st : Estado) : Prop :=
  NoDup (visited st)
  /\ NoDup (to_visit st)
  /\ (forall u, In u (to_visit st) -> ~ In u (visited st))
  /\ page_count st = length (visited st)
  /\ (forall u, In u (visited st) \/ In u (to_visit st) ->
                netloc self u = netloc self (base_url self))
  /\ (forall p, In p (pdf_links st)
                <-> In p pdf_links0 \/ enlaces_de (visited st) p).
End CrawlSite.

(** ** download_pdf *)

(** [os.path.basename]: what follows the last slash. *)
Fixpoint basename (path : string) : string :=
  match path with
  | EmptyString => EmptyString
  | String _ path' => if contains "/" path then basename path' else path
  end.

(** [s.endswith(suf)] *)
Definition ends_with (suf s : string) : bool :=
  (String.length suf <=? String.length s)%nat
  && String.eqb (substring (String.length s - String.length suf)
                           (String.length suf) s) suf.

(** The name under which [download_pdf] saves a link when the caller
    gives none; [path] is [urlparse(url).path] and [n] is
    [len(self.pdf_links)]. *)
Definition nombre_de_archivo (path : string) (n : nat) : string :=
  let filename := basename path in
  if String.eqb filename "" || negb (ends_with ".pdf" filename)
  then "documento_" ++ PdfExtractor.string_of_nat n ++ ".pdf"
  else filename.

(** ** download_all_pdfs *)

(** What becomes of a request for a file: [session.get],
    [raise_for_status] or [open] raises and nothing is written; the
    transfer raises after the file was opened; or the file is written to
    the end. *)
Inductive transferencia : Type :=
| NoEscribe
| Cortada
| Completa.

(** [os.path.join(a, b)] *)
Definition path_join (a b : string) : string :=
  if starts_with "/" b then b
  else if String.eqb a "" || ends_with "/" a then a ++ b
  else a ++ "/" ++ b.

Section DownloadAll.
Variable output_dir : string.
(** [urlparse(url).path]; [None] when [urlparse] raises. *)
Variable url_path : string -> option string.
(** The fate of the request made for the link number [i]. *)
Variable transferir : nat -> string -> transferencia.

(** [self.download_pdf(url)] for the link number [i], [n] being
    [len(self.pdf_links)] and [fs] the paths that exist: the result and
    the paths that exist afterwards. *)
Definition download_pdf (n i : nat) (url : string) (fs : list string)
    : option string * list string :=
  match url_path url with
  | Some path =>
      let filename := nombre_de_archivo path n in
      let filepath := path_join output_dir filename in
      if mem filepath fs then (Some filepath, fs)
      else
        match transferir i url with
        | NoEscribe => (None, fs)
        | Cortada => (None, filepath :: fs)
        | Completa => (Some filepath, filepath :: fs)
        end
  | None => (None, fs)
  end.

(** The loop of [download_all_pdfs] from the link number [i] on: the
    pairs of a link and its file, and the paths that exist afterwards. *)
Fixpoint descargar (n i : nat) (links : list string) (fs : list string)
    : list (string * string) * list string :=
  match links with
  | [] => ([], fs)
  | pdf_url :: links' =>
      let '(filepath, fs) := download_pdf n i pdf_url fs in
      let '(downloaded, fs) := descargar n (S i) links' fs in
      (match filepath with
       | Some f => (pdf_url, f) :: downloaded
       | None => downloaded
       end, fs)
  end.

(** [None] is the return without a value when there is no link. *)
Definition download_all_pdfs (pdf_links : list string) (fs : list string)
    : option (list (string * string)) * list string :=
  match pdf_links with
  | [] => (None, fs)
  | _ :: _ =>
      let '(downloaded, fs) := descargar (length pdf_links) 1 pdf_links fs in
      (Some downloaded, fs)
  end.

(** The path under which the link [url] is saved. *)
Definition ruta (n : nat) (url : string) : option string :=
  match url_path url with
  | Some path => Some (path_join output_dir (nombre_de_archivo path n))
  | None => None
  end.
End DownloadAll.

End Scraper.

(* ===================================================================== *)
(** * Properties of the floats *)
(* ===================================================================== *)

Module PyFloatFacts.
Import PyStr PyFloat.

Lemma iter_pos_invariant {A} (P : A -> Prop) (f : A -> A) :
  (forall x, P x -> P (f x)) ->
  forall n x, P x -> P (SpecFloat.iter_pos f n x).
Proof.
  intros Hf n. induction n as [n IH | n IH |]; intros x Hx; simpl; auto.
Qed.

Lemma shr_1_nonneg r : (0 <= shr_m r)%Z -> (0 <= shr_m (shr_1 r))%Z.
Proof.
  destruct r as [m r s]. simpl.
  destruct m as [| p | p]; [| destruct p | intros H; lia]; simpl; lia.
Qed.

Lemma shr_nonneg r e n : (0 <= shr_m r)%Z -> (0 <= shr_m (fst (shr r e n)))%Z.
Proof.
  intros H. destruct n as [| p | p]; simpl; auto.
  apply (iter_pos_invariant (fun r => (0 <= shr_m r)%Z)); auto using shr_1_nonneg.
Qed.

Lemma shr_record_of_loc_m m l : shr_m (shr_record_of_loc m l) = m.
Proof. destruct l as [| []]; reflexivity. Qed.

Lemma shr_fexp_nonneg m e l :
  (0 <= m)%Z -> (0 <= shr_m (fst (shr_fexp prec emax m e l)))%Z.
Proof.
  intros H. unfold shr_fexp. apply shr_nonneg.
  now rewrite shr_record_of_loc_m.
Qed.

Lemma round_nearest_even_nonneg m l :
  (0 <= m)%Z -> (0 <= round_nearest_even m l)%Z.
Proof.
  intros H. destruct l as [| []]; simpl; try lia.
  destruct (Z.even m); lia.
Qed.

(** Rounding a magnitude with the sign bit clear never gives a negative
    float nor a NaN. *)
Lemma binary_round_aux_nonneg m e l :
  (0 <= m)%Z -> is_nonneg (binary_round_aux prec emax false m e l) = true.
Proof.
  intros H. unfold binary_round_aux.
  pose proof (shr_fexp_nonneg m e l H) as H1.
  destruct (shr_fexp prec emax m e l) as [mrs' e'] eqn:E1. simpl in H1.
  pose proof (shr_fexp_nonneg _ e' loc_Exact
                (round_nearest_even_nonneg _ (loc_of_shr_record mrs') H1)) as H2.
  destruct (shr_fexp prec emax _ e' loc_Exact) as [mrs'' e''] eqn:E2.
  simpl in H2.
  destruct (shr_m mrs'') as [| p | p]; simpl; auto; try lia.
  destruct (e'' <=? emax - prec)%Z; reflexivity.
Qed.

Lemma of_N_nonneg n : is_nonneg (of_N n) = true.
Proof.
  unfold of_N, binary_normalize. destruct n as [| p]; simpl; auto.
  unfold binary_round.
  destruct (shl_align _ _ _) as [mz ez].
  apply binary_round_aux_nonneg. lia.
Qed.

Lemma of_decimal_nonneg m k : is_nonneg (of_decimal m k) = true.
Proof.
  unfold of_decimal. destruct m as [| p]; auto.
  unfold SFdiv_core_binary.
  set (d := Z.min _ _). set (m' := match (0 - 0 - d)%Z with Z0 => _ | _ => _ end).
  assert (Hm' : (0 <= m')%Z).
  { unfold m'. destruct (0 - 0 - d)%Z; try lia. apply Z.shiftl_nonneg. lia. }
  assert (Hq : (0 <= fst (Z.div_eucl m' (10 ^ Z.of_nat k)))%Z).
  { change (0 <= m' / 10 ^ Z.of_nat k)%Z. apply Z.div_pos; lia. }
  destruct (Z.div_eucl m' (10 ^ Z.of_nat k)) as [q r]. simpl in Hq.
  now apply binary_round_aux_nonneg.
Qed.

(** [float(text)] never is negative. *)
Lemma of_text_nonneg t v : of_text t = Some v -> is_nonneg v = true.
Proof.
  unfold of_text. destruct (split_dot t) as [i [f |]].
  - destruct (_ && _); [| discriminate]. intros [= <-]. apply of_decimal_nonneg.
  - destruct (_ && _); [| discriminate]. intros [= <-]. apply of_N_nonneg.
Qed.

(** A float that is not below zero and not a zero is above zero. *)
Lemma nonneg_truthy_positive v :
  is_nonneg v = true -> truthy v = true -> is_positive v = true.
Proof. destruct v as [| [] | | [] ? ?]; simpl; congruence. Qed.

Local Open Scope Z_scope.

Lemma digits2_size p : digits2_pos p = Pos.size p.
Proof. induction p; simpl; congruence. Qed.

Lemma digits2_bounds p :
  2 ^ (Zpos (digits2_pos p) - 1) <= Zpos p < 2 ^ Zpos (digits2_pos p).
Proof.
  rewrite digits2_size. split.
  - pose proof (Pos.size_le p) as H.
    assert (H' : 2 ^ Zpos (Pos.size p) <= 2 * Zpos p).
    { rewrite <- Pos2Z.inj_pow. change (2 * Zpos p) with (Zpos p~0). lia. }
    replace (Zpos (Pos.size p)) with (Zpos (Pos.size p) - 1 + 1) in H' by lia.
    rewrite Z.pow_add_r in H' by lia. lia.
  - pose proof (Pos.size_gt p) as H. rewrite <- Pos2Z.inj_pow. lia.
Qed.

(** The number of digits is fixed by the power of two below and above. *)
Lemma digits2_unique p k :
  2 ^ (k - 1) <= Zpos p < 2 ^ k -> Zpos (digits2_pos p) = k.
Proof.
  intros [H1 H2]. destruct (digits2_bounds p) as [B1 B2].
  assert (0 < k).
  { destruct (Z.ltb_spec 0 k); auto.
    assert (2 ^ k <= 2 ^ 0) by (apply Z.pow_le_mono_r; lia). simpl in *. lia. }
  assert (~ Zpos (digits2_pos p) < k).
  { intros Hlt.
    assert (2 ^ Zpos (digits2_pos p) <= 2 ^ (k - 1)) by (apply Z.pow_le_mono_r; lia).
    lia. }
  assert (~ k < Zpos (digits2_pos p)).
  { intros Hlt.
    assert (2 ^ k <= 2 ^ (Zpos (digits2_pos p) - 1)) by (apply Z.pow_le_mono_r; lia).
    lia. }
  lia.
Qed.

Lemma shr_1_div2 r : 0 <= shr_m r -> shr_m (shr_1 r) = shr_m r / 2.
Proof.
  destruct r as [m r s]. simpl. intros H.
  destruct m as [| p | p]; [reflexivity | | lia].
  destruct p as [p | p |]; simpl.
  - rewrite Pos2Z.inj_xI. apply Z.div_unique with 1; lia.
  - rewrite Pos2Z.inj_xO. apply Z.div_unique with 0; lia.
  - reflexivity.
Qed.

Lemma iter_shr_1 p : forall r, 0 <= shr_m r ->
  shr_m (SpecFloat.iter_pos shr_1 p r) = shr_m r / 2 ^ Zpos p.
Proof.
  induction p as [p IH | p IH |]; intros r Hr; cbn [SpecFloat.iter_pos].
  - assert (H1 : 0 <= shr_m (shr_1 r)) by now apply shr_1_nonneg.
    assert (H2 : 0 <= shr_m (SpecFloat.iter_pos shr_1 p (shr_1 r))).
    { rewrite IH by assumption. apply Z.div_pos; lia. }
    rewrite IH, IH, shr_1_div2 by assumption.
    rewrite !Z.div_div by lia. f_equal.
    rewrite Pos2Z.inj_xI. rewrite <- !Z.pow_add_r, <- Z.pow_succ_r by lia. f_equal. lia.
  - assert (H2 : 0 <= shr_m (SpecFloat.iter_pos shr_1 p r)).
    { rewrite IH by assumption. apply Z.div_pos; lia. }
    rewrite IH, IH by assumption.
    rewrite !Z.div_div by lia. f_equal.
    rewrite Pos2Z.inj_xO. rewrite <- !Z.pow_add_r by lia. f_equal. lia.
  - now rewrite shr_1_div2.
Qed.

Lemma shr_value r e n : 0 <= shr_m r -> 0 <= n ->
  shr_m (fst (shr r e n)) = shr_m r / 2 ^ n /\ snd (shr r e n) = e + n.
Proof.
  intros Hr Hn. destruct n as [| p | p]; [| | lia]; simpl.
  - rewrite Z.div_1_r. split; [reflexivity | lia].
  - split; [now apply iter_shr_1 | reflexivity].
Qed.

Lemma round_nearest_even_bounds m l :
  m <= round_nearest_even m l <= m + 1.
Proof.
  destruct l as [| []]; simpl; try lia. destruct (Z.even m); lia.
Qed.

Lemma fexp_normal x : -1074 <= x - 53 -> fexp prec emax x = x - 53.
Proof. unfold fexp, emin, prec, emax. lia. Qed.

(** In the normal range the shift drops all but 53 digits. *)
Lemma shr_fexp_normal p e l :
  53 <= Zpos (digits2_pos p) -> -1074 <= Zpos (digits2_pos p) + e - 53 ->
  shr_m (fst (shr_fexp prec emax (Zpos p) e l))
    = Zpos p / 2 ^ (Zpos (digits2_pos p) - 53)
  /\ snd (shr_fexp prec emax (Zpos p) e l) = e + (Zpos (digits2_pos p) - 53).
Proof.
  intros Hd He. unfold shr_fexp. cbn [Zdigits2].
  rewrite fexp_normal by assumption.
  replace (Zpos (digits2_pos p) + e - 53 - e) with (Zpos (digits2_pos p) - 53) by lia.
  pose proof (shr_value (shr_record_of_loc (Zpos p) l) e (Zpos (digits2_pos p) - 53)) as H.
  rewrite shr_record_of_loc_m in H. apply H; lia.
Qed.

Lemma top_digits p :
  53 <= Zpos (digits2_pos p) ->
  2 ^ 52 <= Zpos p / 2 ^ (Zpos (digits2_pos p) - 53) < 2 ^ 53.
Proof.
  intros Hd. destruct (digits2_bounds p) as [B1 B2].
  set (d := Zpos (digits2_pos p)) in *.
  assert (Hpow : 0 < 2 ^ (d - 53)) by (apply Z.pow_pos_nonneg; lia).
  split.
  - apply Z.div_le_lower_bound; [assumption |].
    rewrite <- Z.pow_add_r by lia.
    replace (d - 53 + 52) with (d - 1) by lia. assumption.
  - apply Z.div_lt_upper_bound; [assumption |].
    rewrite <- Z.pow_add_r by lia.
    replace (d - 53 + 53) with d by lia. assumption.
Qed.

(** A magnitude of at least 53 digits, in the normal range and below the
    largest binade, rounds to a finite float. *)
Lemma binary_round_aux_finite p e l :
  53 <= Zpos (digits2_pos p) ->
  -1074 <= Zpos (digits2_pos p) + e - 53 ->
  Zpos (digits2_pos p) + e <= 1023 ->
  is_finite (binary_round_aux prec emax false (Zpos p) e l) = true.
Proof.
  intros Hd Hlo Hhi. unfold binary_round_aux.
  destruct (shr_fexp_normal p e l Hd Hlo) as [Hm1 He1].
  pose proof (top_digits p Hd) as Ht.
  destruct (shr_fexp prec emax (Zpos p) e l) as [mrs' e'].
  cbn [fst snd] in Hm1, He1.
  pose proof (round_nearest_even_bounds (shr_m mrs') (loc_of_shr_record mrs')) as Hr.
  rewrite <- Hm1 in Ht.
  destruct (round_nearest_even (shr_m mrs') (loc_of_shr_record mrs'))
    as [| q | q]; try lia.
  assert (Hq : Zpos (digits2_pos q) = 53 \/ Zpos (digits2_pos q) = 54).
  { destruct (Z.ltb_spec (Zpos q) (2 ^ 53)).
    - left. apply digits2_unique. change (53 - 1) with 52. lia.
    - right. apply digits2_unique. change (54 - 1) with 53.
      assert (2 ^ 53 < 2 ^ 54) by reflexivity. lia. }
  assert (Hd2 : 53 <= Zpos (digits2_pos q)) by lia.
  assert (Hlo2 : -1074 <= Zpos (digits2_pos q) + e' - 53) by lia.
  destruct (shr_fexp_normal q e' loc_Exact Hd2 Hlo2) as [Hm3 He3].
  pose proof (top_digits q Hd2) as Ht3.
  destruct (shr_fexp prec emax (Zpos q) e' loc_Exact) as [mrs'' e''].
  cbn [fst snd] in Hm3, He3. rewrite Hm3.
  destruct (Zpos q / 2 ^ (Zpos (digits2_pos q) - 53)) as [| q3 | q3] eqn:E3;
    [lia | | lia].
  replace (e'' <=? emax - prec) with true; [reflexivity |].
  symmetry. apply Z.leb_le. unfold emax, prec. lia.
Qed.

Lemma digits2_iter_xO k : forall p,
  Zpos (digits2_pos (Pos.iter xO p k)) = Zpos (digits2_pos p) + Zpos k.
Proof.
  induction k as [| k IH] using Pos.peano_ind; intros p.
  - cbn. lia.
  - rewrite Pos.iter_succ. cbn [digits2_pos]. rewrite Pos2Z.inj_succ, IH. lia.
Qed.

(** Natural numbers below [2^1023] have a finite nearest float. *)
Lemma of_N_finite n : (n < 2 ^ 1023)%N -> is_finite (of_N n) = true.
Proof.
  intros Hn. unfold of_N, binary_normalize. destruct n as [| p]; [reflexivity |].
  cbn [Z.of_N]. unfold binary_round.
  assert (Hp : Zpos p < 2 ^ 1023).
  { change (Zpos p) with (Z.of_N (Npos p)).
    change (2 ^ 1023) with (Z.of_N (2 ^ 1023)). lia. }
  destruct (digits2_bounds p) as [B1 B2].
  assert (Hd : Zpos (digits2_pos p) <= 1023).
  { destruct (Z.leb_spec (Zpos (digits2_pos p)) 1023); auto.
    assert (2 ^ 1023 <= 2 ^ (Zpos (digits2_pos p) - 1)) by (apply Z.pow_le_mono_r; lia).
    lia. }
  rewrite Z.add_0_r, fexp_normal by lia.
  unfold shl_align.
  destruct (Zpos (digits2_pos p) - 53 - 0) as [| k | k] eqn:Ek.
  - apply binary_round_aux_finite; lia.
  - apply binary_round_aux_finite; lia.
  - apply binary_round_aux_finite; rewrite digits2_iter_xO; lia.
Qed.

End PyFloatFacts.

(* ===================================================================== *)
(** * Properties of pdf_extractor.py *)
(* ===================================================================== *)

Module PdfExtractorFacts.
Import PyStr Re PyFloat PyFloatFacts PdfExtractor.

(** ** The price cleaner *)

(** Whatever [clean_price] returns was produced by [float] from some
    text. *)
Lemma clean_price_of_text c v :
  clean_price c = Some v -> exists t, of_text t = Some v.
Proof.
  unfold clean_price. destruct c as [[| a s] |]; try discriminate.
  destruct (search number_re _) as [m |]; [| discriminate].
  destruct (group 1 m) as [t |]; [| discriminate].
  intros H. now exists t.
Qed.

(** C1.  On the cell [B/.1,234.56] the cleaner does not return 1234.56:
    the class [[B/.\s,]] removes the decimal point together with the
    currency marker, the digits that remain are [123456], and the result
    is the float 123456.0, which is not [float("1234.56")]. *)
Theorem clean_price_drops_decimal_point :
  clean_price (Some "B/.1,234.56") = Some (of_N 123456)
  /\ to_Q (of_N 123456) = Some (123456 # 1)%Q
  /\ sub_class currency_class "B/.1,234.56" = "123456"
  /\ clean_price (Some "B/.1,234.56") <> of_text "1234.56".
Proof.
  repeat split; try (vm_compute; reflexivity).
  vm_compute. discriminate.
Qed.

(** C10.  The cleaner never returns a negative value: any float it
    returns is a zero, a positive finite float or plus infinity; and the
    cell [-150] is cleaned to the positive 150.0.  The substitution leaves
    the sign in the text; the search for a run of digits skips it. *)
Theorem clean_price_never_negative (c : cell) (v : float) :
  clean_price c = Some v ->
  is_nonneg v = true
  /\ sub_class currency_class "-150" = "-150"
  /\ clean_price (Some "-150") = Some (of_N 150)
  /\ is_positive (of_N 150) = true
  /\ to_Q (of_N 150) = Some (150 # 1)%Q.
Proof.
  intros H. split; [| repeat split; vm_compute; reflexivity].
  destruct (clean_price_of_text c v H) as [t Ht].
  eapply of_text_nonneg; eauto.
Qed.

Lemma clean_price_never_negative_witness :
  clean_price (Some "-150") = Some (of_N 150)
  /\ is_nonneg (of_N 150) = true.
Proof.
  assert (H : clean_price (Some "-150") = Some (of_N 150))
    by (vm_compute; reflexivity).
  split; [exact H |].
  apply (clean_price_never_negative (Some "-150") (of_N 150) H).
Defined.

(** ** The classifier and the normalisers on the tables of the
    specification *)

(** C2.  The table with the header [Lugar], [Precio Novillo] is
    classified by_location and its row [Divisa], [150.00] gives one
    record with lugar [Divisa] and categoria [Precio Novillo]; but its
    precio is 15000.0, not 150.0: the cleaner removed the decimal point
    of the cell. *)
Theorem por_lugar_row_price_without_point (filename : string)
    (dates : option datetime * option datetime) :
  option_map identify_table_type (make_df tabla_lugar) = Some PorLugar
  /\ run_table filename dates tabla_lugar
     = Some [mk_record (fst dates) (snd dates) "Divisa" "Precio Novillo"
                       (of_N 15000) filename PorLugar]
  /\ to_Q (of_N 15000) = Some (15000 # 1)%Q
  /\ of_N 15000 <> of_N 150.
Proof.
  repeat split; try (vm_compute; reflexivity).
  vm_compute. discriminate.
Qed.

(** C5.  The table with the header [Categoría], [Mercado A],
    [Mercado B] and the row [Ternera], [100], [110] is classified
    generic and normalised to exactly two records: Ternera at Mercado A
    for 100.0 and Ternera at Mercado B for 110.0. *)
Theorem end_to_end_general_table (filename : string)
    (dates : option datetime * option datetime) :
  option_map identify_table_type (make_df tabla_general) = Some General
  /\ run_table filename dates tabla_general
     = Some [mk_record (fst dates) (snd dates) "Mercado A" "Ternera"
                       (of_N 100) filename General;
             mk_record (fst dates) (snd dates) "Mercado B" "Ternera"
                       (of_N 110) filename General]
  /\ to_Q (of_N 100) = Some (100 # 1)%Q
  /\ to_Q (of_N 110) = Some (110 # 1)%Q.
Proof. repeat split; vm_compute; reflexivity. Qed.

(** ** Substring tests *)

Lemma strip_prefix_spec p : forall s r, strip_prefix p s = Some r <-> s = p ++ r.
Proof.
  induction p as [| a p IH]; intros s r; simpl.
  - split; [intros [= ->] | intros ->]; reflexivity.
  - destruct s as [| b s]; [split; discriminate |].
    destruct (Ascii.eqb_spec a b) as [-> | Hab].
    + rewrite IH. split; [intros -> | intros [= ->]]; reflexivity.
    + split; [discriminate | intros [= E _]; congruence].
Qed.

Lemma starts_with_spec p s : starts_with p s = true <-> exists r, s = p ++ r.
Proof.
  unfold starts_with. destruct (strip_prefix p s) as [r |] eqn:E.
  - apply strip_prefix_spec in E. split; eauto.
  - split; [discriminate |]. intros [r Hr].
    apply strip_prefix_spec in Hr. congruence.
Qed.

Lemma contains_spec kw s : contains kw s = true <-> substring_of kw s.
Proof.
  unfold substring_of. induction s as [| c s IH]; simpl.
  - rewrite orb_false_r, starts_with_spec. split.
    + intros [r Hr]. now exists "", r.
    + intros [pre [post H]]. destruct pre; [now exists post | discriminate].
  - rewrite orb_true_iff, starts_with_spec, IH. split.
    + intros [[r Hr] | [pre [post H]]].
      * now exists "", r.
      * exists (String c pre), post. simpl. now rewrite H.
    + intros [pre [post H]]. destruct pre as [| a pre].
      * left. now exists post.
      * right. exists pre, post. simpl in H. now injection H.
Qed.

Lemma starts_with_before_space kw : no_space kw = true ->
  forall x b, starts_with kw (x ++ String " " b) = starts_with kw x.
Proof.
  unfold starts_with.
  induction kw as [| k kw IH]; intros Hk x b; [reflexivity |].
  simpl in Hk. apply andb_true_iff in Hk as [Hk1 Hk2].
  destruct x as [| c x]; simpl.
  - destruct (Ascii.eqb k " "); [discriminate | reflexivity].
  - destruct (Ascii.eqb k c); [apply IH; assumption | reflexivity].
Qed.

Lemma contains_empty kw : plain_keyword kw = true -> contains kw "" = false.
Proof. destruct kw; [discriminate | reflexivity]. Qed.

(** A keyword without a blank lies on one side of a blank. *)
Lemma contains_app_space kw x b : plain_keyword kw = true ->
  contains kw (x ++ String " " b) = contains kw x || contains kw b.
Proof.
  intros Hkw. pose proof Hkw as Hkw'.
  apply andb_true_iff in Hkw' as [Hne Hns].
  induction x as [| c x IH].
  - rewrite contains_empty by assumption. simpl.
    destruct kw as [| k kw]; [discriminate |].
    simpl in Hns. unfold starts_with at 1. simpl.
    destruct (Ascii.eqb k " "); [discriminate | reflexivity].
  - change (contains kw (String c x ++ String " " b))
      with (starts_with kw (String c x ++ String " " b)
            || contains kw (x ++ String " " b)).
    rewrite (starts_with_before_space kw Hns (String c x) b), IH.
    simpl. now rewrite orb_assoc.
Qed.

Lemma contains_join kw (l : list string) : plain_keyword kw = true ->
  contains kw (join " " l) = existsb (contains kw) l.
Proof.
  intros Hkw. induction l as [| x l IH].
  - now apply contains_empty.
  - destruct l as [| y l].
    + simpl. now rewrite orb_false_r.
    + change (join " " (x :: y :: l)) with (x ++ String " " (join " " (y :: l))).
      rewrite contains_app_space, IH by assumption. reflexivity.
Qed.

(** The test on the joined text is the test on the texts one by one. *)
Lemma any_in_join_spec kws (l : list string) :
  forallb plain_keyword kws = true ->
  any_in kws (join " " l) = true <-> mentions kws l.
Proof.
  intros Hk. unfold any_in, mentions. rewrite existsb_exists. split.
  - intros [kw [Hin H]].
    rewrite forallb_forall in Hk.
    rewrite contains_join in H by auto.
    apply existsb_exists in H as [t [Ht H]].
    exists kw, t. repeat split; auto. now apply contains_spec.
  - intros [kw [t [Hin [Ht H]]]]. exists kw. split; auto.
    rewrite forallb_forall in Hk.
    rewrite contains_join by auto.
    apply existsb_exists. exists t. split; auto. now apply contains_spec.
Qed.

(** ** The classifier *)

(** C4.  An empty table (no row, or no column) is classified with the
    label unknown, a fourth label; an entry so labelled is normalised by
    the generic strategy, which gives no record when there is no row. *)
Theorem empty_table_is_unknown (df : DataFrame) :
  df_empty df = true ->
  identify_table_type df = Unknown
  /\ (forall item : Item,
        table_type_of item = identify_table_type df -> data item = df ->
        normalize_item item = _normalize_general item df)
  /\ (rows df = [] -> forall item : Item, _normalize_general item df = Some []).
Proof.
  intros He. unfold identify_table_type. rewrite He. repeat split.
  - intros item Ht Hd. unfold normalize_item. now rewrite Ht, Hd.
  - intros Hr item. unfold _normalize_general. now rewrite Hr.
Qed.

Lemma empty_table_is_unknown_witness :
  df_empty (mk_df ["Lugar"; "Precio"] []) = true
  /\ identify_table_type (mk_df ["Lugar"; "Precio"] []) = Unknown.
Proof.
  split; [reflexivity |].
  apply (empty_table_is_unknown (mk_df ["Lugar"; "Precio"] [])). reflexivity.
Defined.

(** C4, as stated, fails: a table whose only data row is blank is an
    empty frame, and it is not labelled generic. *)
Lemma empty_table_not_general :
  make_df [[Some "Lugar"; Some "Precio"]; [None; None]]
  = Some (mk_df ["Lugar"; "Precio"] [])
  /\ df_empty (mk_df ["Lugar"; "Precio"] []) = true
  /\ identify_table_type (mk_df ["Lugar"; "Precio"] []) <> General.
Proof.
  split; [vm_compute; reflexivity |].
  split; [reflexivity | vm_compute; discriminate].
Qed.

Lemma classifier_flags (df : DataFrame) :
  (any_in keywords_lugar (join " " (classifier_texts df)) = true
     <-> mentions keywords_lugar (classifier_texts df))
  /\ (any_in keywords_categoria (join " " (classifier_texts df)) = true
     <-> mentions keywords_categoria (classifier_texts df))
  /\ (any_in keywords_precio (join " " (header_texts df)) = true
     <-> mentions keywords_precio (header_texts df)).
Proof. repeat split; apply any_in_join_spec; reflexivity. Qed.

(** C3.  For a table that is not empty: the label is by_location exactly
    when a location keyword occurs in a header or in the first cell of
    the first row and a price keyword occurs in a header; it is
    by_category exactly when that fails, a category keyword occurs in a
    header or in that first cell, and a price keyword occurs in a
    header; it is generic in every other case.  The price keywords are
    looked for in the headers only. *)
Theorem identify_table_type_by_keywords (df : DataFrame) :
  df_empty df = false ->
  let loc := mentions keywords_lugar (classifier_texts df) in
  let cat := mentions keywords_categoria (classifier_texts df) in
  let pri := mentions keywords_precio (header_texts df) in
  (identify_table_type df = PorLugar <-> loc /\ pri)
  /\ (identify_table_type df = PorCategoria <-> ~ loc /\ cat /\ pri)
  /\ (identify_table_type df = General <-> ~ pri \/ (~ loc /\ ~ cat)).
Proof.
  intros He loc cat pri.
  destruct (classifier_flags df) as [Hl [Hc Hp]].
  fold loc in Hl. fold cat in Hc. fold pri in Hp.
  unfold identify_table_type. rewrite He.
  fold (header_texts df). fold (classifier_texts df).
  assert (Hl' : if any_in keywords_lugar (join " " (classifier_texts df))
                then loc else ~ loc).
  { destruct (any_in keywords_lugar _); [now apply Hl |].
    intros H. apply Hl in H. discriminate. }
  assert (Hc' : if any_in keywords_categoria (join " " (classifier_texts df))
                then cat else ~ cat).
  { destruct (any_in keywords_categoria _); [now apply Hc |].
    intros H. apply Hc in H. discriminate. }
  assert (Hp' : if any_in keywords_precio (join " " (header_texts df))
                then pri else ~ pri).
  { destruct (any_in keywords_precio _); [now apply Hp |].
    intros H. apply Hp in H. discriminate. }
  clear Hl Hc Hp.
  destruct (any_in keywords_lugar _), (any_in keywords_categoria _),
    (any_in keywords_precio _); simpl; intuition congruence.
Qed.

Lemma identify_table_type_by_keywords_witness :
  df_empty (mk_df ["Lugar"; "Precio Novillo"] [[Some "Divisa"; Some "150.00"]]) = false
  /\ (identify_table_type
        (mk_df ["Lugar"; "Precio Novillo"] [[Some "Divisa"; Some "150.00"]])
      = PorLugar
      <-> mentions keywords_lugar
            (classifier_texts
               (mk_df ["Lugar"; "Precio Novillo"] [[Some "Divisa"; Some "150.00"]]))
          /\ mentions keywords_precio
               (header_texts
                  (mk_df ["Lugar"; "Precio Novillo"] [[Some "Divisa"; Some "150.00"]]))).
Proof.
  split; [reflexivity |].
  apply (identify_table_type_by_keywords
           (mk_df ["Lugar"; "Precio Novillo"] [[Some "Divisa"; Some "150.00"]])).
  reflexivity.
Defined.

(** C3, as stated, fails: with a location keyword in a header and the
    only price keyword in the first data cell, the label is generic, not
    by_location. *)
Lemma price_keyword_in_first_cell_not_enough :
  let df := mk_df ["Lugar"; "Novillo"] [[Some "Precio"; Some "150"]] in
  df_empty df = false
  /\ mentions keywords_lugar (classifier_texts df)
  /\ mentions keywords_precio (classifier_texts df)
  /\ identify_table_type df = General
  /\ identify_table_type df <> PorLugar.
Proof.
  cbv zeta. repeat split; try (vm_compute; reflexivity); try discriminate.
  - exists "lugar", "lugar". repeat split; [now left | now left |].
    now exists "", "".
  - exists "precio", "precio". repeat split; [now left | | now exists "", ""].
    vm_compute. right. right. now left.
Qed.

(** ** The date resolver *)

Section Paths.
Context {R : Type}.
Implicit Types (k : string -> caps -> option R) (x : R).

Lemma rmatch_lit t s s' cs k x :
  strip_prefix t s = Some s' -> k s' cs = Some x -> rmatch (Lit t) s cs k = Some x.
Proof. intros H1 H2. simpl. now rewrite H1. Qed.

Lemma rmatch_seq r1 r2 s cs k x :
  rmatch r1 s cs (fun s' cs' => rmatch r2 s' cs' k) = Some x ->
  rmatch (Seq r1 r2) s cs k = Some x.
Proof. intros H. exact H. Qed.

Lemma rmatch_dash s cs k x :
  k s cs = Some x -> rmatch (Lit "-") (String "-" s) cs k = Some x.
Proof. intros H. exact H. Qed.

Lemma rmatch_opt_taken r s cs k x :
  rmatch r s cs k = Some x -> rmatch (Opt r) s cs k = Some x.
Proof. intros H. simpl. now rewrite H. Qed.

Lemma rmatch_alt_first r1 r2 s cs k x :
  rmatch r1 s cs k = Some x -> rmatch (Alt r1 r2) s cs k = Some x.
Proof. intros H. simpl. now rewrite H. Qed.

Lemma digit_not_space c : is_digit c = true -> is_space c = false.
Proof.
  unfold is_digit, is_space. intros H.
  apply andb_true_iff in H as [H1 H2].
  apply N.leb_le in H1, H2.
  apply orb_false_iff. split; apply andb_false_iff.
  - right. apply N.leb_gt. lia.
  - right. apply N.leb_gt. lia.
Qed.

Lemma digit_not_dash c : is_digit c = true -> Ascii.eqb c "-" = false.
Proof.
  intros H. destruct (Ascii.eqb_spec c "-") as [-> |]; [discriminate | reflexivity].
Qed.

Lemma in_class_digit c : in_class [CDigit] c = is_digit c.
Proof. apply orb_false_r. Qed.

Lemma in_class_space c : in_class [CSpace] c = is_space c.
Proof. apply orb_false_r. Qed.

Section Rep.
Context {T : Type}.
Implicit Types (cont : string -> option T).

Lemma rep_greedy_stop kc lo hi c s cont :
  in_class kc c = false ->
  rep_greedy kc lo hi (String c s) cont
  = if Nat.eqb lo 0 then cont (String c s) else None.
Proof. intros H. cbn [rep_greedy]. now rewrite H. Qed.

Lemma rep_greedy_end kc lo hi cont :
  rep_greedy kc lo hi EmptyString cont
  = if Nat.eqb lo 0 then cont EmptyString else None.
Proof. reflexivity. Qed.

Lemma rep_greedy_full kc lo s cont :
  rep_greedy kc lo (Some 0) s cont = if Nat.eqb lo 0 then cont s else None.
Proof. destruct s; cbn [rep_greedy hi_open]; now rewrite ?andb_false_r. Qed.

Lemma rep_greedy_step kc lo hi c s cont y :
  in_class kc c = true -> hi_open hi = true ->
  rep_greedy kc (pred lo) (hi_pred hi) s cont = Some y ->
  rep_greedy kc lo hi (String c s) cont = Some y.
Proof. intros H1 H2 H3. cbn [rep_greedy]. now rewrite H1, H2, H3. Qed.
End Rep.

(** No blank ahead: [\s*] takes nothing. *)
Lemma spaces_none c s cs k x :
  is_space c = false -> k (String c s) cs = Some x ->
  rmatch spaces (String c s) cs k = Some x.
Proof.
  intros Hc H. unfold spaces. cbn [rmatch].
  rewrite rep_greedy_stop by now rewrite in_class_space.
  exact H.
Qed.

(** One blank ahead: [\s*] takes it. *)
Lemma spaces_one c s cs k x :
  is_space c = false -> k (String c s) cs = Some x ->
  rmatch spaces (String " " (String c s)) cs k = Some x.
Proof.
  intros Hc H. unfold spaces. cbn [rmatch].
  apply rep_greedy_step; [reflexivity | reflexivity |].
  rewrite rep_greedy_stop by now rewrite in_class_space.
  exact H.
Qed.

Lemma append_cons c (p s : string) : String c p ++ s = String c (p ++ s).
Proof. reflexivity. Qed.

Lemma length_app (p s : string) :
  String.length (p ++ s) = String.length p + String.length s.
Proof.
  induction p as [| c p IH]; [reflexivity |].
  rewrite append_cons. cbn [String.length]. now rewrite IH.
Qed.

Lemma substring_prefix (p s : string) :
  substring 0 (String.length p) (p ++ s) = p.
Proof.
  induction p as [| c p IH].
  - change ("" ++ s) with s. now destruct s.
  - rewrite append_cons. cbn [String.length substring]. now rewrite IH.
Qed.

(** The text between a string and its suffix is the prefix. *)
Lemma taken_app (p s : string) : taken (p ++ s) s = p.
Proof.
  unfold taken. rewrite length_app.
  replace (String.length p + String.length s - String.length s)
    with (String.length p) by lia.
  apply substring_prefix.
Qed.

Lemma taken_two a b s : taken (String a (String b s)) s = two a b.
Proof. apply (taken_app (two a b) s). Qed.

(** [(\d{1,2})] on two digits that a dash follows. *)
Lemma group_two_digits i a b s cs k x :
  is_digit a = true -> is_digit b = true ->
  k (String "-" s) ((i, two a b) :: cs) = Some x ->
  rmatch (Group i (digits 1 2)) (String a (String b (String "-" s))) cs k = Some x.
Proof.
  intros Ha Hb H. unfold digits. cbn [rmatch].
  apply rep_greedy_step; [now rewrite in_class_digit | reflexivity |].
  apply rep_greedy_step; [now rewrite in_class_digit | reflexivity |].
  cbn [pred hi_pred]. rewrite rep_greedy_full. cbn [Nat.eqb].
  now rewrite taken_two.
Qed.

(** [(\d{2,4})] on two digits that no digit follows. *)
Lemma group_year_digits i a b s cs k x :
  is_digit a = true -> is_digit b = true -> leading_digit s = false ->
  k s ((i, two a b) :: cs) = Some x ->
  rmatch (Group i (digits 2 4)) (String a (String b s)) cs k = Some x.
Proof.
  intros Ha Hb Hs H. unfold digits. cbn [rmatch].
  apply rep_greedy_step; [now rewrite in_class_digit | reflexivity |].
  apply rep_greedy_step; [now rewrite in_class_digit | reflexivity |].
  cbn [pred hi_pred]. destruct s as [| c s].
  - rewrite rep_greedy_end. cbn [Nat.eqb]. now rewrite taken_two.
  - rewrite rep_greedy_stop by (rewrite in_class_digit; exact Hs).
    cbn [Nat.eqb]. now rewrite taken_two.
Qed.

(** [(\d{1,2})-(\d{1,2})-(\d{2,4})] on [DD-MM-YY]. *)
Lemma date_groups_two_digits i d1 d2 m1 m2 y1 y2 s cs k x :
  Forall (fun c => is_digit c = true) [d1; d2; m1; m2; y1; y2] ->
  leading_digit s = false ->
  k s ((i + 2, two y1 y2) :: (i + 1, two m1 m2) :: (i, two d1 d2) :: cs) = Some x ->
  rmatch (date_groups i) (dd_mm_yy d1 d2 m1 m2 y1 y2 ++ s) cs k = Some x.
Proof.
  intros Hd Hs H.
  repeat match goal with
    | H : Forall _ (_ :: _) |- _ => inversion H; subst; clear H
    end.
  unfold date_groups.
  change (dd_mm_yy d1 d2 m1 m2 y1 y2 ++ s)
    with (String d1 (String d2 (String "-"
            (String m1 (String m2 (String "-" (String y1 (String y2 s)))))))).
  apply rmatch_seq, group_two_digits; try assumption. cbv beta.
  apply rmatch_seq, rmatch_dash.
  apply rmatch_seq, group_two_digits; try assumption. cbv beta.
  apply rmatch_seq, rmatch_dash.
  apply group_year_digits; assumption.
Qed.

End Paths.

Lemma search_here r s cs : match_at r s = Some cs -> search r s = Some cs.
Proof. intros H. destruct s; cbn [search]; now rewrite H. Qed.

(** The whole pattern on [Del DD-MM-YY al DD-MM-YY]. *)
Lemma filename_re_del_al d1 d2 m1 m2 y1 y2 e1 e2 n1 n2 z1 z2 rest :
  Forall (fun c => is_digit c = true)
         [d1; d2; m1; m2; y1; y2; e1; e2; n1; n2; z1; z2] ->
  leading_digit rest = false ->
  search filename_re
    ("Del " ++ dd_mm_yy d1 d2 m1 m2 y1 y2 ++ " al "
            ++ dd_mm_yy e1 e2 n1 n2 z1 z2 ++ rest)
  = Some [(6, two z1 z2); (5, two n1 n2); (4, two e1 e2);
          (3, two y1 y2); (2, two m1 m2); (1, two d1 d2)].
Proof.
  intros Hd Hr.
  change [d1; d2; m1; m2; y1; y2; e1; e2; n1; n2; z1; z2]
    with ([d1; d2; m1; m2; y1; y2] ++ [e1; e2; n1; n2; z1; z2])%list in Hd.
  apply Forall_app in Hd as [H1 H2].
  assert (Hd1 : is_space d1 = false).
  { apply digit_not_space. now inversion H1. }
  assert (He1 : is_space e1 = false).
  { apply digit_not_space. now inversion H2. }
  apply search_here. unfold match_at, filename_re.
  apply rmatch_seq, rmatch_opt_taken, rmatch_alt_first.
  apply rmatch_lit with (s' := String " " (dd_mm_yy d1 d2 m1 m2 y1 y2 ++ " al "
            ++ dd_mm_yy e1 e2 n1 n2 z1 z2 ++ rest)); [reflexivity |].
  apply rmatch_seq.
  change (dd_mm_yy d1 d2 m1 m2 y1 y2 ++ " al " ++ dd_mm_yy e1 e2 n1 n2 z1 z2 ++ rest)
    with (String d1 (String d2 (String "-" (String m1 (String m2 (String "-"
           (String y1 (String y2 (" al " ++ dd_mm_yy e1 e2 n1 n2 z1 z2 ++ rest))))))))).
  apply spaces_one; [assumption |].
  apply rmatch_seq.
  apply (date_groups_two_digits 1 d1 d2 m1 m2 y1 y2
           (" al " ++ dd_mm_yy e1 e2 n1 n2 z1 z2 ++ rest)); [assumption | reflexivity |].
  apply rmatch_seq.
  change (" al " ++ dd_mm_yy e1 e2 n1 n2 z1 z2 ++ rest)
    with (String " " (String "a" (String "l" (String " "
           (String e1 (String e2 (String "-" (String n1 (String n2 (String "-"
             (String z1 (String z2 rest)))))))))))).
  apply spaces_one; [reflexivity |].
  apply rmatch_seq, rmatch_opt_taken, rmatch_alt_first.
  eapply rmatch_lit; [reflexivity |].
  apply rmatch_seq, spaces_one; [assumption |].
  apply (date_groups_two_digits 4 e1 e2 n1 n2 z1 z2 rest); [assumption | assumption |].
  reflexivity.
Qed.

Lemma digit_val_small c : is_digit c = true -> (digit_val c <= 9)%N.
Proof.
  unfold is_digit, digit_val. intros H.
  apply andb_true_iff in H as [H1 H2]. apply N.leb_le in H1, H2. lia.
Qed.

Lemma int_of_two a b : int_of_digits (two a b) = num2 a b.
Proof. unfold int_of_digits, num2. cbn [two list_ascii_of_string fold_left]. lia. Qed.

Lemma int_of_year a b : int_of_digits ("20" ++ two a b) = (2000 + num2 a b)%N.
Proof.
  unfold int_of_digits, num2.
  change ("20" ++ two a b) with (String "2" (String "0" (two a b))).
  cbn [two list_ascii_of_string fold_left].
  change (digit_val "2") with 2%N. change (digit_val "0") with 0%N. lia.
Qed.

Lemma split_two_then a b rest :
  is_digit a = true -> is_digit b = true ->
  split_on "-" (String a (String b (String "-" rest)))
  = two a b :: split_on "-" rest.
Proof.
  intros Ha Hb. cbn [split_on].
  rewrite (digit_not_dash a Ha), (digit_not_dash b Hb).
  change (Ascii.eqb "-" "-") with true. cbv iota. reflexivity.
Qed.

Lemma split_year e f :
  is_digit e = true -> is_digit f = true ->
  split_on "-" (String "2" (String "0" (two e f))) = ["20" ++ two e f].
Proof.
  intros He Hf. cbn [split_on two].
  rewrite (digit_not_dash e He), (digit_not_dash f Hf).
  reflexivity.
Qed.

Lemma field_two a b :
  is_digit a = true -> is_digit b = true -> field_1_2 (two a b) = Some (num2 a b).
Proof.
  intros Ha Hb. unfold field_1_2, all_digits. rewrite int_of_two.
  cbn [two list_ascii_of_string forallb String.length]. rewrite Ha, Hb.
  reflexivity.
Qed.

Lemma field_year e f :
  is_digit e = true -> is_digit f = true ->
  field_4 ("20" ++ two e f) = Some (2000 + num2 e f)%N.
Proof.
  intros He Hf. unfold field_4, all_digits.
  rewrite int_of_year.
  change ("20" ++ two e f) with (String "2" (String "0" (two e f))).
  cbn [two list_ascii_of_string forallb String.length]. rewrite He, Hf.
  reflexivity.
Qed.

(** [strptime] on [DD-MM-20YY]. *)
Lemma strptime_two_digits a b c d e f :
  Forall (fun c => is_digit c = true) [a; b; c; d; e; f] ->
  strptime_dmY (dmy_text (two a b) (two c d) (expand_year (two e f)))
  = make_datetime (2000 + num2 e f) (num2 c d) (num2 a b).
Proof.
  intros H.
  repeat match goal with
    | H : Forall _ (_ :: _) |- _ => inversion H; subst; clear H
    end.
  unfold strptime_dmY.
  change (dmy_text (two a b) (two c d) (expand_year (two e f)))
    with (String a (String b (String "-" (String c (String d (String "-"
            (String "2" (String "0" (two e f))))))))).
  rewrite !split_two_then, split_year by assumption.
  rewrite !field_two, field_year by assumption.
  reflexivity.
Qed.

Lemma digits_need_digit {T} (cont : string -> option T) hi s x :
  rep_greedy [CDigit] 1 hi s cont = Some x -> leading_digit s = true.
Proof.
  destruct s as [| c s]; cbn [rep_greedy Nat.eqb]; [discriminate |].
  rewrite in_class_digit. cbn [leading_digit].
  destruct (is_digit c); [reflexivity | discriminate].
Qed.

Lemma spaces_then_digit {T} (cont : string -> option T) : forall s x,
  (forall u y, cont u = Some y -> leading_digit u = true) ->
  rep_greedy [CSpace] 0 None s cont = Some x ->
  leading_digit (strip_left s) = true.
Proof.
  intros s x Hc. revert x.
  induction s as [| c s IH]; intros x; cbn [rep_greedy Nat.eqb].
  - intros H. apply (Hc _ _ H).
  - rewrite in_class_space. cbn [hi_open hi_pred pred strip_left]. rewrite andb_true_r.
    destruct (is_space c) eqn:Ec.
    + destruct (rep_greedy [CSpace] 0 None s cont) as [y |] eqn:E.
      * intros _. now apply (IH y).
      * intros H. apply Hc in H. cbn [leading_digit] in H.
        apply digit_not_space in H. congruence.
    + intros H. apply (Hc _ _ H).
Qed.

(** What follows the optional word of the pattern needs blanks and then a
    digit. *)
Lemma after_word_needs_digit {T} s cs (k : string -> caps -> option T) r x :
  rmatch (Seq spaces (Seq (date_groups 1) r)) s cs k = Some x ->
  leading_digit (strip_left s) = true.
Proof.
  unfold spaces, date_groups. cbn [rmatch]. apply spaces_then_digit.
  intros u y. unfold digits. apply digits_need_digit.
Qed.

Lemma filename_re_needs_start s cs :
  match_at filename_re s = Some cs -> can_start s = true.
Proof.
  unfold match_at, filename_re, can_start.
  set (tail := Seq spaces (Seq (date_groups 1) _)).
  change (rmatch (Seq (Opt (Alt (Lit "Del") (Lit "del"))) tail) s []
            (fun _ cs0 => Some cs0))
    with (match (match (match strip_prefix "Del" s with
                        | Some s' => rmatch tail s' [] (fun _ cs0 => Some cs0)
                        | None => None
                        end) with
                 | Some x => Some x
                 | None => match strip_prefix "del" s with
                           | Some s' => rmatch tail s' [] (fun _ cs0 => Some cs0)
                           | None => None
                           end
                 end) with
          | Some x => Some x
          | None => rmatch tail s [] (fun _ cs0 => Some cs0)
          end).
  destruct (strip_prefix "Del" s) as [r1 |] eqn:E1.
  - destruct (rmatch tail r1 [] _) as [x |] eqn:M1.
    + intros _. apply after_word_needs_digit in M1. rewrite M1.
      now rewrite orb_true_r.
    + destruct (strip_prefix "del" s) as [r2 |] eqn:E2.
      * destruct (rmatch tail r2 [] _) as [x |] eqn:M2.
        -- intros _. apply after_word_needs_digit in M2. rewrite M2.
           now rewrite !orb_true_r.
        -- intros H. apply after_word_needs_digit in H. now rewrite H.
      * intros H. apply after_word_needs_digit in H. now rewrite H.
  - destruct (strip_prefix "del" s) as [r2 |] eqn:E2.
    + destruct (rmatch tail r2 [] _) as [x |] eqn:M2.
      * intros _. apply after_word_needs_digit in M2. rewrite M2.
        now rewrite !orb_true_r.
      * intros H. apply after_word_needs_digit in H. now rewrite H.
    + intros H. apply after_word_needs_digit in H. now rewrite H.
Qed.

Lemma free_of_cons k c s :
  free_of k (String c s) = negb (in_class k c) && free_of k s.
Proof. reflexivity. Qed.

Lemma no_digit_before_word Y t :
  free_of [CDigit] Y = true ->
  leading_digit (strip_left (Y ++ String "D" t)) = false.
Proof.
  induction Y as [| c Y IH]; intros H.
  - reflexivity.
  - rewrite free_of_cons, in_class_digit in H.
    apply andb_true_iff in H as [Hc HY]. apply negb_true_iff in Hc.
    rewrite append_cons. cbn [strip_left].
    destruct (is_space c); [now apply IH | exact Hc].
Qed.

Lemma no_digit_after_word w X rest r :
  w = "Del" \/ w = "del" ->
  X <> "" -> free_of [CDigit] X = true ->
  strip_prefix w (X ++ "Del " ++ rest) = Some r ->
  leading_digit (strip_left r) = false.
Proof.
  intros Hw HX Hf.
  change ("Del " ++ rest) with (String "D" (String "e" (String "l" (String " " rest)))).
  destruct X as [| a [| b [| c X]]]; [congruence | | |].
  - destruct Hw as [-> | ->]; rewrite append_cons; cbn [append strip_prefix];
      destruct (Ascii.eqb _ a); discriminate.
  - destruct Hw as [-> | ->]; rewrite !append_cons; cbn [strip_prefix];
      destruct (Ascii.eqb _ a); try discriminate;
      destruct (Ascii.eqb _ b); discriminate.
  - rewrite !free_of_cons in Hf.
    apply andb_true_iff in Hf as [_ Hf]. apply andb_true_iff in Hf as [_ Hf].
    apply andb_true_iff in Hf as [_ Hf].
    destruct Hw as [-> | ->]; rewrite !append_cons; cbn [strip_prefix];
      destruct (Ascii.eqb _ a); try discriminate;
      destruct (Ascii.eqb _ b); try discriminate;
      destruct (Ascii.eqb _ c); try discriminate;
      intros [= <-]; now apply no_digit_before_word.
Qed.

(** The pattern does not match from inside a prefix without digits. *)
Lemma filename_re_not_in_prefix X rest :
  X <> "" -> free_of [CDigit] X = true ->
  match_at filename_re (X ++ "Del " ++ rest) = None.
Proof.
  intros HX Hf.
  destruct (match_at filename_re (X ++ "Del " ++ rest)) as [cs |] eqn:E;
    [| reflexivity].
  apply filename_re_needs_start in E. unfold can_start in E.
  pose proof (no_digit_before_word X ("el " ++ rest) Hf) as H0.
  change (String "D" ("el " ++ rest)) with ("Del " ++ rest) in H0.
  rewrite H0 in E.
  destruct (strip_prefix "Del" _) as [r1 |] eqn:E1.
  - rewrite (no_digit_after_word "Del" X rest r1 (or_introl eq_refl) HX Hf E1) in E.
    destruct (strip_prefix "del" _) as [r2 |] eqn:E2; [| discriminate].
    rewrite (no_digit_after_word "del" X rest r2 (or_intror eq_refl) HX Hf E2) in E.
    discriminate.
  - destruct (strip_prefix "del" _) as [r2 |] eqn:E2; [| discriminate].
    rewrite (no_digit_after_word "del" X rest r2 (or_intror eq_refl) HX Hf E2) in E.
    discriminate.
Qed.

(** A prefix without digits is skipped by the search. *)
Lemma search_skips_prefix pre rest :
  free_of [CDigit] pre = true ->
  search filename_re (pre ++ "Del " ++ rest) = search filename_re ("Del " ++ rest).
Proof.
  induction pre as [| c pre IH]; intros Hf; [reflexivity |].
  pose proof (filename_re_not_in_prefix (String c pre) rest) as Hn.
  rewrite append_cons in Hn |- *. cbn [search].
  rewrite Hn by (assumption || discriminate).
  apply IH. rewrite free_of_cons in Hf. now apply andb_true_iff in Hf as [_ Hf].
Qed.

Lemma dates_del_al
    (pre : string) d1 d2 m1 m2 y1 y2 e1 e2 n1 n2 z1 z2 (rest : string) :
  free_of [CDigit] pre = true ->
  Forall (fun c => is_digit c = true)
         [d1; d2; m1; m2; y1; y2; e1; e2; n1; n2; z1; z2] ->
  leading_digit rest = false ->
  extract_date_from_filename
    (pre ++ "Del " ++ dd_mm_yy d1 d2 m1 m2 y1 y2 ++ " al "
         ++ dd_mm_yy e1 e2 n1 n2 z1 z2 ++ rest)
  = both_or_none
      (make_datetime (2000 + num2 y1 y2) (num2 m1 m2) (num2 d1 d2))
      (make_datetime (2000 + num2 z1 z2) (num2 n1 n2) (num2 e1 e2)).
Proof.
  intros Hpre Hd Hr. unfold extract_date_from_filename.
  rewrite search_skips_prefix by assumption.
  rewrite filename_re_del_al by assumption.
  change [d1; d2; m1; m2; y1; y2; e1; e2; n1; n2; z1; z2]
    with ([d1; d2; m1; m2; y1; y2] ++ [e1; e2; n1; n2; z1; z2])%list in Hd.
  apply Forall_app in Hd as [H1 H2].
  cbn [groups6 group Nat.eqb].
  rewrite !strptime_two_digits by assumption.
  unfold both_or_none.
  destruct (make_datetime (2000 + num2 y1 y2) (num2 m1 m2) (num2 d1 d2));
    destruct (make_datetime (2000 + num2 z1 z2) (num2 n1 n2) (num2 e1 e2));
    reflexivity.
Qed.

Lemma num2_small a b :
  is_digit a = true -> is_digit b = true -> (num2 a b <= 99)%N.
Proof.
  intros Ha Hb. apply digit_val_small in Ha, Hb. unfold num2. lia.
Qed.

Lemma dias_del_mes_fuera y m : (m = 0 \/ 12 < m)%N -> dias_del_mes y m = 0%N.
Proof.
  intros H. unfold dias_del_mes.
  destruct m as [| [[[[p | p |] | [p | p |] |] | [[p | p |] | [p | p |] |] |]
                    | [[[p | p |] | [p | p |] |] | [[p | p |] | [p | p |] |] |] |]];
    try reflexivity; exfalso; lia.
Qed.

Lemma dias_del_mes_dentro y m :
  (1 <= m <= 12)%N -> days_in_month y m = dias_del_mes y m.
Proof.
  intros H.
  assert (Hm : (m = 1 \/ m = 2 \/ m = 3 \/ m = 4 \/ m = 5 \/ m = 6 \/ m = 7
                \/ m = 8 \/ m = 9 \/ m = 10 \/ m = 11 \/ m = 12)%N) by lia.
  repeat (destruct Hm as [-> | Hm]); try subst m; try reflexivity.
  unfold days_in_month, dias_del_mes, is_leap.
  destruct (N.eqb_spec (y mod 4) 0) as [E4 | E4], (N.eqb_spec (y mod 100) 0),
    (N.eqb_spec (y mod 400) 0) as [E400 | E400]; try reflexivity;
    exfalso; apply E4; apply N.Div0.mod_divides in E400 as [q ->];
    replace (400 * q)%N with (100 * q * 4)%N by lia; apply N.Div0.mod_mul.
Qed.

(** The constructor of [datetime] accepts the days that exist. *)
Lemma make_datetime_existe y m d :
  (1 <= y <= 9999)%N ->
  make_datetime y m d
  = if existe y m d then Some (mk_datetime y m d) else None.
Proof.
  intros Hy. unfold make_datetime, existe.
  destruct (N.leb_spec 1 y), (N.leb_spec y 9999); try lia. cbn [andb].
  destruct (N.leb_spec 1 m) as [H1 | H1]; cbn [andb].
  - destruct (N.leb_spec m 12) as [H2 | H2]; cbn [andb].
    + now rewrite dias_del_mes_dentro by lia.
    + rewrite dias_del_mes_fuera by lia.
      destruct (N.leb_spec 1 d), (N.leb_spec d 0); cbn [andb]; try reflexivity; lia.
  - rewrite dias_del_mes_fuera by lia.
    destruct (N.leb_spec 1 d), (N.leb_spec d 0); cbn [andb]; try reflexivity; lia.
Qed.

Lemma plain_start_no_digit rest : plain_start rest = true -> leading_digit rest = false.
Proof.
  destruct rest as [| c rest]; [reflexivity |]. cbn [plain_start leading_digit].
  intros H. apply andb_true_iff in H as [_ H]. now apply negb_true_iff in H.
Qed.

(** C6.  A file name that holds [Del DD-MM-YY al DD-MM-YY], the twelve
    digits being ASCII digits, after an ASCII prefix without digits and
    before a rest that is empty or starts with an ASCII character that is
    no digit, resolves to the two dates read day-month-year with the
    years 2000+YY when both days exist in the calendar; when one of them
    does not exist the result is the pair (None, None), and no exception
    escapes. *)
Theorem extract_date_from_filename_del_al
    (pre : string) d1 d2 m1 m2 y1 y2 e1 e2 n1 n2 z1 z2 (rest : string) :
  is_ascii pre = true ->
  free_of [CDigit] pre = true ->
  Forall (fun c => is_digit c = true)
         [d1; d2; m1; m2; y1; y2; e1; e2; n1; n2; z1; z2] ->
  plain_start rest = true ->
  extract_date_from_filename
    (pre ++ "Del " ++ dd_mm_yy d1 d2 m1 m2 y1 y2 ++ " al "
         ++ dd_mm_yy e1 e2 n1 n2 z1 z2 ++ rest)
  = if existe (2000 + num2 y1 y2) (num2 m1 m2) (num2 d1 d2)
       && existe (2000 + num2 z1 z2) (num2 n1 n2) (num2 e1 e2)
    then (Some (mk_datetime (2000 + num2 y1 y2) (num2 m1 m2) (num2 d1 d2)),
          Some (mk_datetime (2000 + num2 z1 z2) (num2 n1 n2) (num2 e1 e2)))
    else (None, None).
Proof.
  intros _ Hpre Hd Hr.
  rewrite dates_del_al by (auto using plain_start_no_digit).
  repeat match goal with
         | H : Forall _ (_ :: _) |- _ => inversion H; clear H; subst
         end.
  pose proof (num2_small y1 y2) as Hy. pose proof (num2_small z1 z2) as Hz.
  rewrite !make_datetime_existe by (split; [lia | ]; auto; [apply N.le_trans with (2000 + 99)%N; [apply N.add_le_mono_l; auto | discriminate]]).
  unfold both_or_none.
  destruct (existe (2000 + num2 y1 y2) (num2 m1 m2) (num2 d1 d2)),
    (existe (2000 + num2 z1 z2) (num2 n1 n2) (num2 e1 e2)); reflexivity.
Qed.

Lemma extract_date_from_filename_del_al_witness :
  extract_date_from_filename "Precios Del 01-03-24 al 07-03-24.pdf"
  = (Some (mk_datetime 2024 3 1), Some (mk_datetime 2024 3 7))
  /\ extract_date_from_filename "Del 31-02-24 al 07-03-24" = (None, None).
Proof.
  split.
  - apply (extract_date_from_filename_del_al "Precios "
             "0" "1" "0" "3" "2" "4" "0" "7" "0" "3" "2" "4" ".pdf");
      [reflexivity | reflexivity | repeat constructor | reflexivity].
  - apply (extract_date_from_filename_del_al ""
             "3" "1" "0" "2" "2" "4" "0" "7" "0" "3" "2" "4" "");
      [reflexivity | reflexivity | repeat constructor | reflexivity].
Defined.

(** A name as a download has it. *)
Example extract_date_prefixed_name :
  extract_date_from_filename "Precios Del 01-03-24 al 07-03-24.pdf"
  = (Some (mk_datetime 2024 3 1), Some (mk_datetime 2024 3 7)).
Proof. vm_compute. reflexivity. Qed.

(** An impossible date, the 31st of February, gives no date. *)
Example extract_date_invalid_calendar_date :
  extract_date_from_filename "Del 31-02-24 al 07-03-24" = (None, None).
Proof. vm_compute. reflexivity. Qed.

(** ** The cleaner returns whole numbers *)

Lemma sub_class_free k s : free_of k (sub_class k s) = true.
Proof.
  unfold free_of. induction s as [| c s IH]; [reflexivity |].
  cbn [sub_class]. destruct (in_class k c) eqn:E; [assumption |].
  cbn [list_ascii_of_string forallb]. now rewrite E.
Qed.

Lemma sub_class_length k s : String.length (sub_class k s) <= String.length s.
Proof.
  induction s as [| c s IH]; [reflexivity |].
  cbn [sub_class]. destruct (in_class k c); cbn [String.length]; lia.
Qed.

Lemma free_of_suffix k p s : free_of k (p ++ s) = true -> free_of k s = true.
Proof.
  unfold free_of. induction p as [| c p IH]; [trivial |].
  rewrite append_cons. cbn [list_ascii_of_string forallb].
  intros H. apply andb_true_iff in H as [_ H]. auto.
Qed.

Lemma search_suffix r : forall s cs,
  search r s = Some cs -> exists p s', s = p ++ s' /\ match_at r s' = Some cs.
Proof.
  induction s as [| c s IH]; intros cs; cbn [search].
  - destruct (match_at r "") eqn:E; [| discriminate].
    intros [= <-]. now exists "", "".
  - destruct (match_at r (String c s)) eqn:E.
    + intros [= <-]. now exists "", (String c s).
    + intros H. destruct (IH _ H) as [p [s' [-> Hm]]].
      now exists (String c p), s'.
Qed.

Lemma all_digits_cons c t : all_digits (String c t) = is_digit c && all_digits t.
Proof. reflexivity. Qed.

(** What [\d+] consumed is a run of digits, at least as long as asked. *)
Lemma rep_greedy_digits {T} (cont : string -> option T) : forall s lo x,
  rep_greedy [CDigit] lo None s cont = Some x ->
  exists run s1, s = run ++ s1 /\ all_digits run = true
                 /\ lo <= String.length run /\ cont s1 = Some x.
Proof.
  induction s as [| c s IH]; intros lo x; cbn [rep_greedy].
  - destruct lo; [| discriminate]. intros H. exists "", "". repeat split; auto.
  - rewrite in_class_digit. cbn [hi_open hi_pred]. rewrite andb_true_r.
    destruct (is_digit c) eqn:Ec.
    + destruct (rep_greedy [CDigit] (pred lo) None s cont) as [y |] eqn:E.
      * intros [= <-]. destruct (IH _ _ E) as [run [s1 [-> [Hr [Hl Hc]]]]].
        exists (String c run), s1. repeat split; auto.
        -- rewrite all_digits_cons, Ec. exact Hr.
        -- cbn [String.length]. lia.
      * destruct lo; [| discriminate]. intros H.
        exists "", (String c s). repeat split; auto.
    + destruct lo; [| discriminate]. intros H.
      exists "", (String c s). repeat split; auto.
Qed.

Lemma no_dot_ahead s : free_of currency_class s = true -> strip_prefix "." s = None.
Proof.
  destruct s as [| c s]; [reflexivity |].
  unfold free_of. cbn [list_ascii_of_string forallb]. intros H.
  apply andb_true_iff in H as [H _]. apply negb_true_iff in H.
  cbn [strip_prefix]. destruct (Ascii.eqb_spec "." c) as [<- |]; [discriminate | reflexivity].
Qed.

(** On a text without dots the pattern captures a run of digits. *)
Lemma number_re_digits s cs :
  free_of currency_class s = true -> match_at number_re s = Some cs ->
  exists run, all_digits run = true /\ 1 <= String.length run
              /\ String.length run <= String.length s /\ cs = [(1, run)].
Proof.
  intros Hf. unfold match_at, number_re. cbn [rmatch]. intros H.
  apply rep_greedy_digits in H as [run [s1 [-> [Hr [Hl H]]]]].
  rewrite (no_dot_ahead s1 (free_of_suffix _ _ _ Hf)) in H.
  rewrite taken_app in H. injection H as <-.
  exists run. repeat split; auto. rewrite length_app. lia.
Qed.

Lemma digit_not_dot c : is_digit c = true -> Ascii.eqb c "." = false.
Proof.
  intros H. destruct (Ascii.eqb_spec c ".") as [-> |]; [discriminate | reflexivity].
Qed.

Lemma split_dot_digits t : all_digits t = true -> split_dot t = (t, None).
Proof.
  induction t as [| c t IH]; [reflexivity |].
  rewrite all_digits_cons. intros H. apply andb_true_iff in H as [Hc Ht].
  cbn [split_dot]. now rewrite (digit_not_dot c Hc), (IH Ht).
Qed.

Lemma of_text_digits t :
  all_digits t = true -> 1 <= String.length t ->
  of_text t = Some (of_N (int_of_digits t)).
Proof.
  intros Hd Hl. unfold of_text. rewrite split_dot_digits, Hd by assumption.
  destruct t; [cbn in Hl; lia | reflexivity].
Qed.

Lemma fold_digits_bound l : forall acc k,
  forallb is_digit l = true -> (acc < 10 ^ k)%N ->
  (fold_left (fun a c => 10 * a + digit_val c) l acc < 10 ^ (k + N.of_nat (List.length l)))%N.
Proof.
  induction l as [| c l IH]; intros acc k Hl Ha; cbn [fold_left List.length forallb] in *.
  - now rewrite N.add_0_r.
  - apply andb_true_iff in Hl as [Hc Hl].
    pose proof (digit_val_small c Hc).
    replace (k + N.of_nat (S (List.length l)))%N with ((k + 1) + N.of_nat (List.length l))%N by lia.
    apply IH; [assumption |].
    rewrite N.pow_add_r, N.pow_1_r. lia.
Qed.

Lemma int_of_digits_bound t :
  all_digits t = true -> (int_of_digits t < 10 ^ N.of_nat (String.length t))%N.
Proof.
  intros H. unfold int_of_digits.
  pose proof (fold_digits_bound (list_ascii_of_string t) 0 0 H) as B.
  cbn [N.add] in B.
  assert (E : List.length (list_ascii_of_string t) = String.length t).
  { clear. induction t; cbn; congruence. }
  rewrite E in B. apply B. reflexivity.
Qed.

(** The cleaner returns the float of a natural number: the digits of one
    run of the cell, read without any decimal point. *)
Lemma clean_price_integer s v :
  clean_price (Some s) = Some v ->
  exists t, all_digits t = true /\ 1 <= String.length t
            /\ String.length t <= String.length s
            /\ v = of_N (int_of_digits t).
Proof.
  unfold clean_price. destruct s as [| a s]; [discriminate |].
  set (s0 := String a s).
  destruct (search number_re (sub_class currency_class s0)) as [m |] eqn:E;
    [| discriminate].
  apply search_suffix in E as [p [s' [Hs Hm]]].
  assert (Hf : free_of currency_class s' = true).
  { apply (free_of_suffix _ p). rewrite <- Hs. apply sub_class_free. }
  destruct (number_re_digits s' m Hf Hm) as [run [Hr [Hl1 [Hl2 ->]]]].
  cbn [group Nat.eqb]. rewrite of_text_digits by assumption.
  intros [= <-]. exists run. repeat split; auto.
  pose proof (sub_class_length currency_class s0) as L.
  rewrite Hs, length_app in L. lia.
Qed.

Lemma clean_price_finite s v :
  String.length s <= 307 -> clean_price (Some s) = Some v -> is_finite v = true.
Proof.
  intros Hl H. destruct (clean_price_integer s v H) as [t [Hd [_ [Hlt ->]]]].
  apply of_N_finite.
  pose proof (int_of_digits_bound t Hd) as B.
  assert ((10 ^ N.of_nat (String.length t) <= 10 ^ 307)%N).
  { apply N.pow_le_mono_r; lia. }
  assert ((10 ^ 307 < 2 ^ 1023)%N) by reflexivity.
  lia.
Qed.

(** ** The normalisers *)

Lemma emit_if_price item lug cat c r :
  In r (emit_if item lug cat (clean_price c)) -> price_from c r.
Proof.
  unfold emit_if, price_from. destruct (clean_price c) as [x |]; [| intros []].
  destruct (truthy x) eqn:E; [| intros []].
  intros [<- | []]. now split.
Qed.

Lemma for_rows_In body : forall rs recs r,
  for_rows body rs = Some recs -> In r recs ->
  exists row recs', In row rs /\ body row = Some recs' /\ In r recs'.
Proof.
  induction rs as [| row rs IH]; intros recs r; cbn [for_rows].
  - intros [= <-] [].
  - destruct (body row) as [recs1 |] eqn:E1; [| discriminate].
    destruct (for_rows body rs) as [recs2 |] eqn:E2; [| discriminate].
    intros [= <-] Hin. apply in_app_or in Hin as [Hin | Hin].
    + exists row, recs1. repeat split; auto. now left.
    + destruct (IH _ _ eq_refl Hin) as [row' [recs' [H1 [H2 H3]]]].
      exists row', recs'. repeat split; auto. now right.
Qed.

Lemma por_lugar_row_price item df row recs r :
  por_lugar_row item df row = Some recs -> In r recs ->
  exists c, In c row /\ price_from c r.
Proof.
  unfold por_lugar_row. destruct (or_first _ _) as [lug |]; [| discriminate].
  intros [= <-] Hin. apply in_flat_map in Hin as [[col c] [Hc Hin]].
  cbn [fst snd] in Hin. destruct (price_column col); [| destruct Hin].
  exists c. split; [| eapply emit_if_price; eassumption].
  eapply in_combine_r. exact Hc.
Qed.

Lemma por_categoria_row_price item df row recs r :
  por_categoria_row item df row = Some recs -> In r recs ->
  exists c, In c row /\ price_from c r.
Proof.
  unfold por_categoria_row. destruct (or_first _ _) as [cat |]; [| discriminate].
  intros [= <-] Hin. apply in_flat_map in Hin as [[col c] [Hc Hin]].
  cbn [fst snd] in Hin. destruct (not_first_label df col); [| destruct Hin].
  exists c. split; [| eapply emit_if_price; eassumption].
  eapply in_combine_r. exact Hc.
Qed.

Lemma general_row_price item df row recs r :
  general_row item df row = Some recs -> In r recs ->
  exists c, In c row /\ price_from c r.
Proof.
  unfold general_row. destruct (first_text row) as [t |]; [| discriminate].
  intros [= <-] Hin. apply in_flat_map in Hin as [[col c] [Hc Hin]].
  cbn [fst snd] in Hin.
  exists c. split; [| eapply emit_if_price; eassumption].
  apply in_combine_r in Hc. destruct row; [destruct Hc | now right].
Qed.

Lemma strategy_price f item df recs r :
  In f strategies -> f item df = Some recs -> In r recs ->
  exists c, In c (cells_of df) /\ price_from c r.
Proof.
  intros Hf H Hin.
  assert (Hrow : exists row c, In row (rows df) /\ In c row /\ price_from c r).
  { destruct Hf as [<- | [<- | [<- | []]]];
      destruct (for_rows_In _ _ _ _ H Hin) as [row [recs' [H1 [H2 H3]]]].
    - destruct (por_lugar_row_price _ _ _ _ _ H2 H3) as [c [? ?]]; eauto.
    - destruct (por_categoria_row_price _ _ _ _ _ H2 H3) as [c [? ?]]; eauto.
    - destruct (general_row_price _ _ _ _ _ H2 H3) as [c [? ?]]; eauto. }
  destruct Hrow as [row [c [H1 [H2 H3]]]].
  exists c. split; [| assumption].
  unfold cells_of. apply in_concat. eauto.
Qed.

Lemma emit_if_precio item lug cat c :
  map precio (emit_if item lug cat (clean_price c)) = omap precio_de [c].
Proof.
  unfold emit_if, precio_de. cbn [omap list_omap].
  destruct (clean_price c) as [x |]; [| reflexivity].
  destruct (truthy x); reflexivity.
Qed.

Lemma flat_map_precios (F : string * cell -> list PriceRecord)
    (sel : string * cell -> bool) l :
  (forall cv, map precio (F cv) = if sel cv then omap precio_de [snd cv] else []) ->
  map precio (flat_map F l) = omap precio_de (map snd (List.filter sel l)).
Proof.
  intros HF. induction l as [| cv l IH]; [reflexivity |].
  cbn [flat_map List.filter]. rewrite map_app, HF, IH.
  destruct (sel cv); [| reflexivity].
  cbn [map]. change (snd cv :: map snd (List.filter sel l))
    with ([snd cv] ++ map snd (List.filter sel l))%list.
  now rewrite omap_app.
Qed.

Lemma filter_all {A} (l : list A) : List.filter (fun _ => true) l = l.
Proof. induction l as [| a l IH]; [reflexivity |]. cbn. now rewrite IH. Qed.

Lemma for_rows_precios body (g : list cell -> list cell) :
  (forall row recs, body row = Some recs ->
                    map precio recs = omap precio_de (g row)) ->
  forall rs recs, for_rows body rs = Some recs ->
                  map precio recs = omap precio_de (flat_map g rs).
Proof.
  intros Hb. induction rs as [| row rs IH]; intros recs; cbn [for_rows flat_map].
  - now intros [= <-].
  - destruct (body row) as [r1 |] eqn:E1; [| discriminate].
    destruct (for_rows body rs) as [r2 |] eqn:E2; [| discriminate].
    intros [= <-]. rewrite map_app, omap_app, (Hb _ _ E1), (IH _ eq_refl).
    reflexivity.
Qed.

Lemma por_lugar_precios item df recs :
  _normalize_por_lugar item df = Some recs ->
  map precio recs = omap precio_de (cleaned_cells price_column df).
Proof.
  unfold _normalize_por_lugar, cleaned_cells. apply for_rows_precios.
  intros row r. unfold por_lugar_row.
  destruct (or_first _ _) as [lug |]; [| discriminate]. intros [= <-].
  apply (flat_map_precios _ (fun cv => price_column (fst cv))).
  intros cv. destruct (price_column (fst cv)); [| reflexivity].
  apply emit_if_precio.
Qed.

Lemma por_categoria_precios item df recs :
  _normalize_por_categoria item df = Some recs ->
  map precio recs = omap precio_de (cleaned_cells (not_first_label df) df).
Proof.
  unfold _normalize_por_categoria, cleaned_cells. apply for_rows_precios.
  intros row r. unfold por_categoria_row.
  destruct (or_first _ _) as [cat |]; [| discriminate]. intros [= <-].
  apply (flat_map_precios _ (fun cv => not_first_label df (fst cv))).
  intros cv. destruct (not_first_label df (fst cv)); [| reflexivity].
  apply emit_if_precio.
Qed.

Lemma general_precios item df recs :
  _normalize_general item df = Some recs ->
  map precio recs = omap precio_de (cleaned_cells_general df).
Proof.
  unfold _normalize_general, cleaned_cells_general. apply for_rows_precios.
  intros row r. unfold general_row.
  destruct (first_text row) as [t |]; [| discriminate]. intros [= <-].
  rewrite <- (filter_all (combine (tl (columns df)) (tl row))) at 2.
  apply (flat_map_precios _ (fun _ => true)).
  intros cv. apply emit_if_precio.
Qed.

(** C7.  Under each of the three strategies every emitted record has a
    strictly positive precio, which is the cleaned value of a cell of the
    table.  The records answer, one for one and in order, to the cells
    that the strategy cleans and whose cleaned value is not zero: a cell
    whose cleaning fails, or gives zero, contributes no record.  The
    cleaned cells are those after the first of each row for the generic
    strategy and, when the labels of the frame are all different, those
    under a price label for the strategy by place and those under a label
    other than the first for the strategy by category.  The precio is
    finite when no cell has more than 307 characters; a longer run of
    digits can exceed the range of a float and is then emitted as plus
    infinity. *)
Theorem emitted_prices_positive f item df recs :
  In f strategies -> f item df = Some recs ->
  Forall (fun r =>
            is_positive (precio r) = true
            /\ (exists c, In c (cells_of df) /\ clean_price c = Some (precio r))
            /\ (short_cells df -> is_finite (precio r) = true))
         recs
  /\ (f = _normalize_general ->
        map precio recs = omap precio_de (cleaned_cells_general df))
  /\ (NoDup (columns df) ->
        (f = _normalize_por_lugar ->
           map precio recs = omap precio_de (cleaned_cells price_column df))
        /\ (f = _normalize_por_categoria ->
              map precio recs
              = omap precio_de (cleaned_cells (not_first_label df) df))).
Proof.
  intros Hf H. split; [| split; [| intros _; split]].
  - apply List.Forall_forall. intros r Hin.
    destruct (strategy_price f item df recs r Hf H Hin) as [c [Hc [Hp Ht]]].
    repeat split.
    + apply nonneg_truthy_positive; [| assumption].
      destruct (clean_price_of_text c _ Hp) as [t Ht'].
      now apply (of_text_nonneg t).
    + now exists c.
    + intros Hs. destruct c as [s |]; [| discriminate].
      eapply clean_price_finite; [| exact Hp]. now apply Hs.
  - intros ->. now apply (general_precios item).
  - intros ->. now apply (por_lugar_precios item).
  - intros ->. now apply (por_categoria_precios item).
Qed.

Lemma emitted_prices_positive_witness :
  let df := mk_df ["Categoría"; "Mercado A"; "Mercado B"; "Mercado C"]
                  [[Some "Ternera"; Some "100"; Some "N/D"; Some "0"];
                   [Some "Novillo"; None; Some "B/. 120"; Some "-"]] in
  let item := mk_item "boletin.pdf" 1 1 PorCategoria None None df in
  let recs := [mk_record None None "Mercado A" "Ternera" (of_N 100)
                         "boletin.pdf" PorCategoria;
               mk_record None None "Mercado B" "Novillo" (of_N 120)
                         "boletin.pdf" PorCategoria] in
  In _normalize_por_categoria strategies
  /\ _normalize_por_categoria item df = Some recs
  /\ NoDup (columns df)
  /\ cleaned_cells (not_first_label df) df
     = [Some "100"; Some "N/D"; Some "0"; None; Some "B/. 120"; Some "-"]
  /\ Forall (fun r => is_positive (precio r) = true) recs
  /\ map precio recs = omap precio_de (cleaned_cells (not_first_label df) df).
Proof.
  cbv zeta.
  assert (Hn : NoDup ["Categoría"; "Mercado A"; "Mercado B"; "Mercado C"]).
  { repeat (apply NoDup_cons; split;
            [intros Hin%list_elem_of_In; cbn in Hin; intuition discriminate |]).
    apply NoDup_nil_2. }
  split; [right; left; reflexivity |].
  split; [vm_compute; reflexivity |].
  split; [exact Hn |].
  split; [vm_compute; reflexivity |].
  destruct (emitted_prices_positive _normalize_por_categoria
              (mk_item "boletin.pdf" 1 1 PorCategoria None None
                 (mk_df ["Categoría"; "Mercado A"; "Mercado B"; "Mercado C"]
                        [[Some "Ternera"; Some "100"; Some "N/D"; Some "0"];
                         [Some "Novillo"; None; Some "B/. 120"; Some "-"]]))
              (mk_df ["Categoría"; "Mercado A"; "Mercado B"; "Mercado C"]
                     [[Some "Ternera"; Some "100"; Some "N/D"; Some "0"];
                      [Some "Novillo"; None; Some "B/. 120"; Some "-"]])
              [mk_record None None "Mercado A" "Ternera" (of_N 100)
                         "boletin.pdf" PorCategoria;
               mk_record None None "Mercado B" "Novillo" (of_N 120)
                         "boletin.pdf" PorCategoria])
    as [Hpos [_ Hcells]];
    [right; left; reflexivity | vm_compute; reflexivity |].
  split.
  - eapply List.Forall_impl; [| exact Hpos]. intros r [Hr _]. exact Hr.
  - exact (proj2 (Hcells Hn) eq_refl).
Defined.

(** C7, as stated, fails on finiteness: a cell holding a one and 309
    zeros is emitted with the precio plus infinity. *)
Lemma emitted_price_not_finite :
  let df := mk_df ["Categoría"; "Mercado A"] [[Some "Ternera"; Some celda_enorme]] in
  let item := mk_item "boletin.pdf" 1 1 General None None df in
  In _normalize_general strategies
  /\ _normalize_general item df
     = Some [mk_record None None "Mercado A" "Ternera" (S754_infinity false)
                       "boletin.pdf" General]
  /\ is_finite (S754_infinity false) = false.
Proof.
  cbv zeta. split; [right; right; left; reflexivity |].
  split; [vm_compute; reflexivity | reflexivity].
Qed.

(** On a frame with a name column no strategy raises. *)
Lemma strategies_total f item df :
  In f strategies -> has_first_column df -> exists recs, f item df = Some recs.
Proof.
  intros Hf [Hc Hr].
  assert (Hrows : forall body,
            (forall row, In row (rows df) -> exists recs, body row = Some recs) ->
            exists recs, for_rows body (rows df) = Some recs).
  { intros body. clear Hr. induction (rows df) as [| row rs IH]; intros Hb.
    - now exists [].
    - cbn [for_rows]. destruct (Hb row (or_introl eq_refl)) as [r1 ->].
      destruct IH as [r2 ->]; [intros; apply Hb; now right |]. eauto. }
  assert (Hfirst : forall row, In row (rows df) -> exists t, first_text row = Some t).
  { intros row Hin. rewrite List.Forall_forall in Hr. specialize (Hr row Hin).
    destruct row as [| c row]; [| cbn; eauto].
    destruct (columns df); [congruence | discriminate]. }
  assert (Hor : forall x row, In row (rows df) -> exists t, or_first x row = Some t).
  { intros x row Hin. destruct x as [[| a t] |]; cbn [or_first]; eauto. }
  destruct Hf as [<- | [<- | [<- | []]]]; apply Hrows; intros row Hin.
  - unfold por_lugar_row. destruct (Hor (find_by_keyword ["lugar"; "feria"; "mercado"] df row) row Hin) as [t ->]. eauto.
  - unfold por_categoria_row. destruct (Hor (find_by_keyword ["categoría"; "categoria"; "tipo"] df row) row Hin) as [t ->]. eauto.
  - unfold general_row. destruct (Hfirst row Hin) as [t ->]. eauto.
Qed.

(** ** What the cleaner computes *)

Lemma leading_after s : s = leading_digits s ++ after_digits s.
Proof.
  induction s as [| c s IH]; [reflexivity |].
  cbn [leading_digits after_digits]. destruct (is_digit c); [| reflexivity].
  rewrite append_cons. now rewrite <- IH.
Qed.

Lemma leading_digits_all s : all_digits (leading_digits s) = true.
Proof.
  induction s as [| c s IH]; [reflexivity |].
  cbn [leading_digits]. destruct (is_digit c) eqn:E; [| reflexivity].
  rewrite all_digits_cons, E. exact IH.
Qed.

Lemma after_digits_no_digit s : leading_digit (after_digits s) = false.
Proof.
  induction s as [| c s IH]; [reflexivity |].
  cbn [after_digits]. destruct (is_digit c) eqn:E; [exact IH | exact E].
Qed.

(** The greedy repetition takes the whole run when the rest of the pattern
    accepts what follows. *)
Lemma rep_greedy_takes_run {T} (cont : string -> option T) x : forall s lo,
  lo <= String.length (leading_digits s) ->
  cont (after_digits s) = Some x ->
  rep_greedy [CDigit] lo None s cont = Some x.
Proof.
  induction s as [| c s IH]; intros lo Hlo Hc.
  - cbn in Hlo. assert (lo = 0) as -> by lia. exact Hc.
  - cbn [leading_digits after_digits] in Hlo, Hc.
    destruct (is_digit c) eqn:E.
    + apply rep_greedy_step; [now rewrite in_class_digit | reflexivity |].
      apply IH; [cbn [String.length] in Hlo; lia | exact Hc].
    + cbn in Hlo. assert (lo = 0) as -> by lia.
      rewrite rep_greedy_stop by now rewrite in_class_digit. exact Hc.
Qed.

Lemma match_at_number_digit c s :
  free_of currency_class (String c s) = true -> is_digit c = true ->
  match_at number_re (String c s) = Some [(1, leading_digits (String c s))].
Proof.
  intros Hf Hc. unfold match_at, number_re. cbn [rmatch].
  apply rep_greedy_takes_run.
  - cbn [leading_digits]. rewrite Hc. cbn [String.length]. lia.
  - rewrite (no_dot_ahead (after_digits (String c s))).
    + rewrite (leading_after (String c s)) at 1. now rewrite taken_app.
    + apply (free_of_suffix _ (leading_digits (String c s))).
      now rewrite <- leading_after.
Qed.

Lemma match_at_number_other c s :
  is_digit c = false -> match_at number_re (String c s) = None.
Proof.
  intros Hc. unfold match_at, number_re. cbn [rmatch].
  now rewrite rep_greedy_stop by now rewrite in_class_digit.
Qed.

Lemma search_number t :
  free_of currency_class t = true ->
  search number_re t
  = match leading_digits (skip_to_digit t) with
    | EmptyString => None
    | run => Some [(1, run)]
    end.
Proof.
  induction t as [| c t IH]; intros Hf; [reflexivity |].
  cbn [search skip_to_digit]. destruct (is_digit c) eqn:E.
  - rewrite match_at_number_digit by assumption.
    cbn [leading_digits]. now rewrite E.
  - rewrite match_at_number_other by assumption.
    apply IH. rewrite free_of_cons in Hf. now apply andb_true_iff in Hf as [_ Hf].
Qed.

(** The value of a cell, by the run of digits that is found. *)
Lemma clean_price_run (s : string) :
  clean_price (Some s)
  = match leading_digits (skip_to_digit (sub_class currency_class s)) with
    | EmptyString => None
    | run => Some (of_N (int_of_digits run))
    end.
Proof.
  unfold clean_price. destruct s as [| a s]; [reflexivity |].
  set (t := sub_class currency_class (String a s)).
  rewrite (search_number t) by apply sub_class_free.
  pose proof (leading_digits_all (skip_to_digit t)) as Hd.
  destruct (leading_digits (skip_to_digit t)) as [| c run] eqn:E; [reflexivity |].
  cbn [group Nat.eqb].
  apply of_text_digits; [exact Hd | cbn [String.length]; lia].
Qed.

(** X1.  On a cell that holds an ASCII text the cleaner returns the float
    of the number written by the first run of digits of the cell, once
    the characters [B], [/], [.], [,] and the white space are removed;
    and nothing when no digit is left. *)
Theorem clean_price_first_number (s : string) :
  is_ascii s = true ->
  clean_price (Some s)
  = option_map of_N (first_number (sub_class currency_class s)).
Proof.
  intros _. rewrite clean_price_run. unfold first_number.
  destruct (leading_digits (skip_to_digit (sub_class currency_class s)));
    reflexivity.
Qed.

Lemma clean_price_first_number_witness :
  is_ascii "B/. 1,250 -" = true
  /\ clean_price (Some "B/. 1,250 -") = Some (of_N 1250).
Proof.
  assert (H : is_ascii "B/. 1,250 -" = true) by reflexivity.
  split; [exact H |]. exact (clean_price_first_number "B/. 1,250 -" H).
Defined.

Lemma sub_class_keeps_digits s :
  free_of [CDigit] (sub_class currency_class s) = free_of [CDigit] s.
Proof.
  induction s as [| c s IH]; [reflexivity |].
  cbn [sub_class]. destruct (in_class currency_class c) eqn:E.
  - rewrite IH, free_of_cons, in_class_digit.
    destruct (is_digit c) eqn:Ed; [| reflexivity].
    exfalso. revert E. unfold currency_class. cbn [in_class existsb in_item].
    rewrite (digit_not_space c Ed).
    destruct (Ascii.eqb_spec "B" c) as [<- |]; [discriminate |].
    destruct (Ascii.eqb_spec "/" c) as [<- |]; [discriminate |].
    destruct (Ascii.eqb_spec "." c) as [<- |]; [discriminate |].
    destruct (Ascii.eqb_spec "," c) as [<- |]; [discriminate |].
    discriminate.
  - now rewrite !free_of_cons, IH.
Qed.

Lemma first_number_none t : first_number t = None <-> free_of [CDigit] t = true.
Proof.
  unfold first_number. induction t as [| c t IH]; [split; reflexivity |].
  cbn [skip_to_digit]. rewrite free_of_cons, in_class_digit.
  destruct (is_digit c) eqn:E.
  - cbn [leading_digits]. rewrite E. split; discriminate.
  - exact IH.
Qed.

(** X2.  Among the missing cell and the cells that hold an ASCII text, the
    cleaner returns nothing exactly for the missing cell and for the
    texts without any digit. *)
Theorem clean_price_none_iff_no_digit (c : cell) :
  ascii_cell c = true ->
  (clean_price c = None
   <-> match c with None => True | Some s => free_of [CDigit] s = true end).
Proof.
  intros _. destruct c as [s |]; [| split; reflexivity].
  rewrite clean_price_run, <- sub_class_keeps_digits, <- first_number_none.
  unfold first_number.
  destruct (leading_digits (skip_to_digit (sub_class currency_class s)));
    split; intros; (reflexivity || discriminate).
Qed.

Lemma clean_price_none_iff_no_digit_witness :
  ascii_cell (Some "N/D") = true
  /\ clean_price (Some "N/D") = None.
Proof.
  assert (H : ascii_cell (Some "N/D") = true) by reflexivity.
  split; [exact H |].
  apply (clean_price_none_iff_no_digit (Some "N/D") H). reflexivity.
Defined.

(** ** What the strategies emit *)

Lemma emit_if_inv item lug cat p r :
  In r (emit_if item lug cat p) ->
  r = emit item lug cat (precio r) /\ p = Some (precio r)
  /\ truthy (precio r) = true.
Proof.
  unfold emit_if. destruct p as [x |]; [| intros []].
  destruct (truthy x) eqn:E; [| intros []].
  intros [<- | []]. now repeat split.
Qed.

Lemma emit_carries item lug cat p : carries item (emit item lug cat p).
Proof. now repeat split. Qed.

Lemma strategy_emit f item df recs r :
  In f strategies -> f item df = Some recs -> In r recs ->
  exists lug cat, r = emit item lug cat (precio r).
Proof.
  intros Hf H Hin.
  destruct Hf as [<- | [<- | [<- | []]]];
    destruct (for_rows_In _ _ _ _ H Hin) as [row [recs' [H1 [H2 H3]]]].
  - unfold por_lugar_row in H2. destruct (or_first _ _) as [lug |]; [| discriminate].
    injection H2 as <-. apply in_flat_map in H3 as [[col c] [_ H3]].
    cbn [fst snd] in H3. destruct (price_column col); [| destruct H3].
    apply emit_if_inv in H3 as [H3 _]. eauto.
  - unfold por_categoria_row in H2. destruct (or_first _ _) as [cat |]; [| discriminate].
    injection H2 as <-. apply in_flat_map in H3 as [[col c] [_ H3]].
    cbn [fst snd] in H3. destruct (not_first_label df col); [| destruct H3].
    apply emit_if_inv in H3 as [H3 _]. eauto.
  - unfold general_row in H2. destruct (first_text row) as [t |]; [| discriminate].
    injection H2 as <-. apply in_flat_map in H3 as [[col c] [_ H3]].
    cbn [fst snd] in H3. apply emit_if_inv in H3 as [H3 _]. eauto.
Qed.

Lemma records_carry_item f item df recs :
  In f strategies -> f item df = Some recs -> Forall (carries item) recs.
Proof.
  intros Hf H. apply List.Forall_forall. intros r Hin.
  destruct (strategy_emit f item df recs r Hf H Hin) as [lug [cat ->]].
  apply emit_carries.
Qed.

Lemma for_rows_nil body rs :
  (forall row, In row rs -> body row = Some []) -> for_rows body rs = Some [].
Proof.
  induction rs as [| row rs IH]; intros Hb; [reflexivity |].
  cbn [for_rows]. rewrite (Hb row (or_introl eq_refl)).
  rewrite IH; [reflexivity |]. intros; apply Hb; now right.
Qed.

Lemma flat_map_nil {A B} (f : A -> list B) l :
  (forall x, In x l -> f x = []) -> flat_map f l = [].
Proof.
  induction l as [| x l IH]; intros H; [reflexivity |].
  cbn [flat_map]. rewrite (H x (or_introl eq_refl)), IH; [reflexivity |].
  intros; apply H; now right.
Qed.

(** X4.  The by-location strategy emits no record at all on a frame none
    of whose headers contains "precio", "valor", "b/" or "$", whatever its
    cells hold. *)
Theorem por_lugar_needs_price_column item df recs :
  Forall (fun col => price_column col = false) (columns df) ->
  _normalize_por_lugar item df = Some recs -> recs = [].
Proof.
  intros Hc H. rewrite List.Forall_forall in Hc.
  unfold _normalize_por_lugar in H.
  assert (Hnil : forall rs, for_rows (por_lugar_row item df) rs = Some recs -> recs = []).
  { clear H. intros rs. revert recs. induction rs as [| row rs IH]; intros recs.
    - now intros [= <-].
    - cbn [for_rows]. unfold por_lugar_row at 1.
      destruct (or_first _ _) as [lug |]; [| discriminate].
      rewrite flat_map_nil.
      + destruct (for_rows _ rs) as [recs' |]; [| discriminate].
        intros [= <-]. now apply IH.
      + intros [col c] Hin. cbn [fst snd]. apply in_combine_l in Hin.
        now rewrite (Hc col Hin). }
  eapply Hnil, H.
Qed.

(** X5.  Every record of the generic strategy comes from a row with a
    first cell and from a column after the first: its lugar is the
    stripped first cell when the first header contains "lugar" and the
    column header otherwise; its categoria is the stripped first cell when
    the first header contains "categ" and the column header otherwise.
    When the first header contains neither, lugar and categoria are the
    same column header. *)
Theorem general_fields item df recs :
  _normalize_general item df = Some recs ->
  Forall (fun r =>
            exists row t col,
              In row (rows df) /\ first_text row = Some t
              /\ In col (tl (columns df))
              /\ lugar r = (if contains "lugar" (first_label_lower df)
                            then strip t else col)
              /\ categoria r = (if contains "categ" (first_label_lower df)
                                then strip t else col))
         recs
  /\ (contains "lugar" (first_label_lower df) = false ->
      contains "categ" (first_label_lower df) = false ->
      Forall (fun r => lugar r = categoria r /\ In (lugar r) (tl (columns df))) recs).
Proof.
  intros H.
  assert (Hshape : forall r, In r recs ->
            exists row t col,
              In row (rows df) /\ first_text row = Some t
              /\ In col (tl (columns df))
              /\ lugar r = (if contains "lugar" (first_label_lower df)
                            then strip t else col)
              /\ categoria r = (if contains "categ" (first_label_lower df)
                                then strip t else col)).
  { intros r Hin.
    destruct (for_rows_In _ _ _ _ H Hin) as [row [recs' [H1 [H2 H3]]]].
    unfold general_row in H2. destruct (first_text row) as [t |] eqn:Et; [| discriminate].
    injection H2 as <-. apply in_flat_map in H3 as [[col c] [Hc H3]].
    cbn [fst snd] in H3. apply emit_if_inv in H3 as [-> _].
    exists row, t, col. repeat split; auto.
    eapply in_combine_l. exact Hc. }
  split.
  - apply List.Forall_forall. exact Hshape.
  - intros Hl Hc. apply List.Forall_forall. intros r Hin.
    destruct (Hshape r Hin) as [row [t [col [_ [_ [Hcol [H1 H2]]]]]]].
    rewrite Hl in H1. rewrite Hc in H2. rewrite H1, H2. now split.
Qed.

Lemma emit_if_length item lug cat c :
  length (emit_if item lug cat (clean_price c)) = if priced c then 1 else 0.
Proof.
  unfold emit_if, priced. destruct (clean_price c) as [x |]; [| reflexivity].
  now destruct (truthy x).
Qed.

Lemma flat_map_length_filter {A B} (f : A -> list B) (p : A -> bool) l :
  (forall x, length (f x) = if p x then 1 else 0) ->
  length (flat_map f l) = length (List.filter p l).
Proof.
  intros H. induction l as [| x l IH]; [reflexivity |].
  cbn [flat_map List.filter]. rewrite List.length_app, H, IH.
  now destruct (p x).
Qed.

Lemma filter_map_snd {A B} (p : B -> bool) (l : list (A * B)) :
  length (List.filter (fun cv => p (snd cv)) l)
  = length (List.filter p (map snd l)).
Proof.
  induction l as [| [a b] l IH]; [reflexivity |].
  cbn [List.filter map snd]. destruct (p b); cbn [length]; now rewrite IH.
Qed.

Lemma map_snd_combine {A B} (a : list A) (b : list B) :
  length a = length b -> map snd (combine a b) = b.
Proof.
  revert b. induction a as [| x a IH]; intros [| y b] H; try discriminate;
    [reflexivity |].
  cbn [combine map snd]. f_equal. apply IH. now injection H.
Qed.

(** X6.  On a frame whose rows have the width of its header, the generic
    strategy emits exactly one record for each cell outside the first
    column that cleans to a price other than zero. *)
Theorem general_one_record_per_priced_cell item df recs :
  has_first_column df ->
  _normalize_general item df = Some recs ->
  length recs = length (List.filter priced (value_cells df)).
Proof.
  intros [Hc Hr]. unfold _normalize_general, value_cells.
  revert recs. induction Hr as [| row rs Hrow _ IH]; intros recs.
  - now intros [= <-].
  - cbn [for_rows flat_map]. unfold general_row at 1.
    destruct (first_text row) as [t |]; [| discriminate].
    destruct (for_rows (general_row item df) rs) as [recs' |]; [| discriminate].
    intros [= <-]. rewrite List.length_app, List.filter_app, List.length_app.
    rewrite (IH recs' eq_refl). f_equal.
    rewrite (flat_map_length_filter _ (fun cv => priced (snd cv)))
      by (intros [col c]; apply emit_if_length).
    rewrite filter_map_snd, map_snd_combine; [reflexivity |].
    destruct row, (columns df); cbn in *; congruence.
Qed.

Lemma filter_Forall_keep {A} (p : A -> bool) l :
  Forall (fun x => p x = true) (List.filter p l).
Proof.
  apply List.Forall_forall. intros x Hx. now apply filter_In in Hx.
Qed.

Lemma filter_sublist {A} (p : A -> bool) l : sublist (List.filter p l) l.
Proof.
  induction l as [| x l IH]; cbn [List.filter]; [constructor |].
  destruct (p x); now constructor.
Qed.

Lemma not_all_na r : negb (forallb is_na r) = true -> exists s, In (Some s) r.
Proof.
  induction r as [| c r IH]; [discriminate |].
  cbn [forallb]. destruct c as [s |]; cbn [is_na andb].
  - intros _. exists s. now left.
  - intros H. destruct (IH H) as [s Hs]. exists s. now right.
Qed.

Lemma length_pad k r : (length r <= k)%nat -> length (pad k r) = k.
Proof.
  intros H. unfold pad. rewrite List.length_app, repeat_length. lia.
Qed.

Lemma width_bound body r : In r body -> (length r <= width body)%nat.
Proof.
  intros H. unfold width.
  pose proof (proj1 (list_max_le (map (@length cell) body)
                                 (list_max (map (@length cell) body)))
                    (Nat.le_refl _)) as Hle.
  rewrite List.Forall_forall in Hle. apply Hle. now apply in_map.
Qed.

Lemma make_df_widths table df :
  make_df table = Some df ->
  exists header body,
    table = header :: body
    /\ length (columns df) = length header
    /\ Forall (fun r => length r = length (columns df)) (rows df).
Proof.
  unfold make_df. destruct table as [| header [| r1 body]]; try discriminate.
  remember (r1 :: body) as b eqn:Eb.
  destruct (Nat.eqb_spec (width b) (length header)) as [Er |]; [| discriminate].
  intros [= <-]. exists header, b. cbn [columns rows].
  split; [reflexivity |]. split; [apply length_imap |].
  apply List.Forall_forall. intros r Hr. apply filter_In in Hr as [Hr _].
  apply in_map_iff in Hr as [r0 [<- Hr]].
  rewrite length_imap. apply length_pad. rewrite <- Er. now apply width_bound.
Qed.

(** X7.  A frame is built only from a table with a header row and at least
    one more row, the longest of which has the width of the header.  It
    has one column for each header cell; its rows are the rows of the
    table, each filled up with missing cells to the width of the header,
    in their order and without those that are blank. *)
Theorem make_df_shape table df :
  make_df table = Some df ->
  exists header body,
    table = header :: body /\ body <> []
    /\ width body = length header
    /\ length (columns df) = length header
    /\ Forall (fun r => length r = length (columns df)) (rows df)
    /\ no_blank_row df
    /\ rows df = List.filter (fun r => negb (forallb is_na r))
                             (map (pad (length header)) body).
Proof.
  unfold make_df. destruct table as [| header [| r1 body]]; try discriminate.
  remember (r1 :: body) as b eqn:Eb.
  destruct (Nat.eqb_spec (width b) (length header)) as [Er |]; [| discriminate].
  intros [= <-]. exists header, b. cbn [columns rows].
  split; [reflexivity |]. split; [rewrite Eb; discriminate |].
  split; [exact Er |].
  split; [apply length_imap |]. split; [| split].
  - apply List.Forall_forall. intros r Hr. apply filter_In in Hr as [Hr _].
    apply in_map_iff in Hr as [r0 [<- Hr]].
    rewrite length_imap. apply length_pad. rewrite <- Er. now apply width_bound.
  - unfold no_blank_row. cbn [rows]. apply List.Forall_forall. intros r Hr.
    apply filter_In in Hr as [_ Hr]. now apply not_all_na.
  - reflexivity.
Qed.

(** X8.  On a frame built from a raw table whose header row is not empty,
    and whose column labels are all different, none of the three
    strategies raises: each returns a list of records. *)
Theorem strategies_total_on_made_frames f item header body df :
  In f strategies -> header <> [] -> make_df (header :: body) = Some df ->
  NoDup (columns df) ->
  exists recs, f item df = Some recs.
Proof.
  intros Hf Hh Hm _. apply strategies_total; [assumption |].
  destruct (make_df_widths _ _ Hm) as [h [b [[= <- <-] [Hl Hw]]]].
  split; [| assumption].
  intros E. rewrite E in Hl. destruct header; [congruence | discriminate].
Qed.

(** X9.  Normalising a list of entries followed by another gives the
    records of the first followed by the records of the second, and raises
    exactly when one of the two does. *)
Theorem normalize_data_app l1 l2 :
  normalize_data (l1 ++ l2)%list
  = match normalize_data l1, normalize_data l2 with
    | Some a, Some b => Some (a ++ b)%list
    | _, _ => None
    end.
Proof.
  induction l1 as [| item l1 IH]; cbn [app normalize_data].
  - now destruct (normalize_data l2).
  - destruct (normalize_item item) as [recs |]; [| reflexivity].
    rewrite IH. destruct (normalize_data l1), (normalize_data l2); try reflexivity.
    now rewrite app_assoc.
Qed.

Lemma normalize_item_strategy item :
  exists f, In f strategies /\ normalize_item item = f item (data item).
Proof.
  unfold normalize_item, strategies.
  destruct (table_type_of item);
    eauto using in_eq, in_cons.
Qed.

(** X3.  Every record returned by normalize_data carries the two dates,
    the file name and the table label of one of the entries it was given. *)
Theorem normalize_data_carries tables recs :
  normalize_data tables = Some recs ->
  Forall (fun r => exists item, In item tables /\ carries item r) recs.
Proof.
  revert recs. induction tables as [| item tables IH]; intros recs; cbn [normalize_data].
  - intros [= <-]. constructor.
  - destruct (normalize_item item) as [r1 |] eqn:E1; [| discriminate].
    destruct (normalize_data tables) as [r2 |]; [| discriminate].
    intros [= <-]. apply Forall_app. split.
    + destruct (normalize_item_strategy item) as [f [Hf Hn]]. rewrite Hn in E1.
      eapply List.Forall_impl; [| exact (records_carry_item f item _ r1 Hf E1)].
      intros r Hr. exists item. split; [now left | exact Hr].
    + eapply List.Forall_impl; [| exact (IH r2 eq_refl)].
      intros r [it [Hin Hr]]. exists it. split; [now right | exact Hr].
Qed.

Lemma normalize_data_carries_witness :
  normalize_data [item_general]
  = Some [mk_record None None "Mercado A" "Ternera" (of_N 100) "boletin.pdf" General]
  /\ Forall (fun r => exists item, In item [item_general] /\ carries item r)
            [mk_record None None "Mercado A" "Ternera" (of_N 100) "boletin.pdf" General].
Proof.
  assert (H : normalize_data [item_general]
              = Some [mk_record None None "Mercado A" "Ternera" (of_N 100)
                                "boletin.pdf" General])
    by (vm_compute; reflexivity).
  split; [exact H |]. exact (normalize_data_carries _ _ H).
Defined.

Lemma por_lugar_needs_price_column_witness :
  identify_table_type (data item_monto) = PorLugar
  /\ Forall (fun col => price_column col = false) (columns (data item_monto))
  /\ _normalize_por_lugar item_monto (data item_monto) = Some []
  /\ @nil PriceRecord = [].
Proof.
  assert (Hc : Forall (fun col => price_column col = false) (columns (data item_monto)))
    by (repeat constructor).
  assert (H : _normalize_por_lugar item_monto (data item_monto) = Some [])
    by (vm_compute; reflexivity).
  split; [vm_compute; reflexivity |]. split; [exact Hc |]. split; [exact H |].
  exact (por_lugar_needs_price_column item_monto (data item_monto) [] Hc H).
Defined.

Lemma general_fields_witness :
  _normalize_general item_sin_nombre (data item_sin_nombre)
  = Some [mk_record None None "Mercado A" "Mercado A" (of_N 100) "boletin.pdf" General]
  /\ Forall (fun r => lugar r = categoria r
                      /\ In (lugar r) (tl (columns (data item_sin_nombre))))
            [mk_record None None "Mercado A" "Mercado A" (of_N 100) "boletin.pdf" General].
Proof.
  assert (H : _normalize_general item_sin_nombre (data item_sin_nombre)
              = Some [mk_record None None "Mercado A" "Mercado A" (of_N 100)
                                "boletin.pdf" General])
    by (vm_compute; reflexivity).
  split; [exact H |].
  apply (general_fields item_sin_nombre (data item_sin_nombre) _ H); reflexivity.
Defined.

Lemma general_one_record_per_priced_cell_witness :
  has_first_column (data item_general)
  /\ _normalize_general item_general (data item_general)
     = Some [mk_record None None "Mercado A" "Ternera" (of_N 100) "boletin.pdf" General]
  /\ length [mk_record None None "Mercado A" "Ternera" (of_N 100) "boletin.pdf" General]
     = length (List.filter priced (value_cells (data item_general))).
Proof.
  assert (Hf : has_first_column (data item_general)).
  { split; [discriminate | repeat constructor]. }
  assert (H : _normalize_general item_general (data item_general)
              = Some [mk_record None None "Mercado A" "Ternera" (of_N 100)
                                "boletin.pdf" General])
    by (vm_compute; reflexivity).
  split; [exact Hf |]. split; [exact H |].
  exact (general_one_record_per_priced_cell item_general (data item_general) _ Hf H).
Defined.

Lemma make_df_shape_witness :
  make_df [[Some "Lugar"; None]; []; [Some "Divisa"]; [Some "Ocu"; Some "150"]]
  = Some (mk_df ["Lugar"; "col_1"]
                [[Some "Divisa"; None]; [Some "Ocu"; Some "150"]])
  /\ no_blank_row (mk_df ["Lugar"; "col_1"]
                         [[Some "Divisa"; None]; [Some "Ocu"; Some "150"]]).
Proof.
  assert (H : make_df [[Some "Lugar"; None]; []; [Some "Divisa"];
                       [Some "Ocu"; Some "150"]]
              = Some (mk_df ["Lugar"; "col_1"]
                            [[Some "Divisa"; None]; [Some "Ocu"; Some "150"]]))
    by (vm_compute; reflexivity).
  split; [exact H |].
  destruct (make_df_shape _ _ H) as [h [b [_ [_ [_ [_ [_ [Hn _]]]]]]]]. exact Hn.
Defined.

Lemma strategies_total_on_made_frames_witness :
  In _normalize_por_lugar strategies
  /\ [Some "Lugar"; Some "Precio"] <> []
  /\ make_df [[Some "Lugar"; Some "Precio"]; [Some "Divisa"; Some "150"]]
     = Some (mk_df ["Lugar"; "Precio"] [[Some "Divisa"; Some "150"]])
  /\ NoDup (columns (mk_df ["Lugar"; "Precio"] [[Some "Divisa"; Some "150"]]))
  /\ exists recs,
       _normalize_por_lugar item_general
         (mk_df ["Lugar"; "Precio"] [[Some "Divisa"; Some "150"]]) = Some recs.
Proof.
  assert (Hf : In _normalize_por_lugar strategies) by (left; reflexivity).
  assert (Hh : [Some "Lugar"; Some "Precio"] <> ([] : list cell)) by discriminate.
  assert (H : make_df [[Some "Lugar"; Some "Precio"]; [Some "Divisa"; Some "150"]]
              = Some (mk_df ["Lugar"; "Precio"] [[Some "Divisa"; Some "150"]]))
    by (vm_compute; reflexivity).
  assert (Hn : NoDup (columns (mk_df ["Lugar"; "Precio"]
                                     [[Some "Divisa"; Some "150"]]))).
  { cbn [columns]. apply NoDup_cons. split; [| apply NoDup_singleton].
    intros Hin%list_elem_of_In. destruct Hin as [Hin | []]. discriminate. }
  split; [exact Hf |]. split; [exact Hh |]. split; [exact H |].
  split; [exact Hn |].
  exact (strategies_total_on_made_frames _ item_general _ _ _ Hf Hh H Hn).
Defined.

(** ** More on the dates of a file name *)

Lemma leading_digit_not_free s :
  leading_digit s = true -> free_of [CDigit] s = false.
Proof.
  destruct s as [| c s]; [discriminate |]. cbn [leading_digit]. intros H.
  now rewrite free_of_cons, in_class_digit, H.
Qed.

Lemma strip_left_suffix s : exists p, s = p ++ strip_left s.
Proof.
  induction s as [| c s [p IH]]; [now exists "" |].
  cbn [strip_left]. destruct (is_space c).
  - exists (String c p). rewrite append_cons. now f_equal.
  - now exists "".
Qed.

Lemma free_of_strip_left s :
  free_of [CDigit] s = true -> leading_digit (strip_left s) = false.
Proof.
  intros H. destruct (strip_left_suffix s) as [p Hp].
  rewrite Hp in H. apply free_of_suffix in H.
  destruct (leading_digit (strip_left s)) eqn:E; [| reflexivity].
  apply leading_digit_not_free in E. congruence.
Qed.

Lemma free_of_cannot_start s :
  free_of [CDigit] s = true -> can_start s = false.
Proof.
  intros H. unfold can_start. rewrite (free_of_strip_left s H). cbn [orb].
  assert (Hp : forall w, match strip_prefix w s with
                         | Some r => leading_digit (strip_left r)
                         | None => false
                         end = false).
  { intros w. destruct (strip_prefix w s) as [r |] eqn:E; [| reflexivity].
    apply strip_prefix_spec in E. rewrite E in H. apply free_of_suffix in H.
    now apply free_of_strip_left. }
  now rewrite !Hp.
Qed.

(** X10.  A file name without any digit gives no dates: the result is
    (None, None). *)
Theorem extract_date_needs_digit filename :
  free_of [CDigit] filename = true ->
  extract_date_from_filename filename = (None, None).
Proof.
  intros H. unfold extract_date_from_filename.
  destruct (search filename_re filename) as [m |] eqn:E; [| reflexivity].
  apply search_suffix in E as [p [s' [-> E]]].
  apply filename_re_needs_start in E. apply free_of_suffix in H.
  apply free_of_cannot_start in H. congruence.
Qed.

Lemma extract_date_needs_digit_witness :
  free_of [CDigit] "Precios semana.pdf" = true
  /\ extract_date_from_filename "Precios semana.pdf" = (None, None).
Proof.
  assert (H : free_of [CDigit] "Precios semana.pdf" = true) by reflexivity.
  split; [exact H |]. exact (extract_date_needs_digit _ H).
Defined.

Lemma make_datetime_valida y m d x :
  make_datetime y m d = Some x -> fecha_valida x.
Proof.
  unfold make_datetime.
  destruct (_ && _) eqn:E; [| discriminate]. intros [= <-].
  rewrite !andb_true_iff, !N.leb_le in E. unfold fecha_valida. cbn [year month day].
  lia.
Qed.

Lemma strptime_dmY_valida s x : strptime_dmY s = Some x -> fecha_valida x.
Proof.
  unfold strptime_dmY.
  destruct (split_on "-" s) as [| d [| m [| y [| ? ?]]]]; try discriminate.
  destruct (field_1_2 d), (field_1_2 m), (field_4 y); try discriminate.
  apply make_datetime_valida.
Qed.

(** X11.  The resolver returns both dates or none, never one alone, and
    every date it returns exists in the calendar: a year from 1 to 9999,
    a month from 1 to 12, a day of that month. *)
Theorem extract_date_both_or_none filename :
  match extract_date_from_filename filename with
  | (None, None) => True
  | (Some a, Some b) => fecha_valida a /\ fecha_valida b
  | _ => False
  end.
Proof.
  unfold extract_date_from_filename.
  destruct (search filename_re filename) as [m |]; [| exact I].
  destruct (groups6 m) as [[[[[[d1 m1] y1] d2] m2] y2] |]; [| exact I].
  cbv zeta.
  destruct (strptime_dmY (dmy_text d1 m1 (expand_year y1))) as [a |] eqn:Ea; [| exact I].
  destruct (strptime_dmY (dmy_text d2 m2 (expand_year y2))) as [b |] eqn:Eb; [| exact I].
  split; eapply strptime_dmY_valida; eassumption.
Qed.

(** ** Exact prices *)

Lemma binary_round_aux_exact m e :
  (Zpos (digits2_pos m) = 53)%Z -> (-1074 <= e <= 971)%Z ->
  binary_round_aux prec emax false (Zpos m) e loc_Exact = S754_finite false m e.
Proof.
  intros Hd He.
  assert (Hs : forall l, shr_fexp prec emax (Zpos m) e l
                         = (shr_record_of_loc (Zpos m) l, e)).
  { intros l. unfold shr_fexp, shr. cbn [Zdigits2].
    destruct (fexp prec emax (Zpos (digits2_pos m) + e) - e)%Z eqn:E; try reflexivity.
    exfalso. unfold fexp, emin, prec, emax in E. lia. }
  unfold binary_round_aux. rewrite Hs.
  cbn [shr_record_of_loc shr_m loc_of_shr_record shr_r shr_s round_nearest_even].
  rewrite Hs. cbn [shr_record_of_loc shr_m].
  destruct (Z.leb_spec e (emax - prec)) as [_ | H]; [reflexivity |].
  unfold emax, prec in H. lia.
Qed.

Lemma iter_xO_value k : forall p,
  Zpos (Pos.iter xO p k) = (Zpos p * 2 ^ Zpos k)%Z.
Proof.
  induction k as [| k IH] using Pos.peano_ind; intros p.
  - cbn [Pos.iter]. lia.
  - rewrite Pos.iter_succ, Pos2Z.inj_succ, Z.pow_succ_r by lia.
    rewrite Pos2Z.inj_xO, IH. lia.
Qed.

(** A natural number below [2^53] is a float: nothing is rounded. *)
Lemma of_N_small p :
  (Zpos p < 2 ^ 53)%Z ->
  exists m e, of_N (Npos p) = S754_finite false m e
              /\ (e <= 0)%Z /\ (Zpos m = Zpos p * 2 ^ (- e))%Z.
Proof.
  intros Hp. unfold of_N, binary_normalize. cbn [Z.of_N]. unfold binary_round.
  destruct (digits2_bounds p) as [B1 _].
  assert (Hd : (Zpos (digits2_pos p) <= 53)%Z).
  { destruct (Z.leb_spec (Zpos (digits2_pos p)) 53) as [H | H]; [exact H |].
    assert (2 ^ 53 <= 2 ^ (Zpos (digits2_pos p) - 1))%Z by (apply Z.pow_le_mono_r; lia).
    lia. }
  rewrite Z.add_0_r, fexp_normal by lia.
  unfold shl_align.
  destruct (Zpos (digits2_pos p) - 53 - 0)%Z as [| k | k] eqn:Ek; try lia.
  - exists p, 0%Z. rewrite binary_round_aux_exact by lia.
    split; [reflexivity |]. split; [lia |]. cbn. lia.
  - exists (shift_pos k p), (Zpos (digits2_pos p) - 53)%Z.
    unfold shift_pos. rewrite binary_round_aux_exact
      by (rewrite ?digits2_iter_xO; lia).
    split; [reflexivity |]. split; [lia |].
    rewrite iter_xO_value. f_equal. f_equal. lia.
Qed.

Lemma to_Q_of_N n :
  (n < 2 ^ 53)%N -> to_Q (of_N n) = Some (Z.of_N n # 1)%Q.
Proof.
  intros Hn. destruct n as [| p]; [reflexivity |].
  assert (Hp : (Zpos p < 2 ^ 53)%Z).
  { change (Zpos p) with (Z.of_N (Npos p)).
    change (2 ^ 53)%Z with (Z.of_N (2 ^ 53)). lia. }
  destruct (of_N_small p Hp) as [m [e [-> [He Hm]]]].
  cbn [to_Q Z.of_N]. f_equal.
  rewrite <- (Qred_identity (Zpos p # 1)) by (cbn [Qnum Qden]; apply Z.gcd_1_r).
  apply Qred_complete.
  destruct e as [| q | q]; try lia.
  - unfold inject_Z, Qeq. cbn [Qnum Qden]. change (- 0)%Z with 0%Z in Hm.
    rewrite Z.pow_0_r in *. lia.
  - unfold Qeq. cbn [Qnum Qden]. rewrite Pos2Z.inj_pow.
    change (- Zneg q)%Z with (Zpos q) in Hm. lia.
Qed.

(** X23.  On a cell that holds an ASCII text, when the number written by
    the first run of digits of the cleaned cell is below 2^53 (any run of
    up to 15 digits), the price returned is exactly that number: the
    conversion to a float rounds nothing. *)
Theorem clean_price_exact s n :
  is_ascii s = true ->
  first_number (sub_class currency_class s) = Some n -> (n < 2 ^ 53)%N ->
  exists x, clean_price (Some s) = Some x /\ to_Q x = Some (Z.of_N n # 1)%Q.
Proof.
  intros _ Hf Hn. rewrite clean_price_run. unfold first_number in Hf.
  destruct (leading_digits (skip_to_digit (sub_class currency_class s)));
    [discriminate |].
  injection Hf as <-. eexists. split; [reflexivity |]. now apply to_Q_of_N.
Qed.

Lemma clean_price_exact_witness :
  is_ascii "B/. 1,250" = true
  /\ first_number (sub_class currency_class "B/. 1,250") = Some 1250%N
  /\ (1250 < 2 ^ 53)%N
  /\ exists x, clean_price (Some "B/. 1,250") = Some x
               /\ to_Q x = Some (1250 # 1)%Q.
Proof.
  assert (Hf : first_number (sub_class currency_class "B/. 1,250") = Some 1250%N)
    by reflexivity.
  assert (Hn : (1250 < 2 ^ 53)%N) by reflexivity.
  split; [reflexivity |]. split; [exact Hf |]. split; [exact Hn |].
  exact (clean_price_exact "B/. 1,250" 1250 eq_refl Hf Hn).
Defined.

End PdfExtractorFacts.

(* ===================================================================== *)
(** * Properties of analisis_estacional.py *)
(* ===================================================================== *)

Module AnalisisEstacionalFacts.
Import AnalisisEstacional.
Local Open Scope Qc_scope.

(** ** The best months *)

Section Orden.
Variable antes : Qc -> Qc -> bool.
Hypothesis antes_total : forall x y, antes x y = true \/ antes y x = true.
Hypothesis antes_trans :
  forall x y z, antes x y = true -> antes y z = true -> antes x z = true.

Lemma insertar_Permutation x s : Permutation (insertar antes x s) (x :: s).
Proof.
  induction s as [| y s IH]; cbn [insertar]; [reflexivity |].
  destruct (antes (Promedio x) (Promedio y)); [reflexivity |].
  rewrite IH. apply perm_swap.
Qed.

Lemma ordenar_Permutation t : Permutation (ordenar antes t) t.
Proof.
  induction t as [| x t IH]; [reflexivity |].
  unfold ordenar in *. cbn [foldr]. rewrite insertar_Permutation.
  now constructor.
Qed.

Lemma insertar_sorted x s :
  StronglySorted (delante antes) s ->
  List.Forall (fun y => (indice x < indice y)%nat) s ->
  StronglySorted (delante antes) (insertar antes x s).
Proof.
  induction s as [| y s IH]; intros Hs Hx; cbn [insertar].
  - repeat constructor.
  - inversion Hs as [| ? ? Hs' Hy]; subst.
    inversion Hx as [| ? ? Hxy Hx']; subst.
    destruct (antes (Promedio x) (Promedio y)) eqn:E.
    + constructor; [assumption |]. constructor.
      * split; auto.
      * rewrite List.Forall_forall in *. intros z Hz. split.
        -- destruct (Hy z Hz) as [Hyz _]. eauto.
        -- intros _. auto.
    + constructor; [now apply IH |].
      eapply Permutation_Forall; [symmetry; apply insertar_Permutation |].
      constructor; [| assumption].
      split.
      * destruct (antes_total (Promedio x) (Promedio y)); congruence.
      * congruence.
Qed.

Lemma ordenar_sorted t :
  meses_crecientes t -> StronglySorted (delante antes) (ordenar antes t).
Proof.
  induction t as [| x t IH]; intros Ht.
  - constructor.
  - inversion Ht as [| ? ? Ht' Hx]; subst.
    unfold ordenar in *. cbn [foldr]. apply insertar_sorted; [now apply IH |].
    eapply Permutation_Forall; [symmetry; apply ordenar_Permutation | exact Hx].
Qed.

Lemma sorted_app_inv {A} (R : A -> A -> Prop) l1 l2 :
  StronglySorted R (l1 ++ l2) ->
  StronglySorted R l1 /\ forall a b, In a l1 -> In b l2 -> R a b.
Proof.
  induction l1 as [| x l1 IH]; cbn [app]; intros H.
  - split; [constructor | intros ? ? []].
  - inversion H as [| ? ? H' Hx]; subst. destruct (IH H') as [IH1 IH2]. split.
    + constructor; [assumption |].
      rewrite List.Forall_forall in *. intros; apply Hx, in_or_app; now left.
    + intros a b [<- | Ha] Hb; [| now apply IH2].
      rewrite List.Forall_forall in Hx. apply Hx, in_or_app. now right.
Qed.

Lemma primeros_seleccion n t :
  meses_crecientes t -> seleccion (delante antes) n t (primeros antes n t).
Proof.
  intros Ht. unfold primeros, seleccion.
  pose proof (ordenar_sorted t Ht) as Hs.
  pose proof (ordenar_Permutation t) as Hp.
  rewrite <- (firstn_skipn n (ordenar antes t)) in Hs.
  apply sorted_app_inv in Hs as [Hs1 Hs2].
  split; [| split; [| split]].
  - rewrite List.length_firstn. now rewrite (Permutation_length Hp).
  - intros r Hr. eapply Permutation_in; [exact Hp |].
    rewrite <- (firstn_skipn n). apply in_or_app. now left.
  - intros r u Hr Hu Hnu. apply Hs2; [assumption |].
    apply (Permutation_in _ (Permutation_sym Hp)) in Hu.
    rewrite <- (firstn_skipn n (ordenar antes t)) in Hu.
    apply in_app_or in Hu as [Hu | Hu]; [contradiction | assumption].
  - assumption.
Qed.
End Orden.

Lemma seleccion_impl (R R' : FilaMes -> FilaMes -> Prop) n t sel :
  (forall r u, R r u -> R' r u) -> seleccion R n t sel -> seleccion R' n t sel.
Proof.
  intros HR [H1 [H2 [H3 H4]]]. split; [| split; [| split]]; auto.
  clear -HR H4. induction H4 as [| x l _ IH Hx]; constructor; auto.
  eapply List.Forall_impl; [| exact Hx]. auto.
Qed.

Lemma delante_compra r u :
  delante (fun x y => bool_decide (x ≤ y)) r u -> mejor_compra r u.
Proof.
  intros [H1 H2]. apply bool_decide_eq_true in H1.
  destruct (decide (Promedio u ≤ Promedio r)) as [Hle | Hnle].
  - right. split; [now apply Qcle_antisym |].
    apply H2. now apply bool_decide_eq_true.
  - left. now apply Qclt_nge.
Qed.

Lemma delante_venta r u :
  delante (fun x y => bool_decide (y ≤ x)) r u -> mejor_venta r u.
Proof.
  intros [H1 H2]. apply bool_decide_eq_true in H1.
  destruct (decide (Promedio r ≤ Promedio u)) as [Hle | Hnle].
  - right. split; [now apply Qcle_antisym |].
    apply H2. now apply bool_decide_eq_true.
  - left. now apply Qclt_nge.
Qed.

(** C9.  On a table indexed by growing months, the best months to buy
    are the min(3, n) rows of lowest mean and the best months to sell the
    min(3, n) rows of highest mean, n being the number of rows; of two
    months with the same mean the one with the smaller month index is
    preferred, in the selection and in its order. *)
Theorem identificar_mejores_meses_spec t :
  meses_crecientes t ->
  seleccion mejor_compra 3 t (fst (identificar_mejores_meses t))
  /\ seleccion mejor_venta 3 t (snd (identificar_mejores_meses t)).
Proof.
  intros Ht. cbn [identificar_mejores_meses fst snd]. split.
  - apply (seleccion_impl _ _ _ _ _ delante_compra).
    apply primeros_seleccion; [| | assumption].
    + intros x y. rewrite !bool_decide_eq_true. apply Qc_le_total.
    + intros x y z. rewrite !bool_decide_eq_true. apply Qcle_trans.
  - apply (seleccion_impl _ _ _ _ _ delante_venta).
    apply primeros_seleccion; [| | assumption].
    + intros x y. rewrite !bool_decide_eq_true. apply Qc_le_total.
    + intros x y z. rewrite !bool_decide_eq_true. intros. now apply Qcle_trans with y.
Qed.

Lemma seq_crecientes n : forall a,
  StronglySorted lt (seq a n).
Proof.
  induction n as [| n IH]; intros a; cbn [seq]; constructor; [apply IH |].
  apply List.Forall_forall. intros x Hx. apply in_seq in Hx. lia.
Qed.

Lemma filter_crecientes {A} (R : A -> A -> Prop) f l :
  StronglySorted R l -> StronglySorted R (List.filter f l).
Proof.
  induction 1 as [| x l _ IH Hx]; cbn [List.filter]; [constructor |].
  destruct (f x); [| assumption]. constructor; [assumption |].
  rewrite List.Forall_forall in *. intros y Hy. apply filter_In in Hy as [Hy _]. auto.
Qed.

(** The table of [analizar_por_mes] is indexed by growing months. *)
Lemma analizar_por_mes_crecientes df : meses_crecientes (analizar_por_mes df).
Proof.
  unfold analizar_por_mes, meses_crecientes, claves.
  set (ks := List.filter _ _).
  assert (Hk : StronglySorted lt ks) by apply filter_crecientes, seq_crecientes.
  induction Hk as [| k ks' _ IH Hx]; cbn [map]; constructor; [assumption |].
  rewrite List.Forall_forall in *. intros r Hr.
  apply in_map_iff in Hr as [m [<- Hm]]. cbn [indice fila]. auto.
Qed.

Lemma identificar_mejores_meses_spec_witness :
  meses_crecientes tabla_cuatro_meses
  /\ seleccion mejor_compra 3 tabla_cuatro_meses
       (fst (identificar_mejores_meses tabla_cuatro_meses)).
Proof.
  assert (H : meses_crecientes tabla_cuatro_meses).
  { unfold meses_crecientes, tabla_cuatro_meses.
    repeat (constructor; cbn [indice fila_simple]; try lia). }
  split; [exact H |]. apply (identificar_mejores_meses_spec tabla_cuatro_meses H).
Defined.

(** The selection on the table of four months: May, December and January
    to buy; March, January and May to sell. *)
Example mejores_meses_cuatro :
  map indice (fst (identificar_mejores_meses tabla_cuatro_meses)) = [5; 12; 1]%nat
  /\ map indice (snd (identificar_mejores_meses tabla_cuatro_meses)) = [3; 1; 5]%nat.
Proof. split; vm_compute; reflexivity. Qed.

(** C9, as stated, fails on the number of months: a table of two months
    gives two months to buy and two to sell, not three. *)
Lemma mejores_meses_menos_de_tres :
  meses_crecientes tabla_dos_meses
  /\ length (fst (identificar_mejores_meses tabla_dos_meses)) = 2%nat
  /\ length (snd (identificar_mejores_meses tabla_dos_meses)) = 2%nat
  /\ length (fst (identificar_mejores_meses tabla_dos_meses)) <> 3%nat.
Proof.
  split.
  - unfold meses_crecientes, tabla_dos_meses.
    repeat (constructor; cbn [indice fila_simple]; try lia).
  - split; [| split]; vm_compute; try reflexivity. discriminate.
Qed.

(** ** The figures of the report and the shape of the monthly table *)

Lemma ordenados_sorted l : StronglySorted Qcle (ordenados l).
Proof.
  unfold ordenados. apply Sorted_StronglySorted.
  - intros x y z. apply Qcle_trans.
  - apply Sorted_merge_sort. apply _.
Qed.

Lemma ordenados_perm l : Permutation (ordenados l) l.
Proof. unfold ordenados. apply merge_sort_Permutation. Qed.

Lemma sorted_hd_le (s : list Qc) x :
  StronglySorted Qcle s -> In x s -> hd 0 s <= x.
Proof.
  intros Hs Hx. destruct s as [| a s]; [destruct Hx |].
  inversion Hs as [| ? ? _ Ha]; subst. cbn [hd].
  destruct Hx as [<- | Hx]; [apply Qcle_refl |].
  rewrite List.Forall_forall in Ha. auto.
Qed.

Lemma sorted_le_last (s : list Qc) :
  StronglySorted Qcle s -> forall x, In x s -> x <= List.last s 0.
Proof.
  induction 1 as [| a s Hs IH Ha]; intros x Hx; [destruct Hx |].
  destruct s as [| b s]; cbn [List.last].
  - destruct Hx as [<- | []]. apply Qcle_refl.
  - destruct Hx as [<- | Hx].
    + apply Qcle_trans with b.
      * rewrite List.Forall_forall in Ha. apply Ha. now left.
      * apply IH. now left.
    + now apply IH.
Qed.

Lemma last_In {A} (s : list A) d : s <> [] -> In (List.last s d) s.
Proof.
  induction s as [| a s IH]; [congruence |]. intros _.
  destruct s as [| b s]; [now left |]. right. apply IH. discriminate.
Qed.

Lemma ordenados_not_nil l : l <> [] -> ordenados l <> [].
Proof.
  intros Hl E. apply Hl. apply Permutation_nil.
  rewrite <- E. apply ordenados_perm.
Qed.

Lemma minimum_spec l :
  l <> [] -> In (minimum l) l /\ forall y, In y l -> minimum l <= y.
Proof.
  intros Hl. unfold minimum. split.
  - apply (Permutation_in _ (ordenados_perm l)).
    pose proof (ordenados_not_nil l Hl). destruct (ordenados l); [congruence | now left].
  - intros y Hy. apply sorted_hd_le; [apply ordenados_sorted |].
    apply (Permutation_in _ (Permutation_sym (ordenados_perm l))), Hy.
Qed.

Lemma maximum_spec l :
  l <> [] -> In (maximum l) l /\ forall y, In y l -> y <= maximum l.
Proof.
  intros Hl. unfold maximum. split.
  - apply (Permutation_in _ (ordenados_perm l)).
    apply last_In. now apply ordenados_not_nil.
  - intros y Hy. apply sorted_le_last; [apply ordenados_sorted |].
    apply (Permutation_in _ (Permutation_sym (ordenados_perm l))), Hy.
Qed.

Section Cabeza.
Variable antes : Qc -> Qc -> bool.
Hypothesis antes_total : forall x y, antes x y = true \/ antes y x = true.
Hypothesis antes_trans :
  forall x y z, antes x y = true -> antes y z = true -> antes x z = true.

Lemma insertar_por_clave x s :
  StronglySorted (por_clave antes) s -> StronglySorted (por_clave antes) (insertar antes x s).
Proof.
  induction 1 as [| y s Hs IH Hy]; cbn [insertar].
  - repeat constructor.
  - destruct (antes (Promedio x) (Promedio y)) eqn:E.
    + constructor; [now constructor |]. constructor; [exact E |].
      eapply List.Forall_impl; [| exact Hy]. intros z Hz. unfold por_clave in *.
      eapply antes_trans; eassumption.
    + constructor; [assumption |].
      eapply Permutation_Forall; [symmetry; apply insertar_Permutation |].
      constructor; [| assumption]. unfold por_clave.
      destruct (antes_total (Promedio x) (Promedio y)); congruence.
Qed.

Lemma ordenar_por_clave t : StronglySorted (por_clave antes) (ordenar antes t).
Proof.
  induction t as [| x t IH]; [constructor |].
  unfold ordenar in *. cbn [foldr]. now apply insertar_por_clave.
Qed.

Lemma primeros_cabeza n t :
  t <> [] ->
  exists c rest, primeros antes (S n) t = c :: rest /\ In c t
                 /\ forall u, In u t -> antes (Promedio c) (Promedio u) = true.
Proof.
  intros Ht. unfold primeros.
  pose proof (ordenar_por_clave t) as Hs.
  pose proof (ordenar_Permutation antes t) as Hp.
  destruct (ordenar antes t) as [| c s] eqn:E.
  - apply Permutation_nil in Hp. congruence.
  - exists c, (firstn n s). cbn [firstn]. split; [reflexivity |].
    split; [apply (Permutation_in _ Hp); now left |].
    intros u Hu. apply (Permutation_in _ (Permutation_sym Hp)) in Hu.
    inversion Hs as [| ? ? _ Hc]; subst.
    destruct Hu as [<- | Hu].
    + destruct (antes_total (Promedio c) (Promedio c)); assumption.
    + rewrite List.Forall_forall in Hc. now apply Hc.
Qed.
End Cabeza.

Lemma antes_le_total x y : bool_decide (x <= y) = true \/ bool_decide (y <= x) = true.
Proof.
  destruct (Qclt_le_dec x y) as [H | H].
  - left. apply bool_decide_eq_true. now apply Qclt_le_weak.
  - right. now apply bool_decide_eq_true.
Qed.

Lemma antes_le_trans x y z :
  bool_decide (x <= y) = true -> bool_decide (y <= z) = true ->
  bool_decide (x <= z) = true.
Proof.
  rewrite !bool_decide_eq_true. apply Qcle_trans.
Qed.

Lemma nsmallest_cabeza n t :
  t <> [] ->
  exists c rest, nsmallest (S n) t = c :: rest
                 /\ Promedio c = minimum (map Promedio t).
Proof.
  intros Ht.
  destruct (primeros_cabeza (fun x y => bool_decide (x <= y)) antes_le_total antes_le_trans n t Ht)
    as [c [rest [E [Hin Hall]]]].
  exists c, rest. split; [exact E |].
  assert (Hm : map Promedio t <> []) by (destruct t; [congruence | discriminate]).
  destruct (minimum_spec _ Hm) as [H1 H2].
  apply Qcle_antisym.
  - apply in_map_iff in H1 as [u [<- Hu]].
    pose proof (Hall u Hu) as Hb. now apply bool_decide_eq_true in Hb.
  - apply H2. now apply in_map.
Qed.

Lemma nlargest_cabeza n t :
  t <> [] ->
  exists c rest, nlargest (S n) t = c :: rest
                 /\ Promedio c = maximum (map Promedio t).
Proof.
  intros Ht.
  destruct (primeros_cabeza (fun x y => bool_decide (y <= x))
              (fun x y => antes_le_total y x)
              (fun x y z H1 H2 => antes_le_trans z y x H2 H1) n t Ht)
    as [c [rest [E [Hin Hall]]]].
  exists c, rest. split; [exact E |].
  assert (Hm : map Promedio t <> []) by (destruct t; [congruence | discriminate]).
  destruct (maximum_spec _ Hm) as [H1 H2].
  apply Qcle_antisym.
  - apply H2. now apply in_map.
  - apply in_map_iff in H1 as [u [<- Hu]].
    pose proof (Hall u Hu) as Hb. now apply bool_decide_eq_true in Hb.
Qed.

(** X12.  From a monthly table without rows the report raises (the first
    row of an empty selection).  From any other table the figures are
    computed: the price of the month to buy is the lowest mean of the
    table, the price of the month to sell is the highest, and the gain,
    their difference, equals the difference of the summary and is never
    negative. *)
Theorem cifras_de_tabla_spec t :
  match t with
  | [] => cifras_de_tabla t = None
  | _ :: _ =>
      exists c, cifras_de_tabla t = Some c
                /\ precio_min_global c = Some (precio_compra c)
                /\ precio_max_global c = Some (precio_venta c)
                /\ diferencia c = Some (ganancia c)
                /\ 0 <= ganancia c
  end.
Proof.
  destruct t as [| r t]; [reflexivity |].
  set (tt := r :: t).
  assert (Ht : tt <> []) by discriminate.
  destruct (nsmallest_cabeza 2 tt Ht) as [c [rc [Ec Hc]]].
  destruct (nlargest_cabeza 2 tt Ht) as [v [rv [Ev Hv]]].
  unfold cifras_de_tabla, identificar_mejores_meses. rewrite Ec, Ev.
  unfold cifras_reporte. eexists. split; [reflexivity |].
  cbn [precio_min_global precio_max_global diferencia ganancia precio_compra
       precio_venta].
  unfold tt at 1 2 3 4. cbn [map serie_min serie_max resta]. fold tt.
  change (Promedio r :: map Promedio t) with (map Promedio tt).
  rewrite Hc, Hv. split; [reflexivity |]. split; [reflexivity |].
  split; [reflexivity |].
  assert (Hm : map Promedio tt <> []) by discriminate.
  destruct (minimum_spec _ Hm) as [H1 _].
  destruct (maximum_spec _ Hm) as [_ H2].
  specialize (H2 _ H1).
  unfold Qcminus. rewrite <- (Qcplus_opp_r (minimum (map Promedio tt))).
  now apply Qcplus_le_compat; [| apply Qcle_refl].
Qed.

(** X13.  With three months or fewer in the table, every month is listed
    among the best months to buy and also among the best months to
    sell. *)
Theorem pocos_meses_misma_lista t :
  (length t <= 3)%nat ->
  Permutation (fst (identificar_mejores_meses t)) t
  /\ Permutation (snd (identificar_mejores_meses t)) t.
Proof.
  intros H. cbn [identificar_mejores_meses fst snd]. unfold nsmallest, nlargest, primeros.
  split.
  - rewrite firstn_all2; [apply ordenar_Permutation |].
    now rewrite (Permutation_length (ordenar_Permutation _ t)).
  - rewrite firstn_all2; [apply ordenar_Permutation |].
    now rewrite (Permutation_length (ordenar_Permutation _ t)).
Qed.

Lemma pocos_meses_misma_lista_witness :
  (length tabla_dos_meses <= 3)%nat
  /\ Permutation (fst (identificar_mejores_meses tabla_dos_meses)) tabla_dos_meses
  /\ Permutation (snd (identificar_mejores_meses tabla_dos_meses)) tabla_dos_meses.
Proof.
  assert (H : (length tabla_dos_meses <= 3)%nat) by (cbn; lia).
  split; [exact H |]. exact (pocos_meses_misma_lista tabla_dos_meses H).
Defined.


Lemma In_claves df m : In m (claves df) <-> In m (map mes df).
Proof.
  unfold claves. rewrite filter_In, in_seq, existsb_exists. split.
  - intros [_ [x [Hx E]]]. apply Nat.eqb_eq in E. now subst.
  - intros H. split.
    + split; [lia |]. cbn [plus].
      pose proof (proj1 (list_max_le (map mes df) (list_max (map mes df))) (Nat.le_refl _)) as Hle.
      rewrite List.Forall_forall in Hle. specialize (Hle m H). lia.
    + exists m. split; [assumption | apply Nat.eqb_refl].
Qed.

Lemma indices_claves df : map indice (analizar_por_mes df) = claves df.
Proof.
  unfold analizar_por_mes. rewrite map_map. cbn [indice fila]. apply map_id.
Qed.

Lemma claves_crecientes df : StronglySorted lt (claves df).
Proof. unfold claves. apply filter_crecientes, seq_crecientes. Qed.

(** X14.  The monthly table has one row for each month that occurs in the
    data and for no other, in strictly increasing order of the month. *)
Theorem analizar_por_mes_meses df :
  StronglySorted lt (map indice (analizar_por_mes df))
  /\ forall m, In m (map indice (analizar_por_mes df)) <-> In m (map mes df).
Proof.
  rewrite indices_claves. split; [apply claves_crecientes |].
  intros m. apply In_claves.
Qed.


End AnalisisEstacionalFacts.

(* ===================================================================== *)
(** * Properties of the monthly table in binary64 *)
(* ===================================================================== *)

Module AgregacionFacts.
Import PyStr PyFloat PyFloatFacts PdfExtractorFacts Agregacion.

(** ** Whole numbers as floats *)

Section Enteros.
Local Open Scope Z_scope.

Lemma shr_1_exact z :
  0 <= z -> shr_1 (Build_shr_record (2 * z) false false) = Build_shr_record z false false.
Proof. destruct z as [| p | p]; [reflexivity | reflexivity | lia]. Qed.

Lemma pow2_xO p : 2 ^ Zpos p~0 = 2 ^ Zpos p * 2 ^ Zpos p.
Proof.
  replace (Zpos p~0) with (Zpos p + Zpos p) by lia. now rewrite Z.pow_add_r by lia.
Qed.

Lemma pow2_xI p : 2 ^ Zpos p~1 = 2 * (2 ^ Zpos p * 2 ^ Zpos p).
Proof.
  replace (Zpos p~1) with (1 + (Zpos p + Zpos p)) by lia.
  now rewrite !Z.pow_add_r by lia.
Qed.

Lemma iter_shr_exact p : forall z, 0 <= z ->
  SpecFloat.iter_pos shr_1 p (Build_shr_record (z * 2 ^ Zpos p) false false)
  = Build_shr_record z false false.
Proof.
  induction p as [p IH | p IH |]; intros z Hz; cbn [SpecFloat.iter_pos].
  - replace (z * 2 ^ Zpos p~1) with (2 * ((z * 2 ^ Zpos p) * 2 ^ Zpos p))
      by (rewrite pow2_xI; ring).
    assert (0 < 2 ^ Zpos p) by (apply Z.pow_pos_nonneg; lia).
    rewrite shr_1_exact by nia.
    rewrite IH by nia. now apply IH.
  - replace (z * 2 ^ Zpos p~0) with ((z * 2 ^ Zpos p) * 2 ^ Zpos p)
      by (rewrite pow2_xO; ring).
    assert (0 < 2 ^ Zpos p) by (apply Z.pow_pos_nonneg; lia).
    rewrite IH by nia. now apply IH.
  - change (2 ^ 1) with 2. rewrite Z.mul_comm. now apply shr_1_exact.
Qed.

(** A mantissa of 53 digits in the range of the exponents is not shifted. *)
Lemma shr_fexp_53 m e l :
  Zpos (digits2_pos m) = 53 -> -1074 <= e ->
  shr_fexp prec emax (Zpos m) e l = (shr_record_of_loc (Zpos m) l, e).
Proof.
  intros Hd He. unfold shr_fexp, shr. cbn [Zdigits2].
  destruct (fexp prec emax (Zpos (digits2_pos m) + e) - e) eqn:E; try reflexivity.
  exfalso. unfold fexp, emin, prec, emax in E. lia.
Qed.

Lemma digits2_scaled v k :
  0 <= k -> forall M, Zpos M = Zpos v * 2 ^ k ->
  Zpos (digits2_pos M) = Zpos (digits2_pos v) + k.
Proof.
  intros Hk M HM. apply digits2_unique. rewrite HM.
  destruct (digits2_bounds v) as [B1 B2].
  assert (0 < 2 ^ k) by (apply Z.pow_pos_nonneg; lia).
  pose proof (Pos2Z.is_pos (digits2_pos v)).
  replace (Zpos (digits2_pos v) + k - 1) with ((Zpos (digits2_pos v) - 1) + k) by lia.
  rewrite !Z.pow_add_r by lia. split; nia.
Qed.

Lemma digits2_small v : Zpos v < 2 ^ 53 -> 1 <= Zpos (digits2_pos v) <= 53.
Proof.
  intros Hv. destruct (digits2_bounds v) as [B1 _]. split; [lia |].
  destruct (Z.leb_spec (Zpos (digits2_pos v)) 53) as [H | H]; [exact H |].
  assert (2 ^ 53 <= 2 ^ (Zpos (digits2_pos v) - 1)) by (apply Z.pow_le_mono_r; lia).
  lia.
Qed.

(** The float of a whole number below [2^53], whatever the power of two
    that its mantissa was scaled by: 53 digits and the matching exponent. *)
Lemma binary_round_entero M k v :
  Zpos M = Zpos v * 2 ^ k -> 0 <= k <= 1074 -> Zpos v < 2 ^ 53 ->
  binary_round prec emax false M (- k)
  = S754_finite false (Z.to_pos (Zpos v * 2 ^ (53 - Zpos (digits2_pos v))))
                (Zpos (digits2_pos v) - 53).
Proof.
  intros HM Hk Hv. pose proof (digits2_small v Hv) as Hd.
  pose proof (digits2_scaled v k (proj1 Hk) M HM) as HdM.
  set (dv := Zpos (digits2_pos v)) in *.
  assert (Hpos : 0 < Zpos v * 2 ^ (53 - dv)).
  { apply Z.mul_pos_pos; [lia | apply Z.pow_pos_nonneg; lia]. }
  unfold binary_round. rewrite HdM.
  replace (dv + k + - k) with dv by lia. rewrite fexp_normal by lia.
  unfold shl_align.
  destruct (dv - 53 - - k) as [| d | d] eqn:Ed.
  - rewrite binary_round_aux_exact by lia.
    replace (- k) with (dv - 53) by lia. f_equal.
    apply Pos2Z.inj. rewrite Z2Pos.id by lia. rewrite HM. f_equal. f_equal. lia.
  - (* the mantissa has more than 53 digits: the zeros are shifted out *)
    unfold binary_round_aux.
    assert (Hs : shr_fexp prec emax (Zpos M) (- k) loc_Exact
                 = (Build_shr_record (Zpos v * 2 ^ (53 - dv)) false false, dv - 53)).
    { unfold shr_fexp. cbn [Zdigits2]. rewrite HdM.
      replace (dv + k + - k) with dv by lia. rewrite fexp_normal by lia.
      rewrite Ed. cbn [shr shr_record_of_loc]. f_equal; [| lia].
      replace (Zpos M) with ((Zpos v * 2 ^ (53 - dv)) * 2 ^ Zpos d).
      - apply iter_shr_exact. lia.
      - rewrite HM, <- Z.mul_assoc, <- Z.pow_add_r by lia. f_equal. f_equal. lia. }
    rewrite Hs.
    cbn [shr_m loc_of_shr_record round_nearest_even].
    destruct (Zpos v * 2 ^ (53 - dv)) as [| w | w] eqn:Ew; try lia.
    assert (Hdw : Zpos (digits2_pos w) = 53).
    { rewrite (digits2_scaled v (53 - dv) ltac:(lia) w (eq_sym Ew)). fold dv. lia. }
    rewrite shr_fexp_53 by lia. cbn [shr_record_of_loc shr_m].
    destruct (Z.leb_spec (dv - 53) (emax - prec)) as [_ | H];
      [reflexivity | unfold emax, prec in H; lia].
  - rewrite binary_round_aux_exact
      by (rewrite ?digits2_iter_xO; lia).
    f_equal. apply Pos2Z.inj. rewrite Z2Pos.id by lia.
    rewrite iter_xO_value, HM, <- Z.mul_assoc, <- Z.pow_add_r by lia.
    f_equal. f_equal. lia.
Qed.

Lemma of_N_canon v :
  Zpos v < 2 ^ 53 ->
  of_N (Npos v)
  = S754_finite false (Z.to_pos (Zpos v * 2 ^ (53 - Zpos (digits2_pos v))))
                (Zpos (digits2_pos v) - 53).
Proof.
  intros Hv. unfold of_N, binary_normalize. cbn [Z.of_N].
  apply (binary_round_entero v 0 v); [rewrite Z.pow_0_r; lia | lia | exact Hv].
Qed.

Lemma normalize_entero M k v :
  Zpos M = Zpos v * 2 ^ k -> 0 <= k <= 1074 -> Zpos v < 2 ^ 53 ->
  binary_normalize prec emax (Zpos M) (- k) false = of_N (Npos v).
Proof.
  intros HM Hk Hv. rewrite of_N_canon by assumption.
  now apply binary_round_entero.
Qed.

Lemma shl_align_value m e e' :
  e' <= e -> Zpos (fst (shl_align m e e')) = Zpos m * 2 ^ (e - e').
Proof.
  intros H. unfold shl_align. destruct (e' - e) as [| d | d] eqn:E; try lia.
  - cbn [fst]. replace (e - e') with 0 by lia. rewrite Z.pow_0_r. lia.
  - cbn [fst]. rewrite iter_xO_value. f_equal. f_equal. lia.
Qed.

(** The mantissa of the float of [v], brought to the exponent [- k]. *)
Lemma aligned_entero v k :
  Zpos v < 2 ^ 53 -> 53 - Zpos (digits2_pos v) <= k ->
  Zpos (fst (shl_align (Z.to_pos (Zpos v * 2 ^ (53 - Zpos (digits2_pos v))))
                       (Zpos (digits2_pos v) - 53) (- k)))
  = Zpos v * 2 ^ k.
Proof.
  intros Hv Hk. pose proof (digits2_small v Hv) as Hd.
  rewrite shl_align_value by lia.
  rewrite Z2Pos.id by (apply Z.mul_pos_pos; [lia | apply Z.pow_pos_nonneg; lia]).
  rewrite <- Z.mul_assoc, <- Z.pow_add_r by lia. f_equal. f_equal. lia.
Qed.

Lemma N_small_Z (v : positive) : (Npos v < 2 ^ 53)%N -> Zpos v < 2 ^ 53.
Proof.
  intros H. change (Zpos v) with (Z.of_N (Npos v)).
  change (2 ^ 53) with (Z.of_N (2 ^ 53)). lia.
Qed.

(** Whole numbers add without rounding as long as the sum is below
    [2^53]. *)
Lemma SFadd_of_N a b :
  (a + b < 2 ^ 53)%N ->
  SFadd prec emax (of_N a) (of_N b) = of_N (a + b).
Proof.
  intros H. destruct a as [| a]; [destruct b as [| b] |].
  - reflexivity.
  - rewrite N.add_0_l. rewrite of_N_canon by (apply N_small_Z; lia). reflexivity.
  - destruct b as [| b].
    + rewrite N.add_0_r. rewrite of_N_canon by (apply N_small_Z; lia). reflexivity.
    + assert (Ha : Zpos a < 2 ^ 53) by (apply N_small_Z; lia).
      assert (Hb : Zpos b < 2 ^ 53) by (apply N_small_Z; lia).
      assert (Hab : Zpos (a + b) < 2 ^ 53) by (apply N_small_Z; exact H).
      pose proof (digits2_small a Ha) as Da. pose proof (digits2_small b Hb) as Db.
      rewrite (of_N_canon a Ha), (of_N_canon b Hb).
      change (N.pos a + N.pos b)%N with (N.pos (a + b)).
      cbn [SFadd cond_Zopp].
      set (ea := Zpos (digits2_pos a) - 53). set (eb := Zpos (digits2_pos b) - 53).
      set (k := - Z.min ea eb).
      replace (Z.min ea eb) with (- k) by (unfold k; lia).
      match goal with
      | |- binary_normalize _ _ (Zpos ?x + Zpos ?y) _ _ = _ =>
          change (Zpos x + Zpos y) with (Zpos (x + y))
      end.
      apply normalize_entero; [| unfold k, ea, eb; lia | exact Hab].
      rewrite Pos2Z.inj_add. unfold ea, eb.
      rewrite !aligned_entero by (try assumption; unfold k, ea, eb; lia).
      rewrite Pos2Z.inj_add. ring.
Qed.

(** So do they subtract. *)
Lemma SFsub_of_N a b :
  (b <= a)%N -> (a < 2 ^ 53)%N ->
  SFsub prec emax (of_N a) (of_N b) = of_N (a - b).
Proof.
  intros Hle H. destruct b as [| b].
  - rewrite N.sub_0_r. destruct a as [| a]; [reflexivity |].
    rewrite of_N_canon by (apply N_small_Z; lia). reflexivity.
  - destruct a as [| a]; [lia |].
    assert (Ha : Zpos a < 2 ^ 53) by (apply N_small_Z; lia).
    assert (Hb : Zpos b < 2 ^ 53) by (apply N_small_Z; lia).
    pose proof (digits2_small a Ha) as Da. pose proof (digits2_small b Hb) as Db.
    rewrite (of_N_canon a Ha), (of_N_canon b Hb).
    cbn [SFsub cond_Zopp].
    set (ea := Zpos (digits2_pos a) - 53). set (eb := Zpos (digits2_pos b) - 53).
    set (k := - Z.min ea eb).
    replace (Z.min ea eb) with (- k) by (unfold k; lia).
    unfold ea, eb.
    rewrite !aligned_entero by (try assumption; unfold k, ea, eb; lia).
    assert (Hk : 0 < 2 ^ k) by (apply Z.pow_pos_nonneg; unfold k, ea, eb; lia).
    destruct (Npos a - Npos b)%N as [| v] eqn:Ev.
    + assert (a = b) by lia. subst b.
      rewrite Z.sub_diag. reflexivity.
    + assert (Hv : Zpos v = Zpos a - Zpos b) by lia.
      replace (Zpos a * 2 ^ k - Zpos b * 2 ^ k) with (Zpos v * 2 ^ k)
        by (rewrite Hv; ring).
      assert (Hp : 0 < Zpos v * 2 ^ k) by (apply Z.mul_pos_pos; lia).
      destruct (Zpos v * 2 ^ k) as [| M | M] eqn:EM; try lia.
      apply normalize_entero; [exact (eq_sym EM) | unfold k, ea, eb; lia | lia].
Qed.

End Enteros.

(** ** Permutations *)

Lemma filter_Permutation_bool {A} (f : A -> bool) l l' :
  Permutation l l' -> Permutation (List.filter f l) (List.filter f l').
Proof.
  induction 1 as [| x l l' _ IH | x y l | l l' l'' _ IH1 _ IH2]; cbn [List.filter].
  - constructor.
  - destruct (f x); [now constructor | assumption].
  - destruct (f x), (f y); try reflexivity. constructor.
  - now transitivity (List.filter f l').
Qed.

Lemma list_max_Permutation l l' : Permutation l l' -> list_max l = list_max l'.
Proof.
  unfold list_max.
  induction 1 as [| x l l' _ IH | x y l | l l' l'' _ IH1 _ IH2];
    cbn [fold_right]; try congruence; lia.
Qed.

Lemma existsb_Permutation {A} (f : A -> bool) l l' :
  Permutation l l' -> existsb f l = existsb f l'.
Proof.
  induction 1 as [| x l l' _ IH | x y l | l l' l'' _ IH1 _ IH2];
    cbn [existsb]; try congruence.
  destruct (f x), (f y); reflexivity.
Qed.

Lemma list_sum_filter (f : nat -> nat) (p : nat -> bool) l :
  (forall x, p x = false -> f x = 0%nat) ->
  list_sum (map f (List.filter p l)) = list_sum (map f l).
Proof.
  intros H. induction l as [| x l IH]; [reflexivity |].
  cbn [List.filter map]. destruct (p x) eqn:E; cbn [map];
    unfold list_sum in *; cbn [fold_right]; rewrite IH.
  - reflexivity.
  - now rewrite (H x E).
Qed.

(** ** The compensated sum of whole numbers *)

Lemma of_N_0 : of_N 0 = S754_zero false.
Proof. reflexivity. Qed.

Lemma SFsub_cero n : (n < 2 ^ 53)%N ->
  SFsub prec emax (of_N n) (S754_zero false) = of_N n.
Proof.
  intros H. rewrite <- of_N_0, SFsub_of_N by lia. now rewrite N.sub_0_r.
Qed.

Lemma kahan_entero s v :
  (s + v < 2 ^ 53)%N ->
  kahan (of_N s, S754_zero false) (of_N v) = (of_N (s + v), S754_zero false).
Proof.
  intros H. unfold kahan.
  rewrite SFsub_cero by lia. rewrite SFadd_of_N by assumption.
  rewrite (SFsub_of_N (s + v) s) by lia.
  replace (s + v - s)%N with v by lia.
  rewrite SFsub_of_N by lia. rewrite N.sub_diag. reflexivity.
Qed.

Lemma fold_kahan_entero ns : forall s,
  (s + total ns < 2 ^ 53)%N ->
  fold_left kahan (map of_N ns) (of_N s, S754_zero false)
  = (of_N (s + total ns), S754_zero false).
Proof.
  induction ns as [| n ns IH]; intros s H; cbn [map fold_left total fold_right] in *.
  - now rewrite N.add_0_r.
  - fold (total ns) in *. rewrite kahan_entero by lia.
    rewrite IH by lia. now rewrite N.add_assoc.
Qed.

Lemma suma_entera ns :
  (total ns < 2 ^ 53)%N -> suma (map of_N ns) = of_N (total ns).
Proof.
  intros H. unfold suma. rewrite <- of_N_0.
  rewrite fold_kahan_entero by (rewrite N.add_0_l; exact H). reflexivity.
Qed.

Lemma total_Permutation ns ns' : Permutation ns ns' -> total ns = total ns'.
Proof.
  unfold total.
  induction 1 as [| x l l' _ IH | x y l | l l' l'' _ IH1 _ IH2];
    cbn [fold_right]; try congruence; lia.
Qed.

Lemma total_cota B ns :
  Forall (fun n => (n <= B)%N) ns -> (total ns <= N.of_nat (length ns) * B)%N.
Proof.
  induction 1 as [| n ns Hn _ IH]; [cbn; lia |].
  cbn [total fold_right length]. fold (total ns). lia.
Qed.

(** ** The order of the floats *)

Ltac compara :=
  repeat match goal with
         | |- context [Z.compare ?a ?b] =>
             destruct (Z.compare_spec a b); subst
         | |- context [Pos.compare_cont Eq ?a ?b] =>
             change (Pos.compare_cont Eq a b) with (Pos.compare a b);
             destruct (Pos.compare_spec a b); subst
         end.

Lemma SFleb_total x y :
  is_nan x = false -> is_nan y = false -> SFleb x y = false -> SFleb y x = true.
Proof.
  unfold SFleb, SFcompare.
  destruct x as [sx | sx | | sx mx ex], y as [sy | sy | | sy my ey];
    cbn [is_nan]; try discriminate;
    try destruct sx; try destruct sy; try (intros; reflexivity);
    try (intros; discriminate);
    intros _ _; compara; cbn [CompOpp]; intros; try reflexivity;
    try discriminate; try lia.
Qed.

Lemma SFleb_trans x y z :
  SFleb x y = true -> SFleb y z = true -> SFleb x z = true.
Proof.
  unfold SFleb, SFcompare.
  destruct x as [sx | sx | | sx mx ex], y as [sy | sy | | sy my ey],
           z as [sz | sz | | sz mz ez];
    try discriminate;
    try destruct sx; try destruct sy; try destruct sz;
    try (intros; reflexivity); try (intros; discriminate);
    compara; cbn [CompOpp]; intros; try reflexivity; try discriminate; try lia.
Qed.

Lemma SFleb_antisym x y :
  SFleb x y = true -> SFleb y x = true ->
  x <> S754_zero true -> y <> S754_zero true -> x = y.
Proof.
  unfold SFleb, SFcompare.
  destruct x as [sx | sx | | sx mx ex], y as [sy | sy | | sy my ey];
    try discriminate;
    try destruct sx; try destruct sy;
    try (intros; reflexivity); try (intros; discriminate);
    try (intros; congruence);
    compara; cbn [CompOpp]; intros; try reflexivity; try discriminate; try lia.
Qed.

Lemma insertar_permuta x l : Permutation (insertar x l) (x :: l).
Proof.
  induction l as [| y l IH]; cbn [insertar]; [reflexivity |].
  destruct (SFleb x y); [reflexivity |].
  rewrite IH. apply perm_swap.
Qed.

Lemma ordenados_Permutation p : Permutation (ordenados p) p.
Proof.
  induction p as [| x p IH]; [reflexivity |].
  cbn [ordenados foldr]. fold (ordenados p).
  rewrite insertar_permuta. now constructor.
Qed.

Lemma insertar_en_orden x l :
  no_nan x -> Forall no_nan l -> StronglySorted fle l ->
  StronglySorted fle (insertar x l).
Proof.
  intros Hx Hl Hs. induction Hs as [| y l Hs IH Hy]; cbn [insertar].
  - constructor; constructor.
  - apply Forall_cons_1 in Hl as [Hny Hl].
    destruct (SFleb x y) eqn:E.
    + constructor; [now constructor |]. constructor; [exact E |].
      eapply List.Forall_impl; [| exact Hy]. intros z Hz.
      now apply (SFleb_trans x y z).
    + constructor; [now apply IH |].
      assert (Hyx : fle y x) by now apply SFleb_total.
      eapply Permutation_Forall; [symmetry; apply insertar_permuta |].
      now constructor.
Qed.

Lemma ordenados_en_orden p : Forall no_nan p -> StronglySorted fle (ordenados p).
Proof.
  induction 1 as [| x p Hx Hp IH]; [constructor |].
  cbn [ordenados foldr]. fold (ordenados p). apply insertar_en_orden; auto.
  eapply Permutation_Forall; [symmetry; apply ordenados_Permutation | exact Hp].
Qed.

Lemma presentes_no_nan g : Forall no_nan (presentes g).
Proof.
  apply List.Forall_forall. intros x Hx. apply filter_In in Hx as [_ Hx].
  unfold no_nan. now destruct (is_nan x).
Qed.

Lemma presentes_Permutation g g' :
  Permutation g g' -> Permutation (presentes g) (presentes g').
Proof. apply filter_Permutation_bool. Qed.

(** The values in increasing order do not depend on the order they came
    in, as long as the negative zero is not among them. *)
Lemma ordenados_presentes g g' :
  Permutation g g' -> Forall (fun x => x <> S754_zero true) g ->
  ordenados (presentes g) = ordenados (presentes g').
Proof.
  intros Hp Hz.
  apply (StronglySorted_unique_strong fle).
  - intros x y Hx Hy Hxy Hyx.
    apply list_elem_of_In in Hx, Hy.
    assert (Hin : forall u l, Permutation l g -> In u (ordenados (presentes l)) ->
                              u <> S754_zero true).
    { intros u l Hl Hu. rewrite List.Forall_forall in Hz. apply Hz.
      apply (Permutation_in _ Hl).
      apply (Permutation_in _ (ordenados_Permutation _)) in Hu.
      now apply filter_In in Hu as [Hu _]. }
    apply SFleb_antisym; auto.
    + now apply (Hin x g).
    + apply (Hin y g'); [now symmetry | assumption].
  - apply ordenados_en_orden, presentes_no_nan.
  - apply ordenados_en_orden, presentes_no_nan.
  - rewrite !ordenados_Permutation. now apply presentes_Permutation.
Qed.

Lemma median_Permutation g g' :
  Permutation g g' -> Forall (fun x => x <> S754_zero true) g ->
  median g = median g'.
Proof. intros Hp Hz. unfold median. now rewrite (ordenados_presentes g g'). Qed.

Lemma minimum_Permutation g g' :
  Permutation g g' -> Forall (fun x => x <> S754_zero true) g ->
  minimum g = minimum g'.
Proof. intros Hp Hz. unfold minimum. now rewrite (ordenados_presentes g g'). Qed.

Lemma maximum_Permutation g g' :
  Permutation g g' -> Forall (fun x => x <> S754_zero true) g ->
  maximum g = maximum g'.
Proof. intros Hp Hz. unfold maximum. now rewrite (ordenados_presentes g g'). Qed.

Lemma count_Permutation g g' : Permutation g g' -> count g = count g'.
Proof.
  intros Hp. unfold count. apply Permutation_length.
  now apply presentes_Permutation.
Qed.

(** ** The groups *)

Lemma grupo_Permutation df df' m :
  Permutation df df' -> Permutation (grupo df m) (grupo df' m).
Proof.
  intros H. unfold grupo. apply Permutation_map. now apply filter_Permutation_bool.
Qed.

Lemma claves_Permutation df df' : Permutation df df' -> claves df = claves df'.
Proof.
  intros H. unfold claves.
  assert (Hm : Permutation (meses df) (meses df')).
  { unfold meses. now apply omap_Permutation. }
  rewrite (list_max_Permutation _ _ Hm).
  apply filter_ext. intros m. now apply existsb_Permutation.
Qed.

Lemma grupo_Forall (P : float -> Prop) df m :
  Forall (fun r => P (precio r)) df -> Forall P (grupo df m).
Proof.
  intros H. unfold grupo. apply Forall_map.
  apply List.Forall_forall. intros r Hr. apply filter_In in Hr as [Hr _].
  rewrite List.Forall_forall in H. now apply H.
Qed.

Lemma grupo_length df m : (length (grupo df m) <= length df)%nat.
Proof. unfold grupo. rewrite length_map. apply filter_length_le. Qed.

Lemma Forall2_map_same {A B} (R : B -> B -> Prop) (f g : A -> B) l :
  (forall x, In x l -> R (f x) (g x)) -> Forall2 R (map f l) (map g l).
Proof.
  induction l as [| x l IH]; intros H; cbn [map]; constructor.
  - apply H. now left.
  - apply IH. intros; apply H; now right.
Qed.

(** ** Whole-number prices *)

Lemma of_N_presente n : (n < 2 ^ 53)%N ->
  is_nan (of_N n) = false /\ of_N n <> S754_zero true.
Proof.
  intros H. destruct n as [| v]; [split; [reflexivity | discriminate] |].
  rewrite of_N_canon by now apply N_small_Z. split; [reflexivity | discriminate].
Qed.

Lemma presentes_enteros B g :
  (B < 2 ^ 53)%N -> Forall (entero B) g ->
  exists ns, presentes g = map of_N ns /\ Forall (fun n => (n <= B)%N) ns
             /\ (length ns <= length g)%nat.
Proof.
  intros HB. induction 1 as [| x g Hx _ [ns [E [Hn Hl]]]].
  - exists []. repeat split; [constructor | reflexivity].
  - destruct Hx as [-> | [n [Hle ->]]].
    + exists ns. cbn [presentes List.filter is_nan negb]. repeat split; auto.
      cbn [length]. lia.
    + exists (n :: ns). unfold presentes in *. cbn [List.filter].
      destruct (of_N_presente n ltac:(lia)) as [-> _]. cbn [negb map].
      rewrite E. repeat split; [now constructor | cbn [length]; lia].
Qed.

Lemma entero_sin_cero B x : (B < 2 ^ 53)%N -> entero B x -> x <> S754_zero true.
Proof.
  intros HB [-> | [n [Hle ->]]]; [discriminate |].
  now apply of_N_presente; lia.
Qed.

Lemma mean_entera B g g' :
  (N.of_nat (length g) * B < 2 ^ 53)%N -> (B < 2 ^ 53)%N ->
  Forall (entero B) g -> Permutation g g' -> mean g = mean g'.
Proof.
  intros Hlen HB Hg Hp.
  destruct (presentes_enteros B g HB Hg) as [ns [E [Hn Hl]]].
  pose proof (presentes_Permutation _ _ Hp) as Hpp. rewrite E in Hpp.
  symmetry in Hpp. destruct (Permutation_map_inv _ _ Hpp) as [ns' [E' Hns]].
  assert (Ht : (total ns < 2 ^ 53)%N).
  { pose proof (total_cota B ns Hn). nia. }
  unfold mean. rewrite E, E'.
  destruct ns as [| n ns].
  - apply Permutation_nil in Hns. now subst ns'.
  - destruct ns' as [| n' ns'];
      [symmetry in Hns; now apply Permutation_nil_cons in Hns |].
    cbn [map]. change (of_N n :: map of_N ns) with (map of_N (n :: ns)).
    change (of_N n' :: map of_N ns') with (map of_N (n' :: ns')).
    rewrite !suma_entera, !length_map;
      rewrite <- ?(total_Permutation _ _ Hns); try assumption.
    now rewrite (Permutation_length Hns).
Qed.

(** ** The table and the order of the lines *)

Lemma fila_salvo_promedio m g g' :
  Permutation g g' -> Forall (fun x => x <> S754_zero true) g ->
  igual_salvo_promedio (fila m g) (fila m g').
Proof.
  intros Hp Hz. unfold igual_salvo_promedio, fila.
  cbn [indice Mes Mediana Minimo Maximo Registros].
  rewrite (median_Permutation g g'), (minimum_Permutation g g'),
    (maximum_Permutation g g'), (count_Permutation g g') by assumption.
  repeat split.
Qed.

Lemma fila_entera B m g g' :
  (N.of_nat (length g) * B < 2 ^ 53)%N -> (B < 2 ^ 53)%N ->
  Forall (entero B) g -> Permutation g g' -> fila m g = fila m g'.
Proof.
  intros Hlen HB Hg Hp.
  assert (Hz : Forall (fun x => x <> S754_zero true) g).
  { eapply List.Forall_impl; [| exact Hg]. intros x. now apply entero_sin_cero. }
  unfold fila.
  rewrite (mean_entera B g g'), (median_Permutation g g'),
    (minimum_Permutation g g'), (maximum_Permutation g g'),
    (count_Permutation g g') by assumption.
  reflexivity.
Qed.

(** C8.  When the lines of the frame are put in another order, the
    monthly table keeps its rows, and each row its median, minimum,
    maximum and count, as long as no price is the negative zero.  The
    mean is computed by a running sum of floats and is kept when nothing
    is rounded on the way: when every price is missing or a whole number
    of at most [B], with [B] times the number of lines below [2^53], the
    whole table is the same. *)
Theorem analizar_por_mes_Permutation (df df' : list Linea) (B : N) :
  Permutation df df' ->
  (sin_cero_negativo df ->
   Forall2 igual_salvo_promedio (analizar_por_mes df) (analizar_por_mes df'))
  /\ (precios_enteros B df -> (N.of_nat (length df) * B < 2 ^ 53)%N ->
      analizar_por_mes df = analizar_por_mes df').
Proof.
  intros Hp. unfold analizar_por_mes. rewrite <- (claves_Permutation df df' Hp).
  split.
  - intros Hz. apply Forall2_map_same. intros m _.
    apply fila_salvo_promedio; [now apply grupo_Permutation |].
    now apply (grupo_Forall (fun x => x <> S754_zero true)).
  - intros He Hlen. destruct df as [| r df].
    + apply Permutation_nil in Hp. now subst df'.
    + assert (HB : (B < 2 ^ 53)%N) by (cbn [length] in Hlen; nia).
      apply map_ext. intros m. apply (fila_entera B); auto.
      * pose proof (grupo_length (r :: df) m). nia.
      * now apply (grupo_Forall (entero B)).
      * now apply grupo_Permutation.
Qed.

Lemma analizar_por_mes_Permutation_witness :
  Permutation lineas lineas_barajadas
  /\ precios_enteros 1000 lineas
  /\ grupo lineas 3 = [of_N 150; of_N 175; S754_nan]
  /\ grupo lineas_barajadas 3 = [of_N 175; S754_nan; of_N 150]
  /\ analizar_por_mes lineas = analizar_por_mes lineas_barajadas.
Proof.
  assert (Hp : Permutation lineas lineas_barajadas).
  { unfold lineas, lineas_barajadas.
    apply (perm_trans (l' := [mk_linea (Some 3) (of_N 175); mk_linea (Some 1) (of_N 90);
                              mk_linea (Some 3) (of_N 150); mk_linea None (of_N 80);
                              mk_linea (Some 3) S754_nan; mk_linea (Some 1) (of_N 95)])).
    - apply (perm_trans (l' := [mk_linea (Some 1) (of_N 90); mk_linea (Some 3) (of_N 150);
                                mk_linea (Some 3) (of_N 175); mk_linea None (of_N 80);
                                mk_linea (Some 3) S754_nan; mk_linea (Some 1) (of_N 95)]));
        [apply perm_swap |].
      apply (perm_trans (l' := [mk_linea (Some 1) (of_N 90); mk_linea (Some 3) (of_N 175);
                                mk_linea (Some 3) (of_N 150); mk_linea None (of_N 80);
                                mk_linea (Some 3) S754_nan; mk_linea (Some 1) (of_N 95)]));
        [apply perm_skip, perm_swap | apply perm_swap].
    - do 2 apply perm_skip.
      apply (perm_trans (l' := [mk_linea None (of_N 80); mk_linea (Some 3) (of_N 150);
                                mk_linea (Some 3) S754_nan; mk_linea (Some 1) (of_N 95)]));
        [apply perm_swap |].
      apply (perm_trans (l' := [mk_linea None (of_N 80); mk_linea (Some 3) S754_nan;
                                mk_linea (Some 3) (of_N 150); mk_linea (Some 1) (of_N 95)]));
        [apply perm_skip, perm_swap |].
      apply (perm_trans (l' := [mk_linea (Some 3) S754_nan; mk_linea None (of_N 80);
                                mk_linea (Some 3) (of_N 150); mk_linea (Some 1) (of_N 95)]));
        [apply perm_swap | reflexivity]. }
  assert (He : precios_enteros 1000 lineas).
  { unfold precios_enteros, lineas.
    repeat (apply Forall_cons; split;
            [first [left; reflexivity
                   | right; eexists; split; [| reflexivity]; lia] |]).
    apply Forall_nil_2. }
  split; [exact Hp |]. split; [exact He |].
  split; [reflexivity |]. split; [reflexivity |].
  apply (proj2 (analizar_por_mes_Permutation lineas lineas_barajadas 1000 Hp));
    [exact He | cbn; lia].
Defined.

(** C8, as stated, fails on the mean.  Four lines of one month, priced
    2.10, 2.21, 1.44 and 1.55, have the mean 1.82 in the table; read in
    the reverse order they have the mean 1.83.  The compensated sum and
    the plain sum agree on both. *)
Lemma promedio_depende_del_orden :
  Permutation cuatro_precios (rev cuatro_precios)
  /\ map Promedio (analizar_por_mes cuatro_precios) = [of_decimal 182 2]
  /\ map Promedio (analizar_por_mes (rev cuatro_precios)) = [of_decimal 183 2]
  /\ map Promedio (analizar_por_mes_llana cuatro_precios) = [of_decimal 182 2]
  /\ map Promedio (analizar_por_mes_llana (rev cuatro_precios)) = [of_decimal 183 2]
  /\ analizar_por_mes cuatro_precios <> analizar_por_mes (rev cuatro_precios).
Proof.
  split; [apply Permutation_rev |].
  split; [vm_compute; reflexivity |]. split; [vm_compute; reflexivity |].
  split; [vm_compute; reflexivity |]. split; [vm_compute; reflexivity |].
  vm_compute. intros H. discriminate H.
Qed.

(** ** The counts *)

Lemma cuenta_split df n :
  length (List.filter (fun r => con_precio r && antes_de (S n) r) df)
  = (length (List.filter (fun r => con_precio r && antes_de n r) df)
     + cuenta df n)%nat.
Proof.
  unfold cuenta, antes_de, del_mes.
  induction df as [| r df IH]; [reflexivity |].
  cbn [List.filter]. destruct (con_precio r); cbn [andb]; [| exact IH].
  destruct (mes r) as [k |]; [| exact IH].
  destruct (Nat.ltb_spec k (S n)), (Nat.ltb_spec k n), (Nat.eqb_spec k n);
    cbn [length]; lia.
Qed.

Lemma cuenta_seq df n :
  list_sum (map (cuenta df) (seq 0 n))
  = length (List.filter (fun r => con_precio r && antes_de n r) df).
Proof.
  induction n as [| n IH].
  - cbn [seq map list_sum fold_right]. symmetry.
    induction df as [| r df IHdf]; [reflexivity |].
    cbn [List.filter]. unfold antes_de at 1.
    destruct (mes r); rewrite ?andb_false_r; exact IHdf.
  - rewrite seq_S, map_app, list_sum_app, IH, cuenta_split. cbn. lia.
Qed.

Lemma cuenta_ausente df m :
  existsb (Nat.eqb m) (meses df) = false -> cuenta df m = 0%nat.
Proof.
  unfold cuenta, meses, del_mes. induction df as [| r df IH]; [reflexivity |].
  cbn [omap list_omap List.filter]. destruct (mes r) as [k |].
  - cbn [existsb]. intros H. apply orb_false_iff in H as [H1 H2].
    rewrite Nat.eqb_sym, H1, andb_false_r. now apply IH.
  - rewrite andb_false_r. exact IH.
Qed.

Lemma cuenta_filter df m : count (grupo df m) = cuenta df m.
Proof.
  unfold count, grupo, presentes, cuenta, con_precio.
  induction df as [| r df IH]; [reflexivity |].
  cbn [List.filter]. destruct (del_mes m r).
  - cbn [map List.filter]. rewrite andb_true_r.
    destruct (negb (is_nan (precio r))); cbn [length]; now rewrite IH.
  - now rewrite andb_false_r.
Qed.

Lemma filter_todos df :
  List.filter (fun r => con_precio r && antes_de (S (list_max (meses df))) r) df
  = List.filter (fun r => con_precio r && con_mes r) df.
Proof.
  pose proof (proj1 (list_max_le (meses df) (list_max (meses df))) (Nat.le_refl _)) as Hle.
  rewrite List.Forall_forall in Hle.
  apply filter_ext_in. intros r Hr. f_equal. unfold antes_de, con_mes.
  destruct (mes r) as [k |] eqn:Ek; [| reflexivity].
  apply Nat.ltb_lt. assert (In k (meses df)).
  { unfold meses. apply list_elem_of_In, list_elem_of_omap.
    exists r. split; [now apply list_elem_of_In | exact Ek]. }
  specialize (Hle k H). lia.
Qed.

Lemma Registros_cuenta df :
  map Registros (analizar_por_mes df) = map (cuenta df) (claves df).
Proof.
  unfold analizar_por_mes. rewrite map_map. apply map_ext. intros m.
  cbn [Registros fila]. apply cuenta_filter.
Qed.

(** X15.  The count of a row of the monthly table is the number of lines
    of its month that have a price, and the counts add up to the number
    of lines that have both a month and a price: a line without date
    belongs to no month, and a missing price is not counted. *)
Theorem analizar_por_mes_registros df :
  Forall (fun f => Registros f = cuenta df (indice f)) (analizar_por_mes df)
  /\ list_sum (map Registros (analizar_por_mes df))
     = length (List.filter (fun r => con_precio r && con_mes r) df).
Proof.
  split.
  - apply List.Forall_forall. intros f Hf.
    unfold analizar_por_mes in Hf. apply in_map_iff in Hf as [m [<- _]].
    cbn [Registros indice fila]. apply cuenta_filter.
  - rewrite Registros_cuenta. unfold claves.
    rewrite list_sum_filter by (intros m; apply cuenta_ausente).
    now rewrite cuenta_seq, filter_todos.
Qed.

End AgregacionFacts.

(* ===================================================================== *)
(** * Properties of the queries *)
(* ===================================================================== *)

Module UtilsFacts.
Import AnalisisEstacional AnalisisEstacionalFacts Utils.
Local Open Scope Qc_scope.

Lemma filter_true {A} (l : list A) : List.filter (fun _ => true) l = l.
Proof. induction l as [| x l IH]; [reflexivity |]. cbn. now rewrite IH. Qed.

Lemma filter_and {A} (f g : A -> bool) l :
  List.filter g (List.filter f l) = List.filter (fun x => f x && g x) l.
Proof.
  induction l as [| x l IH]; [reflexivity |].
  cbn [List.filter]. destruct (f x); cbn [List.filter andb]; [| exact IH].
  destruct (g x); now rewrite IH.
Qed.

Lemma filter_opt {A B} (o : option B) (f : B -> A -> bool) l :
  match o with Some v => List.filter (f v) l | None => l end
  = List.filter (fun x => match o with Some v => f v x | None => true end) l.
Proof. destruct o; [reflexivity | now rewrite filter_true]. Qed.

Lemma query_data_filter df q : query_data df q = List.filter (acepta q) df.
Proof.
  unfold query_data, filter_by_date, filter_by_lugar, filter_by_categoria, acepta.
  cbv zeta.
  rewrite (filter_opt (fecha_inicio q) (fun d r => desde Z.leb d (fecha r))).
  rewrite (filter_opt (fecha_fin q) (fun d r => hasta Z.leb d (fecha r))).
  rewrite (filter_opt (lugares q) (fun v r => isin (lugar r) (lista v))).
  rewrite (filter_opt (categorias q) (fun v r => isin (categoria r) (lista v))).
  rewrite (filter_opt (precio_min q) (fun v r => desde Qc_leb v (precio r))).
  rewrite (filter_opt (precio_max q) (fun v r => hasta Qc_leb v (precio r))).
  rewrite !filter_and. apply filter_ext. intros r.
  now rewrite !andb_assoc.
Qed.

Lemma isin_In x l : isin x l = true <-> exists s, x = Some s /\ In s l.
Proof.
  unfold isin. destruct x as [s |].
  - rewrite existsb_exists. split.
    + intros [y [Hy E]]. apply String.eqb_eq in E. subst. now exists y.
    + intros [y [[= ->] Hy]]. exists y. split; [assumption | apply String.eqb_refl].
  - split; [discriminate | intros [s [[=] _]]].
Qed.

Lemma desde_Z d x : desde Z.leb d x = true <-> exists f, x = Some f /\ (d <= f)%Z.
Proof.
  unfold desde. destruct x as [f |].
  - rewrite Z.leb_le. split; [intros H; now exists f | now intros [y [[= ->] H]]].
  - split; [discriminate | intros [f [[=] _]]].
Qed.

Lemma hasta_Z d x : hasta Z.leb d x = true <-> exists f, x = Some f /\ (f <= d)%Z.
Proof.
  unfold hasta. destruct x as [f |].
  - rewrite Z.leb_le. split; [intros H; now exists f | now intros [y [[= ->] H]]].
  - split; [discriminate | intros [f [[=] _]]].
Qed.

Lemma desde_Qc v x : desde Qc_leb v x = true <-> exists p, x = Some p /\ v <= p.
Proof.
  unfold desde, Qc_leb. destruct x as [p |].
  - rewrite bool_decide_eq_true.
    split; [intros H; now exists p | now intros [y [[= ->] H]]].
  - split; [discriminate | intros [f [[=] _]]].
Qed.

Lemma hasta_Qc v x : hasta Qc_leb v x = true <-> exists p, x = Some p /\ p <= v.
Proof.
  unfold hasta, Qc_leb. destruct x as [p |].
  - rewrite bool_decide_eq_true.
    split; [intros H; now exists p | now intros [y [[= ->] H]]].
  - split; [discriminate | intros [f [[=] _]]].
Qed.

Lemma opt_test {B} (o : option B) (t : B -> bool) (P : B -> Prop) :
  (forall v, t v = true <-> P v) ->
  match o with Some v => t v | None => true end = true
  <-> forall v, o = Some v -> P v.
Proof.
  intros H. destruct o as [v |].
  - rewrite H. split; [now intros Hv w [= <-] | auto].
  - split; [intros _ v [=] | reflexivity].
Qed.

Lemma acepta_cumple q r : acepta q r = true <-> cumple q r.
Proof.
  unfold acepta, cumple. rewrite !andb_true_iff.
  rewrite (opt_test (fecha_inicio q) _ _ (fun d => desde_Z d (fecha r))).
  rewrite (opt_test (fecha_fin q) _ _ (fun d => hasta_Z d (fecha r))).
  rewrite (opt_test (lugares q) _ _ (fun v => isin_In (lugar r) (lista v))).
  rewrite (opt_test (categorias q) _ _ (fun v => isin_In (categoria r) (lista v))).
  rewrite (opt_test (precio_min q) _ _ (fun v => desde_Qc v (precio r))).
  rewrite (opt_test (precio_max q) _ _ (fun v => hasta_Qc v (precio r))).
  tauto.
Qed.

Lemma filter_sublist_of {A} (p : A -> bool) l : sublist (List.filter p l) l.
Proof.
  induction l as [| x l IH]; cbn [List.filter]; [constructor |].
  destruct (p x); now constructor.
Qed.

(** X17.  The result of a query keeps the rows of the frame in their
    order, and a row is in it exactly when it is in the frame and meets
    every filter whose key is in the query; a row whose value is missing
    fails every filter on that value. *)
Theorem query_data_spec df q :
  sublist (query_data df q) df
  /\ forall r, In r (query_data df q) <-> In r df /\ cumple q r.
Proof.
  rewrite query_data_filter. split; [apply filter_sublist_of |].
  intros r. now rewrite filter_In, acepta_cumple.
Qed.

(** X18.  Two queries applied one after the other give the same rows in
    either order, and a query applied twice gives what it gives once. *)
Theorem query_data_compose df q1 q2 :
  query_data (query_data df q1) q2 = query_data (query_data df q2) q1
  /\ query_data (query_data df q1) q1 = query_data df q1.
Proof.
  rewrite !query_data_filter, !filter_and. split.
  - apply filter_ext. intros r. apply andb_comm.
  - apply filter_ext. intros r. now destruct (acepta q1 r).
Qed.

(** ** find_outliers *)

Lemma Qfloor_Qc_of_nat k : Qfloor (Qc_of_nat k) = Z.of_nat k.
Proof.
  unfold Qc_of_nat, Qc_of_Z, this. apply Qfloor_Z.
Qed.

Lemma Qc_of_nat_nonneg k : 0 <= Qc_of_nat k.
Proof.
  unfold Qcle, Qc_of_nat, Qc_of_Z. cbn [this Q2Qc]. rewrite !Qred_correct.
  unfold Qle, inject_Z. cbn [Qnum Qden]. lia.
Qed.

Lemma pos_bounds k q :
  0 <= q -> q <= 1 ->
  0 <= Qc_of_nat k * q /\ Qc_of_nat k * q <= Qc_of_nat k.
Proof.
  intros H0 H1. pose proof (Qc_of_nat_nonneg k) as Hk. split.
  - replace 0 with (0 * q) by ring. now apply Qcmult_le_compat_r.
  - replace (Qc_of_nat k) with (1 * Qc_of_nat k) at 2 by ring.
    rewrite Qcmult_comm. now apply Qcmult_le_compat_r.
Qed.

Lemma floor_bounds k q :
  0 <= q -> q <= 1 -> (0 <= Qfloor (Qc_of_nat k * q)%Qc <= Z.of_nat k)%Z.
Proof.
  intros H0 H1. destruct (pos_bounds k q H0 H1) as [Ha Hb]. split.
  - exact (Qfloor_resp_le (Q2Qc 0) (Qc_of_nat k * q)%Qc Ha).
  - rewrite <- (Qfloor_Qc_of_nat k).
    exact (Qfloor_resp_le (Qc_of_nat k * q)%Qc (Qc_of_nat k) Hb).
Qed.

Section Interpolar.
Variable s : list Qc.
Hypothesis s_sorted : StronglySorted Qcle s.
Hypothesis s_not_nil : s <> [].

Lemma length_pos : (1 <= length s)%nat.
Proof. destruct s; [congruence | cbn; lia]. Qed.

Lemma interpolar_const c q :
  (forall x, In x s -> x = c) -> 0 <= q -> q <= 1 -> interpolar s q = c.
Proof.
  intros Hc H0 H1. pose proof length_pos as Hn.
  pose proof (floor_bounds (length s - 1) q H0 H1) as Hf.
  unfold interpolar.
  rewrite (Hc (nth (Z.to_nat _) s 0)) by (apply nth_In; lia).
  rewrite (Hc (nth (Nat.min _ _) s 0)) by (apply nth_In; lia).
  ring.
Qed.
End Interpolar.

Lemma cuartiles_en_rango :
  0 <= Q2Qc (1 # 4) /\ Q2Qc (1 # 4) <= Q2Qc (3 # 4) /\ Q2Qc (3 # 4) <= 1.
Proof. repeat split; vm_compute; intros H; discriminate H. Qed.

Lemma omap_const (df : list Fila) c :
  (forall r, In r df -> precio r = Some c \/ precio r = None) ->
  forall x, In x (omap precio df) -> x = c.
Proof.
  intros H x Hx. apply list_elem_of_In, list_elem_of_omap in Hx as [r [Hr Hp]].
  apply list_elem_of_In in Hr. destruct (H r Hr) as [E | E]; congruence.
Qed.

Lemma quantile_const l c q :
  (forall x, In x l -> x = c) -> 0 <= q -> q <= 1 -> l <> [] ->
  quantile q l = Some c.
Proof.
  intros Hc H0 H1 Hl. unfold quantile. destruct l as [| x l]; [congruence |].
  f_equal. apply interpolar_const; try assumption;
    first [ apply ordenados_sorted
          | apply ordenados_not_nil; discriminate
          | intros y Hy; apply Hc;
            apply (Permutation_in _ (ordenados_perm _)), Hy ].
Qed.

(** X26.  A frame whose prices are all the same, missing ones apart, has
    no outlier, whatever the threshold. *)
Theorem find_outliers_constant df c threshold :
  (forall r, In r df -> precio r = Some c \/ precio r = None) ->
  find_outliers df threshold = [].
Proof.
  intros H. unfold find_outliers.
  pose proof (omap_const df c H) as Hc.
  destruct cuartiles_en_rango as [H0 [H1 H2]].
  destruct (omap precio df) as [| x l] eqn:E; [reflexivity |].
  rewrite !(quantile_const _ c) by
    (auto; try discriminate; eapply Qcle_trans; eassumption).
  cbv zeta.
  replace (c - threshold * (c - c)) with c by ring.
  replace (c + threshold * (c - c)) with c by ring.
  clear Hc E. induction df as [| r df IH]; [reflexivity |].
  cbn [List.filter].
  assert (Hr : match precio r with
               | Some p => Qc_ltb p c || Qc_ltb c p
               | None => false
               end = false).
  { destruct (H r (or_introl eq_refl)) as [-> | ->]; [| reflexivity].
    unfold Qc_ltb. rewrite bool_decide_eq_false_2; [reflexivity |].
    intros Hlt. now apply Qclt_not_eq in Hlt. }
  rewrite Hr. apply IH. intros; apply H; now right.
Qed.

Lemma find_outliers_constant_witness :
  (forall r, In r [mk_fila None None None (Some 1); mk_fila None None None None] ->
             precio r = Some 1 \/ precio r = None)
  /\ find_outliers [mk_fila None None None (Some 1); mk_fila None None None None]
                   (Q2Qc (3 # 2)) = [].
Proof.
  assert (H : forall r,
             In r [mk_fila None None None (Some 1); mk_fila None None None None] ->
             precio r = Some 1 \/ precio r = None).
  { intros r [<- | [<- | []]]; [now left | now right]. }
  split; [exact H |]. exact (find_outliers_constant _ 1 (Q2Qc (3 # 2)) H).
Defined.

End UtilsFacts.

(* ===================================================================== *)
(** * Properties of the scraper *)
(* ===================================================================== *)

Module ScraperFacts.
Import PyStr Scraper.

Lemma mem_In x l : mem x l = true <-> In x l.
Proof.
  unfold mem. rewrite existsb_exists. split.
  - intros [y [Hy E]]. apply String.eqb_eq in E. now subst.
  - intros H. exists x. split; [assumption | apply String.eqb_refl].
Qed.

Lemma mem_not_In x l : mem x l = false <-> ~ In x l.
Proof.
  rewrite <- mem_In. destruct (mem x l); split; congruence.
Qed.

(** ** get_page_content *)

Section GetPageContentFacts.
Variable session_get : nat -> option string.

Lemma intentos_spec retries : forall restantes attempt k,
  (attempt + restantes = retries)%nat -> (k <= restantes)%nat ->
  (forall j, (attempt <= j < attempt + k)%nat -> session_get j = None) ->
  ((k < restantes)%nat -> session_get (attempt + k) <> None) ->
  intentos session_get retries attempt restantes
  = (if (k <? restantes)%nat then session_get (attempt + k) else None,
     map (Nat.pow 2) (seq attempt (Nat.min (attempt + k) (retries - 1) - attempt))).
Proof.
  induction restantes as [| r IH]; intros attempt k Hr Hk Hf Hs.
  - assert (k = 0)%nat as -> by lia. cbn [intentos Nat.ltb Nat.leb].
    replace (Nat.min (attempt + 0) (retries - 1) - attempt)%nat with 0%nat by lia.
    reflexivity.
  - cbn [intentos]. destruct k as [| k].
    + rewrite Nat.add_0_r in *. specialize (Hs ltac:(lia)).
      destruct (session_get attempt) as [text |]; [| congruence].
      replace (Nat.min attempt (retries - 1) - attempt)%nat with 0%nat by lia.
      reflexivity.
    + rewrite (Hf attempt) by lia.
      rewrite (IH (S attempt) k); try lia.
      * replace (S attempt + k)%nat with (attempt + S k)%nat by lia.
        replace (S k <? S r)%nat with (k <? r)%nat by reflexivity.
        f_equal.
        destruct (Nat.ltb_spec attempt (retries - 1)).
        -- replace (Nat.min (attempt + S k) (retries - 1) - attempt)%nat
             with (S (Nat.min (attempt + S k) (retries - 1) - S attempt)) by lia.
           reflexivity.
        -- replace (Nat.min (attempt + S k) (retries - 1) - attempt)%nat with 0%nat by lia.
           replace (Nat.min (attempt + S k) (retries - 1) - S attempt)%nat with 0%nat by lia.
           reflexivity.
      * intros j Hj. apply Hf. lia.
      * intros Hlt. replace (S attempt + k)%nat with (attempt + S k)%nat by lia.
        apply Hs. lia.
Qed.

(** X19.  When the requests fail up to the first one that answers, number
    [k], the page returned is that answer and the waits are 1, 2, 4, ...
    seconds, one after each failure; when all the [retries] requests fail
    the result is None and no wait follows the last failure. *)
Theorem get_page_content_first_success retries k :
  (k <= retries)%nat ->
  (forall j, (j < k)%nat -> session_get j = None) ->
  ((k < retries)%nat -> session_get k <> None) ->
  get_page_content session_get retries
  = (if (k <? retries)%nat then session_get k else None,
     map (Nat.pow 2) (seq 0 (Nat.min k (retries - 1)))).
Proof.
  intros Hk Hf Hs. unfold get_page_content.
  rewrite (intentos_spec retries retries 0 k); try lia.
  - cbn [plus]. now rewrite Nat.sub_0_r.
  - intros j Hj. apply Hf. lia.
  - exact Hs.
Qed.
End GetPageContentFacts.

Lemma get_page_content_first_success_witness :
  get_page_content tercera_vez 3 = (Some "<html>", [1; 2]%nat).
Proof.
  apply (get_page_content_first_success tercera_vez 3 2).
  - lia.
  - intros j Hj. destruct j as [| [| j]]; [reflexivity | reflexivity | lia].
  - intros _. discriminate.
Defined.

(** ** crawl_site *)

Section CrawlSiteFacts.
Variable self : Sitio.

Lemma seguir_spec v : forall p q,
  exists nuevos,
    seguir self v q p = (q ++ nuevos)%list
    /\ NoDup nuevos
    /\ forall u, In u nuevos ->
                 ~ In u v /\ ~ In u q /\ netloc self u = netloc self (base_url self).
Proof.
  induction p as [| x p IH]; intros q; cbn [seguir].
  - exists []. rewrite app_nil_r. split; [reflexivity |].
    split; [constructor | intros u []].
  - destruct (mem x v) eqn:Ev; cbn [negb andb]; [apply IH |].
    destruct (mem x q) eqn:Eq; cbn [negb andb]; [apply IH |].
    destruct (String.eqb_spec (netloc self x) (netloc self (base_url self))) as [En | _]; [| apply IH].
    destruct (IH (q ++ [x])%list) as [n [E [Hn Hu]]].
    apply mem_not_In in Ev, Eq.
    exists (x :: n). rewrite E, <- app_assoc. split; [reflexivity |]. split.
    + constructor; [| assumption]. intros Hx%list_elem_of_In.
      destruct (Hu x Hx) as [_ [Hq _]]. apply Hq, in_or_app. right. now left.
    + intros u [<- | Hin]; [now repeat split |].
      destruct (Hu u Hin) as [H1 [H2 H3]]. repeat split; auto.
      intros Hq. apply H2, in_or_app. now left.
Qed.

Lemma sacar_spec v : forall q url q',
  sacar v q = Some (url, q') ->
  ~ In url v /\ exists pre, q = (pre ++ url :: q')%list.
Proof.
  induction q as [| x q IH]; intros url q'; cbn [sacar]; [discriminate |].
  destruct (mem x v) eqn:E.
  - intros H. destruct (IH _ _ H) as [H1 [pre ->]].
    split; [assumption |]. now exists (x :: pre).
  - intros [= <- <-]. apply mem_not_In in E. split; [assumption |]. now exists [].
Qed.

Lemma enlaces_de_cons url v p :
  enlaces_de self (url :: v) p
  <-> enlaces_de self v p
      \/ exists html, page_content self (length v) url = Some html /\ html <> ""
                      /\ In p (extract_pdf_links self html url).
Proof.
  unfold enlaces_de. split.
  - intros [pre [u [post [html [E H]]]]]. destruct pre as [| a pre].
    + injection E as <- <-. right. now exists html.
    + injection E as <- ->. left. now exists pre, u, post, html.
  - intros [[pre [u [post [html [-> H]]]]] | [html H]].
    + now exists (url :: pre), u, post, html.
    + now exists [], url, v, html.
Qed.

Lemma pagina_invariante pdfs0 url v q n pdfs :
  invariante self pdfs0 (mk_estado v q n pdfs) ->
  ~ In url v -> ~ In url q -> netloc self url = netloc self (base_url self) ->
  invariante self pdfs0 (pagina self url (mk_estado v q n pdfs)).
Proof.
  intros [Hv [Hq [Hd [Hc [Hn Hp]]]]] Hu1 Hu2 Hu3.
  cbn [visited to_visit page_count pdf_links] in *.
  assert (Hv' : NoDup (url :: v)).
  { constructor; [now rewrite list_elem_of_In | assumption]. }
  assert (Hd' : forall u, In u q -> ~ In u (url :: v)).
  { intros u Hu [<- | Hin]; [contradiction | now apply (Hd u)]. }
  assert (Hn' : forall u, In u (url :: v) \/ In u q -> netloc self u = netloc self (base_url self)).
  { intros u [[<- | H] | H]; auto. }
  assert (Hsame : forall p,
            (forall html, page_content self n url = Some html -> html = "") ->
            In p pdfs <-> In p pdfs0 \/ enlaces_de self (url :: v) p).
  { intros p Hno. rewrite Hp, enlaces_de_cons. split; [tauto |].
    intros [H | [H | [html [H1 [H2 _]]]]]; auto.
    rewrite <- Hc in H1. now apply Hno in H1. }
  assert (Hc' : S n = length (url :: v)) by (cbn [length]; congruence).
  unfold pagina. cbn [visited to_visit page_count pdf_links].
  destruct (page_content self n url) as [html |] eqn:Eh.
  - destruct (String.eqb_spec html "") as [-> | Hne].
    + unfold invariante. cbn [visited to_visit page_count pdf_links].
      split; [exact Hv' |]. split; [exact Hq |]. split; [exact Hd' |].
      split; [exact Hc' |]. split; [exact Hn' |].
      intros p. apply Hsame. now intros h [= <-].
    + destruct (seguir_spec (url :: v) (get_pagination_links self html url) q)
        as [nuevos [E [Hnn Hnu]]].
      unfold invariante. cbn [visited to_visit page_count pdf_links].
      rewrite E.
      split; [exact Hv' |]. split; [| split; [| split; [exact Hc' |]; split]].
      * apply NoDup_app. split; [assumption |]. split; [| assumption].
        intros u Hin%list_elem_of_In Hin'%list_elem_of_In.
        now destruct (Hnu u Hin') as [_ [H _]].
      * intros u Hin. apply in_app_or in Hin as [Hin | Hin]; [now apply Hd' |].
        now destruct (Hnu u Hin) as [H _].
      * intros u [H | H]; [now apply Hn'; left |].
        apply in_app_or in H as [H | H]; [now apply Hn'; right |].
        now destruct (Hnu u H) as [_ [_ H3]].
      * intros p. rewrite in_app_iff, Hp, enlaces_de_cons, <- Hc, Eh. split.
        -- intros [[H | H] | H]; auto. right. right. now exists html.
        -- intros [H | [H | [h [[= <-] [_ H]]]]]; auto.
  - unfold invariante. cbn [visited to_visit page_count pdf_links].
    split; [exact Hv' |]. split; [exact Hq |]. split; [exact Hd' |].
    split; [exact Hc' |]. split; [exact Hn' |].
    intros p. apply Hsame. intros h [=].
Qed.

Lemma bucle_invariante pdfs0 : forall k st,
  invariante self pdfs0 st ->
  invariante self pdfs0 (bucle self k st)
  /\ (length (visited (bucle self k st)) <= length (visited st) + k)%nat
  /\ (page_count (bucle self k st) = (page_count st + k)%nat
       \/ to_visit (bucle self k st) = []).
Proof.
  induction k as [| k IH]; intros st Hinv; cbn [bucle].
  - split; [assumption |]. split; [lia | left; lia].
  - destruct st as [v q n pdfs]. cbn [visited to_visit page_count pdf_links] in *.
    destruct (sacar v q) as [[url q'] |] eqn:Es.
    + apply sacar_spec in Es as [Hu [pre ->]].
      destruct Hinv as [Hv [Hq [Hd [Hc [Hn Hp]]]]].
      cbn [visited to_visit page_count pdf_links] in *.
      apply NoDup_app in Hq as [_ [_ Hq]]. apply NoDup_cons in Hq as [Hq1 Hq2].
      rewrite list_elem_of_In in Hq1.
      assert (Hinv' : invariante self pdfs0 (mk_estado v q' n pdfs)).
      { unfold invariante. cbn [visited to_visit page_count pdf_links].
        split; [exact Hv |]. split; [exact Hq2 |].
        split; [| split; [exact Hc |]; split; [| exact Hp]].
        - intros u Hin. apply Hd, in_or_app. right. now right.
        - intros u [H | H]; apply Hn; [now left |].
          right. apply in_or_app. right. now right. }
      assert (Hdom : netloc self url = netloc self (base_url self)).
      { apply Hn. right. apply in_or_app. right. now left. }
      pose proof (pagina_invariante pdfs0 url v q' n pdfs Hinv' Hu Hq1 Hdom) as Hpag.
      destruct (IH _ Hpag) as [H1 [H2 H3]].
      split; [assumption |].
      assert (Hvis : visited (pagina self url (mk_estado v q' n pdfs)) = url :: v).
      { unfold pagina. cbn [visited to_visit page_count pdf_links].
        destruct (page_content self n url) as [h |]; [destruct (String.eqb h "") |];
          reflexivity. }
      assert (Hcnt : page_count (pagina self url (mk_estado v q' n pdfs)) = S n).
      { unfold pagina. cbn [visited to_visit page_count pdf_links].
        destruct (page_content self n url) as [h |]; [destruct (String.eqb h "") |];
          reflexivity. }
      rewrite Hvis in H2. rewrite Hcnt in H3. cbn [length] in H2.
      split; [lia |]. destruct H3 as [H3 | H3]; [left; lia | now right].
    + destruct Hinv as [Hv [Hq [Hd [Hc [Hn Hp]]]]].
      cbn [visited to_visit page_count pdf_links] in *.
      split; [| split; [lia | now right]].
      unfold invariante. cbn [visited to_visit page_count pdf_links].
      split; [exact Hv |]. split; [constructor |].
      split; [intros u [] |]. split; [exact Hc |]. split; [| exact Hp].
      intros u [H | []]. apply Hn. now left.
Qed.

Lemma invariante_inicial pdfs0 :
  invariante self pdfs0 (mk_estado [] [base_url self] 0 pdfs0).
Proof.
  unfold invariante. cbn [visited to_visit page_count pdf_links].
  split; [constructor |]. split; [apply NoDup_singleton |].
  split; [intros u _ [] |]. split; [reflexivity |]. split.
  - intros u [[] | [<- | []]]. reflexivity.
  - intros p. split; [now left |].
    intros [H | [pre [u [post [h [E _]]]]]]; [assumption |].
    now destruct pre.
Qed.

(** X20.  The crawl asks for at most [max_pages] pages and for no page
    twice; every page it asks for is on the host of the start page; it
    ends with [max_pages] pages asked for or with nothing left to visit,
    and what is left to visit holds no page twice and none already
    visited. *)
Theorem crawl_site_pages max_pages pdfs0 :
  let st := crawl_site self max_pages pdfs0 in
  (length (visited st) <= max_pages)%nat
  /\ page_count st = length (visited st)
  /\ NoDup (visited st)
  /\ (forall u, In u (visited st) -> netloc self u = netloc self (base_url self))
  /\ (page_count st = max_pages \/ to_visit st = [])
  /\ NoDup (to_visit st)
  /\ (forall u, In u (to_visit st) -> ~ In u (visited st)).
Proof.
  cbn zeta. unfold crawl_site. cbn [visited to_visit page_count pdf_links].
  destruct (bucle_invariante pdfs0 max_pages _ (invariante_inicial pdfs0))
    as [[Hv [Hq [Hd [Hc [Hn Hp]]]]] [H2 H3]].
  cbn [visited to_visit page_count pdf_links length plus] in *.
  repeat split; auto.
Qed.

(** X21.  After the crawl a link is in [pdf_links] exactly when it was
    there before or was found on a visited page that answered with a text
    that is not empty; no link is there twice. *)
Theorem crawl_site_pdf_links max_pages pdfs0 :
  let st := crawl_site self max_pages pdfs0 in
  NoDup (pdf_links st)
  /\ forall p, In p (pdf_links st)
               <-> In p pdfs0 \/ enlaces_de self (visited st) p.
Proof.
  cbn zeta. unfold crawl_site. cbn [visited to_visit page_count pdf_links].
  destruct (bucle_invariante pdfs0 max_pages _ (invariante_inicial pdfs0))
    as [[Hv [Hq [Hd [Hc [Hn Hp]]]]] _].
  split; [apply NoDup_remove_dups |].
  intros p. rewrite <- Hp, <- !list_elem_of_In. apply elem_of_remove_dups.
Qed.
End CrawlSiteFacts.

(** ** download_pdf *)

Lemma contains_slash_cons c s :
  contains "/" (String c s) = Ascii.eqb "/" c || contains "/" s.
Proof.
  cbn [contains]. f_equal. unfold starts_with. cbn [strip_prefix].
  now destruct (Ascii.eqb "/" c).
Qed.

Lemma contains_slash_app a b :
  contains "/" (a ++ b) = contains "/" a || contains "/" b.
Proof.
  induction a as [| c a IH].
  - change ("" ++ b) with b. now destruct (contains "/" b).
  - change (String c a ++ b) with (String c (a ++ b)).
    rewrite !contains_slash_cons, IH. apply orb_assoc.
Qed.

Lemma basename_no_slash path : contains "/" (basename path) = false.
Proof.
  induction path as [| c path IH]; [reflexivity |].
  cbn [basename]. destruct (contains "/" (String c path)) eqn:E; assumption.
Qed.

Lemma string_of_uint_no_slash d :
  contains "/" (DecimalString.NilEmpty.string_of_uint d) = false.
Proof.
  induction d; cbn [DecimalString.NilEmpty.string_of_uint];
    [reflexivity | rewrite contains_slash_cons, IHd; reflexivity ..].
Qed.

Lemma string_of_nat_no_slash n :
  contains "/" (PdfExtractor.string_of_nat n) = false.
Proof.
  unfold PdfExtractor.string_of_nat, DecimalString.NilZero.string_of_uint.
  destruct (Nat.to_uint n); try apply string_of_uint_no_slash. reflexivity.
Qed.

Lemma substring_all s : substring 0 (String.length s) s = s.
Proof. induction s as [| c s IH]; [reflexivity |]. cbn. now rewrite IH. Qed.

Lemma substring_skip p s :
  substring (String.length p) (String.length s) (p ++ s) = s.
Proof.
  induction p as [| c p IH]; [apply substring_all |].
  change (String c p ++ s) with (String c (p ++ s)). cbn [String.length substring].
  exact IH.
Qed.

Lemma length_append p s :
  String.length (p ++ s) = (String.length p + String.length s)%nat.
Proof.
  induction p as [| c p IH]; [reflexivity |].
  change (String c p ++ s) with (String c (p ++ s)). cbn [String.length]. now rewrite IH.
Qed.

Lemma ends_with_app p suf : ends_with suf (p ++ suf) = true.
Proof.
  unfold ends_with. rewrite length_append. apply andb_true_iff. split.
  - apply Nat.leb_le. lia.
  - replace (String.length p + String.length suf - String.length suf)%nat
      with (String.length p) by lia.
    rewrite substring_skip. apply String.eqb_refl.
Qed.

(** X22.  The name under which a link is saved always ends in ".pdf" and
    never holds a slash, whatever the path of the link. *)
Theorem nombre_de_archivo_seguro path n :
  ends_with ".pdf" (nombre_de_archivo path n) = true
  /\ contains "/" (nombre_de_archivo path n) = false.
Proof.
  unfold nombre_de_archivo.
  destruct (String.eqb (basename path) "" || negb (ends_with ".pdf" (basename path)))
    eqn:E.
  - split.
    + change ("documento_" ++ PdfExtractor.string_of_nat n ++ ".pdf")
        with (("documento_" ++ PdfExtractor.string_of_nat n) ++ ".pdf") at 1.
      apply ends_with_app.
    + rewrite !contains_slash_app, string_of_nat_no_slash. reflexivity.
  - apply orb_false_iff in E as [_ E]. apply negb_false_iff in E.
    split; [exact E | apply basename_no_slash].
Qed.

(** ** download_all_pdfs *)

Section DownloadAllFacts.
Variable output_dir : string.
Variable url_path : string -> option string.
Variable transferir : nat -> string -> transferencia.

Lemma download_pdf_spec n i url fs r fs' :
  download_pdf output_dir url_path transferir n i url fs = (r, fs') ->
  (fs' = fs \/ exists f, ruta output_dir url_path n url = Some f
                         /\ ~ In f fs /\ fs' = f :: fs)
  /\ (forall f, r = Some f -> ruta output_dir url_path n url = Some f /\ In f fs').
Proof.
  unfold download_pdf, ruta. destruct (url_path url) as [path |].
  - destruct (mem _ fs) eqn:E.
    + intros [= <- <-]. split; [now left |].
      intros f [= <-]. split; [reflexivity | now apply mem_In].
    + apply mem_not_In in E.
      destruct (transferir i url); intros [= <- <-].
      * split; [now left | discriminate].
      * split; [right; eauto | discriminate].
      * split; [right; eauto |]. intros f [= <-]. split; [reflexivity | now left].
  - intros [= <- <-]. split; [now left | discriminate].
Qed.

Lemma descargar_spec n : forall links i fs d fs',
  descargar output_dir url_path transferir n i links fs = (d, fs') ->
  exists nuevos,
    fs' = (nuevos ++ fs)%list
    /\ NoDup nuevos
    /\ (forall f, In f nuevos ->
                  ~ In f fs /\ exists u, In u links
                                         /\ ruta output_dir url_path n u = Some f)
    /\ (forall u f, In (u, f) d ->
                    In u links /\ ruta output_dir url_path n u = Some f /\ In f fs').
Proof.
  induction links as [| u links IH]; intros i fs d fs'; cbn [descargar].
  - intros [= <- <-]. exists []. split; [reflexivity |]. split; [constructor |].
    split; [intros f [] | intros u f []].
  - destruct (download_pdf _ _ _ n i u fs) as [r fs1] eqn:E1.
    destruct (descargar _ _ _ n (S i) links fs1) as [d2 fs2] eqn:E2.
    intros [= <- <-].
    destruct (download_pdf_spec _ _ _ _ _ _ E1) as [Hfs Hr].
    destruct (IH _ _ _ _ E2) as [nuevos [-> [Hnd [Hn Hd]]]].
    assert (Hd' : forall u' f, In (u', f) d2 ->
              In u' (u :: links) /\ ruta output_dir url_path n u' = Some f
              /\ In f (nuevos ++ fs1)%list).
    { intros u' f H. destruct (Hd u' f H) as [H1 [H2 H3]]. repeat split; auto.
      now right. }
    assert (Hall : forall u' f,
              In (u', f) match r with Some f0 => (u, f0) :: d2 | None => d2 end ->
              In u' (u :: links) /\ ruta output_dir url_path n u' = Some f
              /\ In f (nuevos ++ fs1)%list).
    { intros u' f H. destruct r as [f0 |]; [| now apply Hd'].
      destruct H as [[= <- <-] | H]; [| now apply Hd'].
      destruct (Hr f0 eq_refl) as [H1 H2]. repeat split; auto; [now left |].
      apply in_or_app. now right. }
    destruct Hfs as [-> | [f [Hf [Hnf ->]]]].
    + exists nuevos. split; [reflexivity |]. split; [assumption |].
      split; [| exact Hall].
      intros f Hf. destruct (Hn f Hf) as [H1 [u' [H2 H3]]].
      split; [assumption |]. exists u'. split; [now right | assumption].
    + exists (nuevos ++ [f])%list. rewrite <- app_assoc. split; [reflexivity |].
      split; [| split; [| exact Hall]].
      * apply NoDup_app. split; [assumption |]. split; [| apply NoDup_singleton].
        intros x Hx%list_elem_of_In Hx'%list_elem_of_In.
        destruct Hx' as [<- | []]. destruct (Hn f Hx) as [H _]. apply H. now left.
      * intros x Hx. apply in_app_or in Hx as [Hx | [<- | []]].
        -- destruct (Hn x Hx) as [H1 [u' [H2 H3]]]. split.
           ++ intros H. apply H1. now right.
           ++ exists u'. split; [now right | assumption].
        -- split; [assumption |]. exists u. split; [now left | assumption].
Qed.

(** X24.  download_all_pdfs writes only files that did not exist and no
    file twice; every file it writes is the path of one of the links, so
    it writes at most as many files as the links have distinct paths;
    every entry it returns names a link of the list with the path of that
    link, which exists afterwards; it returns no list only when there is
    no link. *)
Theorem download_all_pdfs_files pdf_links fs :
  let '(downloaded, fs') :=
    download_all_pdfs output_dir url_path transferir pdf_links fs in
  let n := length pdf_links in
  exists nuevos,
    fs' = (nuevos ++ fs)%list
    /\ NoDup nuevos
    /\ (forall f, In f nuevos ->
                  ~ In f fs /\ exists u, In u pdf_links
                                         /\ ruta output_dir url_path n u = Some f)
    /\ (length nuevos
        <= length (remove_dups (omap (ruta output_dir url_path n) pdf_links)))%nat
    /\ match downloaded with
       | None => pdf_links = []
       | Some d =>
           forall u f, In (u, f) d ->
                       In u pdf_links /\ ruta output_dir url_path n u = Some f
                       /\ In f fs'
       end.
Proof.
  unfold download_all_pdfs. destruct pdf_links as [| u0 links].
  - exists []. split; [reflexivity |]. split; [constructor |].
    split; [intros f [] |]. split; [cbn; lia | reflexivity].
  - set (l := u0 :: links).
    destruct (descargar _ _ _ (length l) 1 l fs) as [d fs'] eqn:E.
    cbv zeta. destruct (descargar_spec _ _ _ _ _ _ E) as [nuevos [-> [Hnd [Hn Hd]]]].
    exists nuevos. split; [reflexivity |]. split; [assumption |].
    split; [exact Hn |]. split; [| exact Hd].
    apply submseteq_length, NoDup_submseteq; [assumption |].
    intros f Hf%list_elem_of_In. apply elem_of_remove_dups.
    destruct (Hn f Hf) as [_ [u [Hu Hr]]].
    apply list_elem_of_omap. exists u. split; [now apply list_elem_of_In | assumption].
Qed.
End DownloadAllFacts.

End ScraperFacts.
